(** * vc-monitor: the inventory hierarchy (Tree.py) and the statistics
    query builder (Monitor.py), embedded and verified.

    Python objects live in an arena: a [heap] is a list of [Node]s and a
    reference is an index into it, so that the in-place mutation of
    [visited], [span_parent], [distance] and [children] is visible through
    every alias, as it is in the source.  Python integers are [Z]. *)

From stdpp Require Import base option list strings pretty gmap sorting.
From Stdlib Require Import ZArith Lia.

Local Open Scope Z_scope.

(** ** Python exceptions raised by the modelled code *)

Inductive exn :=
| TypeError (msg : string)
| ValueError (msg : string)
| RuntimeError (msg : string)
| IndexError (msg : string)
| KeyError (key : Z)
| OverflowError (msg : string).

Inductive result (A : Type) :=
| Ok (a : A)
| Raise (e : exn).
Arguments Ok {A} a.
Arguments Raise {A} e.

(** Python's truth-value protocol ([__bool__]/[__len__]), as used by
    [if x], [not x], [x or y] and [x and y]. *)
Class Truthy (A : Type) := truthy : A → bool.

#[export] Instance truthy_bool : Truthy bool := λ b, b.
#[export] Instance truthy_int : Truthy Z := λ z, negb (z =? 0).
(** [None] is falsy; any other value answers for itself. *)
#[export] Instance truthy_optional {A} `{Truthy A} : Truthy (option A) :=
  λ o, match o with Some a => truthy a | None => false end.

(** * Tree.py *)

Module Tree.
Section Tree.

Context {V : Type}.

(** Object identity of a [Node]: its index in the arena. *)
Abbreviation ref := nat (only parsing).

Record Node := mkNode {
  parents : list ref;
  value : V;
  children : list ref;
  id : Z;
  visited : bool;
  span_parent : option ref;
  distance : Z
}.

Local Abbreviation heap := (list Node) (only parsing).

Definition set_visited (b : bool) (n : Node) : Node :=
  mkNode (parents n) (value n) (children n) (id n) b (span_parent n) (distance n).

Definition set_children (cs : list ref) (n : Node) : Node :=
  mkNode (parents n) (value n) cs (id n) (visited n) (span_parent n) (distance n).

(** The three assignments of [_bfs] to a newly discovered child. *)
Definition discover (u : ref) (d : Z) (n : Node) : Node :=
  mkNode (parents n) (value n) (children n) (id n) true (Some u) (d + 1).

(** The class attribute [Node.global_id] travels with the arena. *)
Record State := mkState { objs : heap; global_id : Z }.

(** [Node.__init__]: the new object takes the current [global_id], which is
    then incremented. *)
Definition Node_init (ps : list ref) (v : V) (cs : list ref) (s : State) : ref * State :=
  (length (objs s),
   mkState (objs s ++ [mkNode ps v cs (global_id s) false None 0]) (global_id s + 1)).

Definition is_root (n : Node) : bool := bool_decide (length (parents n) = 0%nat).
Definition is_leaf (n : Node) : bool := bool_decide (length (children n) = 0%nat).

Definition reset_id (s : State) : State := mkState (objs s) 1.

(** ** [DCTree._bfs], a generator

    A generator is suspended either before its first statement or at its
    [yield]; [bfs_next] runs it to the next [yield] or to its end.  The
    queue is a FIFO: [put] appends, [get] takes the head.  A result of
    [None] means that a reference outside the arena was followed, which no
    Python run can do. *)

Inductive gen :=
| GStart (root_ : ref)
| GYield (u : ref) (q : list ref)
| GDone.

(** [for c in u.children: if not c.visited: ...; q.put(c)] *)
Fixpoint bfs_children (u : ref) (cs : list ref) (h : heap) (q : list ref)
  : option (heap * list ref) :=
  match cs with
  | [] => Some (h, q)
  | c :: cs' =>
      nc ← h !! c;
      if visited nc then bfs_children u cs' h q
      else
        nu ← h !! u;
        bfs_children u cs' (<[c := discover u (distance nu) nc]> h) (q ++ [c])
  end.

(** [while not q.empty(): u = q.get(); yield u] *)
Definition bfs_while (q : list ref) : option ref * gen :=
  match q with
  | [] => (None, GDone)
  | u :: q' => (Some u, GYield u q')
  end.

Definition bfs_next (g : gen) (h : heap) : option (option ref * gen * heap) :=
  match g with
  | GStart r =>
      n ← h !! r;
      Some (bfs_while [r], <[r := set_visited true n]> h)
  | GYield u q =>
      n ← h !! u;
      '(h', q') ← bfs_children u (children n) h q;
      Some (bfs_while q', h')
  | GDone => Some (None, GDone, h)
  end.

Definition _bfs (root_ : ref) : gen := GStart root_.

(** ** [DCTree] *)

Record DCTree := mkDCTree { root : ref; nodes : list ref; leaf : list ref }.

(** [for n in self.nodes: n.visited = False] *)
Fixpoint reset_visited (ns : list ref) (h : heap) : option heap :=
  match ns with
  | [] => Some h
  | n :: ns' =>
      nd ← h !! n;
      reset_visited ns' (<[n := set_visited false nd]> h)
  end.

(** The body of the [for n in self._bfs(root_)] loop. *)
Definition update_body (n : ref) (nd : Node) (t : DCTree) : DCTree :=
  mkDCTree (root t) (nodes t ++ [n])
           (if is_leaf nd then leaf t ++ [n] else leaf t).

(** The [for] loop drives the generator until it is exhausted; [fuel]
    bounds the number of [next] calls. *)
Fixpoint for_bfs (fuel : nat) (g : gen) (h : heap) (t : DCTree)
  : option (DCTree * heap) :=
  match fuel with
  | O => None
  | S fuel' =>
      '(y, g', h') ← bfs_next g h;
      match y with
      | None => Some (t, h')
      | Some n =>
          nd ← h' !! n;
          for_bfs fuel' g' h' (update_body n nd t)
      end
  end.

(** Every [next] but the last yields a node that was not visited when the
    traversal started or is the start itself, so [length h + 2] calls
    always suffice. *)
Definition bfs_fuel (h : heap) : nat := length h + 2.

Definition update_struct (t : DCTree) (root_ : option ref) (h : heap)
  : option (DCTree * heap) :=
  let r := match root_ with None => root t | Some r => r end in
  h1 ← reset_visited (nodes t) h;
  for_bfs (bfs_fuel h1) (_bfs r) h1 t.

(** [DCTree.__init__].  [isinstance(root_, Node)] holds by typing. *)
Definition DCTree_init (root_ : ref) (h : heap) : option (result DCTree * heap) :=
  n ← h !! root_;
  if negb (is_root n) then Some (Raise (ValueError "Not root"), h)
  else
    '(t, h') ← update_struct (mkDCTree root_ [] []) None h;
    Some (Ok t, h').

(** [DCTree.search]: the first node of [self.nodes] with the given id, or
    Python's [None]. *)
Fixpoint search_in (ns : list ref) (id_ : Z) (h : heap) : option (option ref) :=
  match ns with
  | [] => Some None
  | n :: ns' =>
      nd ← h !! n;
      if bool_decide (id nd = id_) then Some (Some n) else search_in ns' id_ h
  end.

Definition search (t : DCTree) (id_ : Z) (h : heap) : option (option ref) :=
  search_in (nodes t) id_ h.

(** ** The graph in the arena

    The vocabulary in which the traversal is specified: child edges,
    reachability along them, and the [visited] flags. *)

Definition adj (h : heap) : list (list ref) := children <$> h.

Definition flags (h : heap) : list bool := visited <$> h.

(** Every child reference points into the arena. *)
Definition closed (h : heap) : Prop :=
  Forall (Forall (λ c, (c < length h)%nat)) (adj h).

Definition edge (h : heap) (u c : ref) : Prop :=
  ∃ cs, adj h !! u = Some cs ∧ c ∈ cs.

Definition reachable (h : heap) : ref → ref → Prop := rtc (edge h).

Definition is_visited (h : heap) (n : ref) : Prop := flags h !! n = Some true.

Definition unvisited_count (h : heap) : nat :=
  length (filter (λ b, b = false) (flags h)).

Definition is_leaf_at (h : heap) (n : ref) : bool :=
  bool_decide (adj h !! n = Some []).

(** The tree after the loop body of [update_struct] has run for each node
    of [out]. *)
Definition extended (h : heap) (t : DCTree) (out : list ref) : DCTree :=
  mkDCTree (root t) (nodes t ++ out) (leaf t ++ filter (λ n, is_leaf_at h n) out).

(** [first_parent h out p c]: among the nodes of [out], in order, [p] is
    the first that has [c] as a child. *)
Definition first_parent (h : heap) (out : list ref) (p c : ref) : Prop :=
  ∃ before after, out = before ++ p :: after ∧ edge h p c ∧
                  ∀ p', p' ∈ before → ¬ edge h p' c.

(** What the traversal has recorded for a discovered node [c]: its
    spanning-tree parent is the first node of [out] with [c] as a child,
    and its distance is one more than that parent's. *)
Definition span_ok (h0 h : heap) (out : list ref) (c : ref) : Prop :=
  ∃ p nc np, h !! c = Some nc ∧ h !! p = Some np ∧
    span_parent nc = Some p ∧ distance nc = distance np + 1 ∧
    first_parent h0 out p c.

(** The invariant of a traversal from [s] that started in the arena [h0]:
    the children of the nodes [done] have all been looked at, and the nodes
    [pending] are discovered and wait for their turn (the node being
    yielded, then the queue). *)
Record bfs_inv (h0 : heap) (s : ref) (h : heap) (done pending : list ref)
    : Prop := mk_bfs_inv {
  inv_adj : adj h = adj h0;
  inv_nodup : NoDup (done ++ pending);
  inv_head : ∃ rest, done ++ pending = s :: rest;
  inv_reach : ∀ n, n ∈ done ++ pending → reachable h0 s n;
  inv_visited : ∀ n, reachable h0 s n → (is_visited h n ↔ n ∈ done ++ pending);
  inv_done : ∀ p c, p ∈ done → edge h0 p c → c ∈ done ++ pending;
  inv_span : ∀ c, c ∈ done ++ pending → c ≠ s → span_ok h0 h done c
}.

(** What holds of the yielded nodes [out] and the arena [h] at the end of a
    traversal from [s] that started in the arena [h0]. *)
Record bfs_post (h0 : heap) (s : ref) (h : heap) (out : list ref) : Prop := mk_bfs_post {
  post_adj : adj h = adj h0;
  post_nodup : NoDup out;
  post_head : ∃ rest, out = s :: rest;
  post_reach : ∀ n, n ∈ out ↔ reachable h0 s n;
  post_visited : ∀ n, n ∈ out → is_visited h n;
  post_span : ∀ c, c ∈ out → c ≠ s → span_ok h0 h out c
}.

(** The fields of a node that no traversal writes to. *)
Definition frozen (nd : Node) : list ref * V * list ref * Z :=
  (parents nd, value nd, children nd, id nd).

Definition skeleton (h : heap) : list (list ref * V * list ref * Z) := frozen <$> h.

(** The node at [c] has parents [ps], value [v] and children [cs]. *)
Definition node_at (h : heap) (c : ref) (ps : list ref) (v : V) (cs : list ref) : Prop :=
  ∃ i, skeleton h !! c = Some (ps, v, cs, i).

(** A run of the generator from its [yield] of [u] with queue [q] to its
    end: the nodes it yields after [u], and the arena it leaves. *)
Inductive bfs_run : heap → ref → list ref → list ref → heap → Prop :=
| bfs_run_done h u nu q h' :
    h !! u = Some nu →
    bfs_children u (children nu) h q = Some (h', []) →
    bfs_run h u q [] h'
| bfs_run_yield h u nu q h1 u' q' out h' :
    h !! u = Some nu →
    bfs_children u (children nu) h q = Some (h1, u' :: q') →
    bfs_run h1 u' q' out h' →
    bfs_run h u q (u' :: out) h'.

End Tree.
Arguments Node : clear implicits.
Arguments State : clear implicits.
Abbreviation ref := nat (only parsing).
Abbreviation heap V := (list (Node V)) (only parsing).
End Tree.


(** * Monitor.py *)

Module Monitor.
Import Tree.

(** ** The vim managed objects the code reads

    Only the attributes the modelled functions read are kept. *)

Record VirtualMachine := mkVirtualMachine { vm_name : string }.

Record HostSystem := mkHostSystem { host_name : string; vm : list VirtualMachine }.

Record ComputeResource := mkComputeResource { cr_name : string; host : list HostSystem }.

(** What [isinstance(h_cr, vim.HostSystem)] tells apart. *)
Inductive HostOrCR :=
| IsHost (h : HostSystem)
| IsCR (c : ComputeResource).

(** An object with a [childEntity] attribute is a folder. *)
#[warnings="-register-all"] Inductive FolderOrObject :=
| Folder (childEntity : list FolderOrObject)
| Object (o : HostOrCR).

Record Datacenter := mkDatacenter { dc_name : string; hostFolder : FolderOrObject }.

Inductive ManagedObject :=
| ODatacenter (dc : Datacenter)
| OHost (h : HostSystem)
| OComputeResource (c : ComputeResource)
| OVirtualMachine (v : VirtualMachine).

Definition to_object (o : HostOrCR) : ManagedObject :=
  match o with IsHost h => OHost h | IsCR c => OComputeResource c end.

Definition name (o : ManagedObject) : string :=
  match o with
  | ODatacenter dc => dc_name dc
  | OHost h => host_name h
  | OComputeResource c => cr_name c
  | OVirtualMachine v => vm_name v
  end.

(** ** [get_child_objects]: [results] is one list, shared by the whole
    recursion and appended to in place. *)
Fixpoint get_child_objects (folder_or_object : FolderOrObject) (results : list HostOrCR)
  : list HostOrCR :=
  match folder_or_object with
  | Folder childEntity =>
      foldl (λ results c, get_child_objects c results) results childEntity
  | Object o => results ++ [o]
  end.

(** ** A state monad over the arena, for code that builds nodes *)

Definition M (A : Type) : Type :=
  State ManagedObject → option (A * State ManagedObject).

Definition ret {A} (a : A) : M A := λ s, Some (a, s).

Definition bind {A B} (m : M A) (k : A → M B) : M B :=
  λ s, match m s with Some (a, s') => k a s' | None => None end.

#[export] Instance M_ret : MRet M := @ret.
#[export] Instance M_bind : MBind M := λ A B k m, bind m k.

(** Code of Tree.py works on the arena and leaves [Node.global_id] alone. *)
Definition on_heap {A} (f : heap ManagedObject → option (A * heap ManagedObject)) : M A :=
  λ s, '(a, h) ← f (objs s); Some (a, mkState h (global_id s)).

(** [Node(ps, v, cs)] *)
Definition new_node (ps : list ref) (v : ManagedObject) (cs : list ref) : M ref :=
  λ s, Some (Node_init ps v cs s).

(** [p.children.append(c)] *)
Definition append_child (p c : ref) : M unit :=
  λ s, n ← objs s !! p;
       Some (tt, mkState (<[p := set_children (children n ++ [c]) n]> (objs s)) (global_id s)).

Fixpoint for_each {A} (l : list A) (body : A → M unit) : M unit :=
  match l with
  | [] => ret tt
  | a :: l' => body a;; for_each l' body
  end.

(** [for vm in h.vm: host_child = Node([p], vm, []); p.children.append(host_child)] *)
Definition attach_vms (p : ref) (h : HostSystem) : M unit :=
  for_each (vm h) (λ v,
    host_child ← new_node [p] (OVirtualMachine v) [] ;
    append_child p host_child).

Definition _build_dc_tree (dc : Datacenter) : M (result DCTree) :=
  root ← new_node [] (ODatacenter dc) [];
  let host_folder_list := get_child_objects (hostFolder dc) [] in
  (for_each host_folder_list (λ h_cr,
     root_child ← new_node [root] (to_object h_cr) [] ;
     append_child root root_child;;
     match h_cr with
     | IsHost h => attach_vms root_child h
     | IsCR c =>
         for_each (host c) (λ h,
           cr_child ← new_node [root_child] (OHost h) [] ;
           append_child root_child cr_child;;
           attach_vms cr_child h)
     end));;
  on_heap (DCTree_init root).

(** ** Performance manager *)

Record datetime := mkDatetime { epoch : Z }.
(** A [datetime] is always true. *)
#[export] Instance truthy_datetime : Truthy datetime := λ _, true.

Record PerfCounterInfo := mkPerfCounterInfo {
  key : Z;
  nameInfo_label : string;
  nameInfo_summary : string;
  unitInfo_label : string;
  rollupType : string
}.

Record PerfInterval := mkPerfInterval { enabled : bool; samplingPeriod : Z }.

Record PerfProviderSummary := mkPerfProviderSummary {
  currentSupported : bool;
  summarySupported : bool;
  refreshRate : Z
}.

Record MetricId := mkMetricId { counterId : Z; instance : string }.

Record QuerySpec := mkQuerySpec {
  entity : ManagedObject;
  metricId : list MetricId;
  intervalId : option Z;
  startTime : option datetime;
  endTime : option datetime;
  maxSample : option Z;
  format : string
}.

Record PerfSampleInfo := mkPerfSampleInfo { timestamp : datetime }.

Record PerfMetricSeries := mkPerfMetricSeries { series_id : MetricId; series_value : list Z }.

Record EntityMetric := mkEntityMetric {
  sampleInfo : list PerfSampleInfo;
  value : list PerfMetricSeries
}.

(** The server side, which the repository calls and does not implement. *)
Record PerformanceManager := mkPerformanceManager {
  perfCounter : list PerfCounterInfo;
  historicalInterval : list PerfInterval;
  QueryPerfProviderSummary : ManagedObject → PerfProviderSummary;
  QueryPerf : list QuerySpec → list EntityMetric
}.

(** The attributes of a [Monitor] that the modelled methods use. *)
Record Monitor := mkMonitor {
  vm_view : list VirtualMachine;
  perf_manager : PerformanceManager;
  all_counters : gmap Z PerfCounterInfo;
  historical_intervals : list Z;
  current_supported : option bool;
  summary_supported : option bool;
  refresh_rate : Z
}.

(** [Monitor.__init__] leaves the provider information unset. *)
Definition Monitor_init (vms : list VirtualMachine) (pm : PerformanceManager) : Monitor :=
  mkMonitor vms pm ∅ [] None None (-1).

(** A dict comprehension keeps the last value of a repeated key. *)
Definition manage_perf (self : Monitor) : Monitor :=
  mkMonitor (vm_view self) (perf_manager self)
    (foldl (λ m perf, <[key perf := perf]> m) ∅ (perfCounter (perf_manager self)))
    (historical_intervals self ++
       (samplingPeriod <$> filter (λ i, enabled i = true) (historicalInterval (perf_manager self))))
    (current_supported self) (summary_supported self) (refresh_rate self).

(** [self.vm_view[0]] raises on an empty view. *)
Definition query_provider (self : Monitor) : result Monitor :=
  match vm_view self with
  | [] => Raise (IndexError "list index out of range")
  | v :: _ =>
      let provider := QueryPerfProviderSummary (perf_manager self) (OVirtualMachine v) in
      Ok (mkMonitor (vm_view self) (perf_manager self) (all_counters self)
            (historical_intervals self)
            (Some (currentSupported provider)) (Some (summarySupported provider))
            (refreshRate provider))
  end.

(** ** [_build_query] *)

Inductive warning := RuntimeWarning (msg : string).

(** [str(interval)] *)
Definition str (interval : option Z) : string :=
  match interval with Some i => pretty i | None => "None" end.

(** [', '.join(l)] *)
Fixpoint join (sep : string) (l : list string) : string :=
  match l with
  | [] => ""
  | [x] => x
  | x :: l' => x +:+ sep +:+ join sep l'
  end.

Definition invalid_interval (interval : option Z) (his : list Z) : exn :=
  ValueError ("Invalid value '" +:+ str interval +:+
              "' for parameter 'interval', available ones are " +:+
              join ", " (pretty <$> his)).

(** The spec's [MissingTimeBoundsError], [InvalidFormatError] and
    [StatsUnavailableError]; [invalid_interval] is its [InvalidIntervalError]. *)
Definition missing_time_bounds : exn :=
  TypeError "A time range or sample limit should be specified".
Definition invalid_format : exn :=
  ValueError "Invalid format, can either be 'normal' or 'csv'".
Definition stats_unavailable : exn :=
  RuntimeError "Statistics unavailable for this entity!".

(** [interval in self.historical_intervals]; [None] equals no integer. *)
Definition is_in (interval : option Z) (his : list Z) : bool :=
  match interval with Some i => bool_decide (i ∈ his) | None => false end.

(** The [if]/[elif]/[else] on the provider information: the value of
    [interval] after it, or the exception raised in it. *)
Definition resolve_interval (self : Monitor) (interval : option Z) : result (option Z) :=
  if truthy (current_supported self) then
    match interval with
    | None => Ok (Some (refresh_rate self))
    | Some i =>
        if bool_decide (i ≠ refresh_rate self) && negb (is_in interval (historical_intervals self))
        then Raise (invalid_interval interval (historical_intervals self))
        else Ok interval
    end
  else if truthy (summary_supported self) then
    if negb (is_in interval (historical_intervals self))
    then Raise (invalid_interval interval (historical_intervals self))
    else Ok interval
  else Raise stats_unavailable.

Definition max_samples_ignored : warning :=
  RuntimeWarning ("max_samples will not apply because interval specified is not real-time, use a time range " +:+ "instead").

(** The call returns a query or raises, and in either case has issued the
    listed warnings. *)
Definition _build_query (self : Monitor) (entity : ManagedObject)
    (counter_ids : option (list Z)) (instances : option (list string))
    (interval : option Z) (start end_ : option datetime)
    (max_samples : option Z) (fmt : string) : result QuerySpec * list warning :=
  if negb (truthy max_samples || truthy start) then
    (Raise missing_time_bounds, [])
  else if negb (bool_decide (fmt ∈ ["csv"; "normal"])) then
    (Raise invalid_format, [])
  else
    match resolve_interval self interval with
    | Raise e => (Raise e, [])
    | Ok interval =>
        let warned :=
          if is_in interval (historical_intervals self) && truthy max_samples
          then [max_samples_ignored] else [] in
        let counter_ids := default [] counter_ids in
        let instances := default ["*"] instances in
        (Ok (mkQuerySpec entity
               (c ← counter_ids; i ← instances; [mkMetricId c i])
               interval start end_ max_samples fmt),
         warned)
    end.

Definition realtime_stats (self : Monitor) (entity : ManagedObject)
    (counter_ids : option (list Z)) (instances : option (list string))
  : result (list EntityMetric) * list warning :=
  match _build_query self entity counter_ids instances None None None (Some 1) "normal" with
  | (Raise e, w) => (Raise e, w)
  | (Ok query, w) => (Ok (QueryPerf (perf_manager self) [query]), w)
  end.

(** ** [latest_stats_by_specs]

    A pandas [DataFrame] is its rows, each under its index label.  A cell
    that was never assigned ([NaN]) is [None]. *)

Record Row := mkRow {
  col_key : Z;
  col_instance : string;
  col_timestamp : datetime;
  col_value : Z;
  col_unit : string;
  col_name : option string
}.

Definition DataFrame := list (nat * Row).

(** [data.append(new_row, ignore_index=True)]: the rows of both frames,
    relabelled 0, 1, ... *)
Definition append (data new_row : DataFrame) : DataFrame :=
  imap (λ i r, (i, r)) (data.*2 ++ new_row.*2).

Definition by_key (a b : nat * Row) : Prop := col_key a.2 ≤ col_key b.2.

#[export] Instance by_key_dec a b : Decision (by_key a b) := Z_le_dec _ _.

(** [data.sort_values(by='key')]: rows in ascending order of [key], each
    keeping its label.  pandas does not fix the order of rows with equal
    keys; a merge sort stands for its choice. *)
Definition sort_values (data : DataFrame) : DataFrame := merge_sort by_key data.

(** [data.reset_index(drop=True)] *)
Definition reset_index (data : DataFrame) : DataFrame :=
  imap (λ i r, (i, r)) data.*2.

(** [data['name'] = n] *)
Definition set_name (n : string) (data : DataFrame) : DataFrame :=
  (λ ir, (ir.1, mkRow (col_key ir.2) (col_instance ir.2) (col_timestamp ir.2)
                      (col_value ir.2) (col_unit ir.2) (Some n))) <$> data.

(** A [for] loop whose body may raise. *)
Fixpoint for_in {A D} (l : list A) (body : A → D → result D) (data : D) : result D :=
  match l with
  | [] => Ok data
  | a :: l' =>
      match body a data with
      | Ok data' => for_in l' body data'
      | Raise e => Raise e
      end
  end.

Definition index_error : exn := IndexError "list index out of range".

(** The body of [for i in range(len(sample_info))]; the dict display
    evaluates [sample_info[i]], then [self.all_counters[key]], then
    [val[i]]. *)
Definition sample_body (self : Monitor) (sample_info : list PerfSampleInfo)
    (v : PerfMetricSeries) (i : nat) (data : DataFrame) : result DataFrame :=
  match sample_info !! i with
  | None => Raise index_error
  | Some si =>
      match all_counters self !! counterId (series_id v) with
      | None => Raise (KeyError (counterId (series_id v)))
      | Some c =>
          match series_value v !! i with
          | None => Raise index_error
          | Some x =>
              let new_row :=
                [(0%nat, mkRow (counterId (series_id v)) (instance (series_id v))
                               (timestamp si) x (unitInfo_label c) None)] in
              Ok (append data new_row)
          end
      end
  end.

(** The part of [latest_stats_by_specs] after the provider has answered. *)
Definition reshape (self : Monitor) (entity : ManagedObject)
    (results : list EntityMetric) : result DataFrame :=
  match
    for_in results (λ r,
      for_in (value r) (λ v,
        for_in (seq 0 (length (sampleInfo r))) (sample_body self (sampleInfo r) v))) []
  with
  | Raise e => Raise e
  | Ok data => Ok (set_name (name entity) (reset_index (sort_values data)))
  end.

Definition latest_stats_by_specs (self : Monitor) (entity : ManagedObject)
    (counter_ids : option (list Z)) (instances : option (list string))
  : result DataFrame * list warning :=
  match realtime_stats self entity counter_ids instances with
  | (Raise e, w) => (Raise e, w)
  | (Ok results, w) => (reshape self entity results, w)
  end.

(** ** The rows a provider result stands for

    Used to state what [latest_stats_by_specs] returns. *)

(** The row for sample [si] and value [x] of series [v]. *)
Definition row_of (v : PerfMetricSeries) (unit : string) (n : option string)
    (si : PerfSampleInfo) (x : Z) : Row :=
  mkRow (counterId (series_id v)) (instance (series_id v)) (timestamp si) x unit n.

(** The rows of one provider result, series by series, each series paired
    with the sample timestamps. *)
Definition expected_rows (self : Monitor) (n : option string) (r : EntityMetric) : list Row :=
  v ← value r;
  zip_with (row_of v (default "" (unitInfo_label <$> all_counters self !! counterId (series_id v))) n)
           (sampleInfo r) (series_value v).

Definition name_row (n : string) (row : Row) : Row :=
  mkRow (col_key row) (col_instance row) (col_timestamp row) (col_value row)
        (col_unit row) (Some n).

(** ** The containment the builder is to wire

    A child is always a later object than its parent. *)

Definition vm_node (h : heap ManagedObject) (p c : ref) (v : VirtualMachine) : Prop :=
  (p < c)%nat ∧ node_at h c [p] (OVirtualMachine v) [].

Definition host_node (h : heap ManagedObject) (p c : ref) (hs : HostSystem) : Prop :=
  (p < c)%nat ∧
  ∃ cs, node_at h c [p] (OHost hs) cs ∧ Forall2 (vm_node h c) cs (vm hs).

Definition cr_node (h : heap ManagedObject) (p c : ref) (cr : ComputeResource) : Prop :=
  (p < c)%nat ∧
  ∃ cs, node_at h c [p] (OComputeResource cr) cs ∧ Forall2 (host_node h c) cs (host cr).

Definition child_node (h : heap ManagedObject) (p c : ref) (o : HostOrCR) : Prop :=
  match o with
  | IsHost hs => host_node h p c hs
  | IsCR cr => cr_node h p c cr
  end.

Definition dc_node (h : heap ManagedObject) (r : ref) (dc : Datacenter) : Prop :=
  ∃ cs, node_at h r [] (ODatacenter dc) cs ∧
        Forall2 (child_node h r) cs (get_child_objects (hostFolder dc) []).

(** [grows p cs s s']: from [s] to [s'] objects were created, among them
    [cs], which were appended to the children of [p]; no other object of
    [s] was written to. *)
Definition grows (p : ref) (cs : list ref) (s s' : State ManagedObject) : Prop :=
  ∃ np, objs s !! p = Some np ∧
    objs s' !! p = Some (set_children (children np ++ cs) np) ∧
    (∀ m nd, m ≠ p → objs s !! m = Some nd → objs s' !! m = Some nd) ∧
    (length (objs s) ≤ length (objs s'))%nat ∧
    Forall (λ c, (length (objs s) ≤ c < length (objs s'))%nat) cs ∧
    (closed (objs s) → closed (objs s')).
(** The wiring below a node is untouched by writes to earlier objects. *)
Definition agrees_above (p : ref) (h h' : heap ManagedObject) : Prop :=
  ∀ m, (p < m)%nat → is_Some (h !! m) → skeleton h' !! m = skeleton h !! m.

End Monitor.

(** * Concrete inputs, used to run the definitions *)

Module Samples.
Import Tree Monitor.

Definition vm_a : VirtualMachine := mkVirtualMachine "vm-a".
Definition vm_b : VirtualMachine := mkVirtualMachine "vm-b".

(** One cluster of two hosts with one virtual machine each, and one bare
    host without virtual machines, the latter inside a sub-folder. *)
Definition cluster : ComputeResource :=
  mkComputeResource "cluster"
    [mkHostSystem "host-1" [vm_a]; mkHostSystem "host-2" [vm_b]].
Definition bare_host : HostSystem := mkHostSystem "host-3" [].
Definition datacenter : Datacenter :=
  mkDatacenter "dc"
    (Folder [Object (IsCR cluster); Folder [Object (IsHost bare_host)]]).

(** A provider with real-time statistics every 20 seconds and vCenter's
    default historical intervals; it answers a query with two samples of
    counters 6 and 2 for instances "a" and "b". *)
Definition sample2 : list PerfSampleInfo :=
  [mkPerfSampleInfo (mkDatetime 100); mkPerfSampleInfo (mkDatetime 120)].
Definition answer : list EntityMetric :=
  [mkEntityMetric sample2
     [mkPerfMetricSeries (mkMetricId 6 "a") [11; 12];
      mkPerfMetricSeries (mkMetricId 6 "b") [21; 22];
      mkPerfMetricSeries (mkMetricId 2 "a") [31; 32];
      mkPerfMetricSeries (mkMetricId 2 "b") [41; 42]]].
Definition intervals : list PerfInterval :=
  [mkPerfInterval true 300; mkPerfInterval true 1800;
   mkPerfInterval true 7200; mkPerfInterval true 86400].
Definition counters : list PerfCounterInfo :=
  [mkPerfCounterInfo 2 "Usage" "CPU usage" "%" "average";
   mkPerfCounterInfo 6 "Used" "CPU used" "ms" "summation"].
Definition provider (current summary : bool) (rate : Z) : PerformanceManager :=
  mkPerformanceManager counters intervals
    (λ _, mkPerfProviderSummary current summary rate) (λ _, answer).

(** The monitor after [manage_perf] and [query_provider]. *)
Definition started (current summary : bool) (rate : Z) : Monitor :=
  match query_provider (manage_perf (Monitor_init [vm_a; vm_b] (provider current summary rate))) with
  | Ok self => self
  | Raise _ => Monitor_init [] (provider current summary rate)
  end.
Definition realtime_monitor : Monitor := started true true 20.

(** Two parents, 1 and 2, of one child, 3. *)
Definition fresh (cs : list ref) : Node string := mkNode [] "n" cs 0 false None 0.
Definition diamond : heap string := [fresh [1; 2]%nat; fresh [3%nat]; fresh [3%nat]; fresh []].

End Samples.

(** * More of Monitor.py: the other statistics queries *)

Module Stats.
Import Tree Monitor.

(** ** Date arithmetic

    [epoch] counts the seconds of the date and time fields of a [datetime]
    from 1970-01-01 00:00:00; the fields range from [datetime.min],
    0001-01-01 00:00:00, to [datetime.max], the last second of the year
    9999.  Fractions of a second play no part when whole seconds are
    subtracted. *)
Definition datetime_min : Z := -62135596800.
Definition datetime_max : Z := 253402300799.

(** [timedelta(seconds=s)] for an integer [s], as CPython builds it: the
    whole days of [s] must fit a C [int], and their magnitude must not
    exceed 999999999. *)
Definition timedelta (s : Z) : result Z :=
  let days := s `div` 86400 in
  if negb (bool_decide (- 2 ^ 31 ≤ days < 2 ^ 31)) then
    Raise (OverflowError "Python int too large to convert to C int")
  else if negb (bool_decide (- 999999999 ≤ days ≤ 999999999)) then
    Raise (OverflowError ("days=" +:+ pretty days +:+ "; must have magnitude <= 999999999"))
  else Ok s.

(** [t - d] for a [timedelta] of [d] seconds: the result must be a date
    of the years 1 to 9999. *)
Definition datetime_sub (t : datetime) (d : Z) : result datetime :=
  let r := epoch t - d in
  if negb (bool_decide (datetime_min ≤ r ≤ datetime_max)) then
    Raise (OverflowError "date value out of range")
  else Ok (mkDatetime r).

(** The default values of [interval] and [delay]. *)
Definition default_interval : Z := 7200.
Definition default_delay : Z := 4 * 3600.

(** [historical_stats]: [now_start] and [now_end] are what the two calls of
    [self.service_instance.CurrentTime()] return, in this order.  The
    second call is not reached when the date arithmetic raises. *)
Definition historical_stats (self : Monitor) (now_start now_end : datetime)
    (entity : ManagedObject) (counter_ids : option (list Z))
    (instances : option (list string)) (interval delay : Z)
  : result (list EntityMetric) * list warning :=
  match timedelta (interval + delay) with
  | Raise e => (Raise e, [])
  | Ok d =>
      match datetime_sub now_start d with
      | Raise e => (Raise e, [])
      | Ok start_time =>
          let end_time := now_end in
          match _build_query self entity counter_ids instances (Some interval)
                             (Some start_time) (Some end_time) None "normal" with
          | (Raise e, w) => (Raise e, w)
          | (Ok query, w) => (Ok (QueryPerf (perf_manager self) [query]), w)
          end
      end
  end.

(** [_get_available_counters]: [available] is the server's
    [QueryAvailablePerfMetric] for this performance manager. *)
Definition _get_available_counters (available : ManagedObject → list MetricId)
    (entity : ManagedObject) : list Z :=
  counterId <$> available entity.

Definition latest_stats_all (available : ManagedObject → list MetricId)
    (self : Monitor) (entity : ManagedObject) : result DataFrame * list warning :=
  let counter_ids := _get_available_counters available entity in
  latest_stats_by_specs self entity (Some counter_ids) (Some ["*"]).

End Stats.

(** * Conditions under which results can be reshaped *)

Module Reshapable.
Import Tree Monitor.

(** Series [v] of result [r] can be turned into rows: there is no sample,
    or its counter is in the catalog and it has a value for every sample. *)
Definition reshapable (self : Monitor) (r : EntityMetric) (v : PerfMetricSeries) : Prop :=
  sampleInfo r = [] ∨
  (is_Some (all_counters self !! counterId (series_id v)) ∧
   (length (sampleInfo r) ≤ length (series_value v))%nat).

(** The three nested loops of [latest_stats_by_specs]. *)
Definition collect (self : Monitor) (results : list EntityMetric) (data : DataFrame)
  : result DataFrame :=
  for_in results (λ r,
    for_in (value r) (λ v,
      for_in (seq 0 (length (sampleInfo r))) (sample_body self (sampleInfo r) v))) data.

End Reshapable.

(** * The objects below a folder *)

Module Folders.
Import Tree Monitor.

(** The hosts and compute resources below a folder or object, left to
    right, at any depth. *)
Fixpoint objects_of (fo : FolderOrObject) : list HostOrCR :=
  match fo with
  | Folder childEntity => mjoin (objects_of <$> childEntity)
  | Object o => [o]
  end.

End Folders.

(** * More of Tree.py: the depth-first generator *)

Module Dfs.
Section Dfs.
Import Tree.
Context {V : Type}.

(** The two assignments of [_dfs] to a newly discovered child; the distance
    is left as it is. *)
Definition found (u : ref) (n : Node V) : Node V :=
  mkNode (parents n) (value n) (children n) (id n) true (Some u) (distance n).

(** [for c in u.children: if not c.visited: ...; s.put(c)].  The stack is a
    LIFO: [put] pushes on the head of the list and [get] pops it. *)
Fixpoint dfs_children (u : ref) (cs : list ref) (h : heap V) (s : list ref)
  : option (heap V * list ref) :=
  match cs with
  | [] => Some (h, s)
  | c :: cs' =>
      nc ← h !! c;
      if visited nc then dfs_children u cs' h s
      else dfs_children u cs' (<[c := found u nc]> h) (c :: s)
  end.

(** The generator [_dfs], suspended as [_bfs] is: [GYield u s] is the
    [yield] of [u] with the stack [s]. *)
Definition dfs_next (g : gen) (h : heap V) : option (option ref * gen * heap V) :=
  match g with
  | GStart r =>
      n ← h !! r;
      Some (bfs_while [r], <[r := set_visited true n]> h)
  | GYield u s =>
      n ← h !! u;
      '(h', s') ← dfs_children u (children n) h s;
      Some (bfs_while s', h')
  | GDone => Some (None, GDone, h)
  end.

Definition _dfs (root_ : ref) : gen := GStart root_.

(** [list(g)]: the generator run to its end, at most [fuel] calls of
    [next]; the nodes it yields and the arena it leaves. *)
Fixpoint dfs_list (fuel : nat) (g : gen) (h : heap V) : option (list ref * heap V) :=
  match fuel with
  | O => None
  | S fuel' =>
      '(y, g', h') ← dfs_next g h;
      match y with
      | None => Some ([], h')
      | Some n => '(out, h'') ← dfs_list fuel' g' h'; Some (n :: out, h'')
      end
  end.

(** A run of the generator from its [yield] of [u] with stack [s] to its
    end: the nodes it yields after [u], and the arena it leaves. *)
Inductive dfs_run : heap V → ref → list ref → list ref → heap V → Prop :=
| dfs_run_done h u nu s h' :
    h !! u = Some nu →
    dfs_children u (children nu) h s = Some (h', []) →
    dfs_run h u s [] h'
| dfs_run_yield h u nu s h1 u' s' out h' :
    h !! u = Some nu →
    dfs_children u (children nu) h s = Some (h1, u' :: s') →
    dfs_run h1 u' s' out h' →
    dfs_run h u s (u' :: out) h'.

(** [p] occurs in [l] before any occurrence of [c]. *)
Definition earlier_in (l : list ref) (p c : ref) : Prop :=
  ∃ l1 l2, l = l1 ++ l2 ∧ p ∈ l1 ∧ c ∉ l1.

(** What the traversal has recorded for a discovered node [c]: its
    spanning-tree parent has [c] as a child and comes before [c] in [out]. *)
Definition dfs_span_ok (h0 h : heap V) (out : list ref) (c : ref) : Prop :=
  ∃ p nc, h !! c = Some nc ∧ span_parent nc = Some p ∧ edge h0 p c ∧ earlier_in out p c.

(** The invariant of a depth-first traversal from [s] that started in the
    arena [h0]; [done] and [pending] are as in [bfs_inv]. *)
Record dfs_inv (h0 : heap V) (s : ref) (h : heap V) (done pending : list ref)
    : Prop := mk_dfs_inv {
  dinv_adj : adj h = adj h0;
  dinv_distance : distance <$> h = distance <$> h0;
  dinv_nodup : NoDup (done ++ pending);
  dinv_head : head (done ++ pending) = Some s;
  dinv_reach : ∀ n, n ∈ done ++ pending → reachable h0 s n;
  dinv_visited : ∀ n, reachable h0 s n → (is_visited h n ↔ n ∈ done ++ pending);
  dinv_done : ∀ p c, p ∈ done → edge h0 p c → c ∈ done ++ pending;
  dinv_span : ∀ c, c ∈ done ++ pending → c ≠ s → dfs_span_ok h0 h done c
}.

End Dfs.
End Dfs.

(** * The distances that the breadth-first generator records *)

Module Levels.
Section Levels.
Import Tree.
Context {V : Type}.

(** The [distance] field of the node at [n]. *)
Definition recorded (h : heap V) (n : ref) : Z := default 0 (distance <$> h !! n).

(** [k] is the number of child edges of a shortest path from [s] to [n]. *)
Definition shortest (h : heap V) (s n : ref) (k : nat) : Prop :=
  nsteps (edge h) k s n ∧ ∀ k', nsteps (edge h) k' s n → (k ≤ k')%nat.

(** The invariant on distances of a traversal from [s], whose distance is
    [d0]: each discovered node records the length of some path to it, the
    queue holds nodes of at most two consecutive levels in order, and no
    child edge of a node that is done goes up by more than one. *)
Record lvl_inv (h0 : heap V) (s : ref) (d0 : Z) (h : heap V) (done pending : list ref)
    : Prop := mk_lvl_inv {
  lvl_start : recorded h s = d0;
  lvl_path : ∀ n, n ∈ done ++ pending →
    ∃ k, recorded h n = d0 + Z.of_nat k ∧ nsteps (edge h0) k s n;
  lvl_done : ∀ a b, a ∈ done → b ∈ pending → recorded h a ≤ recorded h b;
  lvl_sorted : StronglySorted (λ a b, recorded h a ≤ recorded h b) pending;
  lvl_two : ∀ a b, head pending = Some a → b ∈ pending → recorded h b ≤ recorded h a + 1;
  lvl_edge : ∀ p c, p ∈ done → edge h0 p c → recorded h c ≤ recorded h p + 1
}.

End Levels.
End Levels.

(** * What the builder has created *)

Module Created.
Import Tree Monitor.

(** The number of nodes of the hierarchy of a host, of a host or compute
    resource, and of a datacenter. *)
Definition host_size (hs : HostSystem) : nat := S (length (vm hs)).

Definition child_size (o : HostOrCR) : nat :=
  match o with
  | IsHost hs => host_size hs
  | IsCR cr => S (sum_list (host_size <$> host cr))
  end.

Definition dc_size (dc : Datacenter) : nat :=
  S (sum_list (child_size <$> get_child_objects (hostFolder dc) [])).

(** [created b g s]: the objects of [s] from [b] on were created one after
    the other, the first with id [g]: their ids count up from [g], none is
    visited, the children of each are later objects, and each but the
    first is among the children of an earlier one. *)
Definition created (b : ref) (g : Z) (s : State ManagedObject) : Prop :=
  closed (objs s) ∧
  (b ≤ length (objs s))%nat ∧
  global_id s = g + Z.of_nat (length (objs s) - b) ∧
  ∀ m nd, (b ≤ m)%nat → objs s !! m = Some nd →
    id nd = g + Z.of_nat (m - b) ∧
    visited nd = false ∧
    Forall (λ c, (m < c)%nat) (children nd) ∧
    (m ≠ b → ∃ p np, (b ≤ p < m)%nat ∧ objs s !! p = Some np ∧ m ∈ children np).

End Created.

(** * More of Monitor.py: the inventory *)

Module Struct.
Import Tree Monitor.

(** ** Python dictionaries

    An association list without duplicate keys, in insertion order, which
    is the order in which a [dict] is iterated. *)
Section dict.
Context {K A : Type} `{EqDecision K}.

(** [d[k] = v]: a key that is present keeps its place. *)
Fixpoint dict_set (k : K) (v : A) (d : list (K * A)) : list (K * A) :=
  match d with
  | [] => [(k, v)]
  | (k', v') :: d' =>
      if decide (k' = k) then (k', v) :: d' else (k', v') :: dict_set k v d'
  end.

(** [d.get(k)] *)
Fixpoint dict_get (k : K) (d : list (K * A)) : option A :=
  match d with
  | [] => None
  | (k', v) :: d' => if decide (k' = k) then Some v else dict_get k d'
  end.

(** [{k: v for k, v in items}] *)
Definition dict_of (items : list (K * A)) : list (K * A) :=
  foldl (λ d kv, dict_set kv.1 kv.2 d) [] items.

End dict.

(** ** The fields of a [Monitor] that hold the inventory *)
Record Inventory := mkInventory {
  datacenter_view : list Datacenter;
  trees : list DCTree;
  nodes : list ref;
  id_map : list (Z * string);
  name_map : list (string * Z)
}.

(** The fields as [Monitor.__init__] sets them, and the view as
    [update_views] has filled it. *)
Definition Inventory_init (view : list Datacenter) : Inventory :=
  mkInventory view [] [] [] [].

(** [[self._build_dc_tree(dc) for dc in self.datacenter_view]] *)
Fixpoint build_trees (dcs : list Datacenter) : M (result (list DCTree)) :=
  match dcs with
  | [] => mret (Ok [])
  | dc :: dcs' =>
      r ← _build_dc_tree dc;
      match r with
      | Raise e => mret (Raise e)
      | Ok t =>
          rs ← build_trees dcs';
          match rs with
          | Raise e => mret (Raise e)
          | Ok ts => mret (Ok (t :: ts))
          end
      end
  end.

(** [l.extend] called with the unpacked [args]: [list.extend] takes one
    argument. *)
Definition extend (l : list ref) (args : list (list ref)) : result (list ref) :=
  match args with
  | [a] => Ok (l ++ a)
  | _ => Raise (TypeError ("list.extend() takes exactly one argument ("
                           +:+ pretty (length args) +:+ " given)"))
  end.

(** The pairs [(n.id, n.value.name)] for [n] in [ns]. *)
Definition id_items (ns : list ref) (h : heap ManagedObject) : option (list (Z * string)) :=
  mapM (λ n, nd ← h !! n; Some (id nd, name (Tree.value nd))) ns.

(** [build_struct]: the fields it has assigned when it returns or raises,
    and how it ended. *)
Definition build_struct (self : Inventory) : M (Inventory * result unit) :=
  r ← build_trees (datacenter_view self);
  match r with
  | Raise e => mret (self, Raise e)
  | Ok ts =>
      let self1 :=
        mkInventory (datacenter_view self) ts (nodes self) (id_map self) (name_map self) in
      match extend (nodes self) (Tree.nodes <$> ts) with
      | Raise e => mret (self1, Raise e)
      | Ok ns =>
          items ← on_heap (λ h, items ← id_items ns h; Some (items, h));
          let ids := dict_of items in
          let names := dict_of (prod_swap <$> ids) in
          mret (mkInventory (datacenter_view self) ts ns ids names, Ok tt)
      end
  end.

(** [query_id_status]: [None] is Python's [None], returned when the loop
    ends.  A [Node] is always true. *)
Fixpoint query_id_status_in (available : ManagedObject → list MetricId) (mon : Monitor)
    (ts : list DCTree) (id_ : Z) (h : heap ManagedObject)
  : option (option (result DataFrame * list warning)) :=
  match ts with
  | [] => Some None
  | t :: ts' =>
      node ← search t id_ h;
      match node with
      | Some n => nd ← h !! n; Some (Some (Stats.latest_stats_all available mon (Tree.value nd)))
      | None => query_id_status_in available mon ts' id_ h
      end
  end.

Definition query_id_status (available : ManagedObject → list MetricId) (mon : Monitor)
    (self : Inventory) (id_ : Z) (h : heap ManagedObject)
  : option (option (result DataFrame * list warning)) :=
  query_id_status_in available mon (trees self) id_ h.

End Struct.

(** * One more concrete input *)

Module Twins.
Import Monitor.

(** One host with two virtual machines of the same name. *)
Definition twins : Datacenter :=
  mkDatacenter "dc" (Object (IsHost (mkHostSystem "host" [Samples.vm_a; Samples.vm_a]))).

End Twins.

(** * Properties of the traversal *)

Section Traversal.
Import Tree.
Context {V : Type}.

Implicit Types (h k : heap V) (n u c s p : ref) (q out cs : list ref) (nd nu nc : Node V).

Lemma adj_lookup h n : adj h !! n = children <$> h !! n.
Proof. apply list_lookup_fmap. Qed.

Lemma flags_lookup h n : flags h !! n = visited <$> h !! n.
Proof. apply list_lookup_fmap. Qed.

Lemma adj_length h h' : adj h = adj h' → length h = length h'.
Proof.
  intros E. apply (f_equal length) in E. unfold adj in E. by rewrite !length_fmap in E.
Qed.

Lemma adj_insert h n nd nd' :
  h !! n = Some nd → children nd' = children nd → adj (<[n := nd']> h) = adj h.
Proof.
  intros Hn Hc. unfold adj. rewrite list_fmap_insert. apply list_insert_id.
  rewrite list_lookup_fmap, Hn. cbn. by rewrite Hc.
Qed.

Lemma closed_adj h h' : adj h = adj h' → closed h → closed h'.
Proof. intros E. unfold closed. by rewrite <-E, (adj_length _ _ E). Qed.

Lemma edge_adj h h' u c : adj h = adj h' → edge h u c → edge h' u c.
Proof. intros E. unfold edge. by rewrite E. Qed.

Lemma edge_children h u nu c : h !! u = Some nu → c ∈ children nu → edge h u c.
Proof. intros Hu Hc. exists (children nu). by rewrite adj_lookup, Hu. Qed.

Lemma closed_children h u nu :
  closed h → h !! u = Some nu → Forall (λ c, (c < length h)%nat) (children nu).
Proof.
  intros Hcl Hu. unfold closed in Hcl.
  eapply Forall_lookup_1 in Hcl; [done|]. by rewrite adj_lookup, Hu.
Qed.

Lemma is_visited_lookup h n : is_visited h n ↔ ∃ nd, h !! n = Some nd ∧ visited nd = true.
Proof.
  unfold is_visited. rewrite flags_lookup. destruct (h !! n) as [nd|]; cbn.
  - split; [intros [= ?]; eauto|]. by intros (? & [= <-] & ->).
  - split; [done|]. by intros (? & ? & _).
Qed.

Lemma is_visited_lt h n : is_visited h n → (n < length h)%nat.
Proof. intros (nd & Hn & _)%is_visited_lookup. by eapply lookup_lt_Some. Qed.

Lemma count_false_insert (l : list bool) (i : nat) :
  l !! i = Some false →
  S (length (filter (λ b, b = false) (<[i := true]> l))) = length (filter (λ b, b = false) l).
Proof.
  revert i. induction l as [|b l IH]; intros [|i] Hi; cbn in Hi; simplify_eq.
  - change (<[0%nat:=true]> (false :: l)) with (true :: l).
    rewrite filter_cons_False by done. by rewrite filter_cons_True.
  - specialize (IH i Hi). change (<[S i:=true]> (b :: l)) with (b :: <[i:=true]> l).
    destruct b.
    + rewrite !filter_cons_False by done. done.
    + rewrite !filter_cons_True by done. cbn. by rewrite IH.
Qed.

Lemma count_false_le (l : list bool) : (length (filter (λ b, b = false) l) ≤ length l)%nat.
Proof. apply length_filter. Qed.

Lemma unvisited_count_discover h c nc u d :
  h !! c = Some nc → visited nc = false →
  S (unvisited_count (<[c := discover u d nc]> h)) = unvisited_count h.
Proof.
  intros Hc Hv. unfold unvisited_count, flags. rewrite list_fmap_insert. cbn.
  apply count_false_insert. by rewrite list_lookup_fmap, Hc, <-Hv.
Qed.

(** What one pass over the children of [u] does: the unvisited ones, each
    once and in order, are discovered and join the queue; nothing else
    changes. *)
Lemma bfs_children_spec u nu cs h q :
  h !! u = Some nu → visited nu = true →
  Forall (λ c, (c < length h)%nat) cs →
  ∃ h' new,
    bfs_children u cs h q = Some (h', q ++ new) ∧
    adj h' = adj h ∧
    NoDup new ∧
    (∀ c, c ∈ new → c ∈ cs ∧ ¬ is_visited h c ∧
       ∃ nc, h !! c = Some nc ∧ h' !! c = Some (discover u (distance nu) nc)) ∧
    (∀ n, n ∉ new → h' !! n = h !! n) ∧
    (∀ c, c ∈ cs → is_visited h' c) ∧
    (unvisited_count h' + length new = unvisited_count h)%nat.
Proof.
  intros Hu Hvu Hcs. revert h q Hu Hcs.
  induction cs as [|c cs IH]; intros h q Hu Hcs.
  { exists h, []. rewrite app_nil_r.
    split_and!; [done|done|constructor|by intros c ?%elem_of_nil|done
                |by intros c ?%elem_of_nil|cbn; lia]. }
  apply Forall_cons in Hcs as [Hc Hcs].
  destruct (lookup_lt_is_Some_2 h c Hc) as [nc Hnc].
  cbn [bfs_children]. rewrite Hnc. cbn. destruct (visited nc) eqn:Hvc.
  - destruct (IH h q Hu Hcs) as (h' & new & Hrun & Hadj & Hnd & Hnew & Hold & Hvis & Hcnt).
    exists h', new. split_and!; try done.
    + intros c' Hc'. destruct (Hnew c' Hc') as (? & ? & ?). split_and!; try done.
      by apply elem_of_cons; right.
    + intros c' [->|Hc']%elem_of_cons; [|by apply Hvis].
      assert (is_visited h c) as Hv by (apply is_visited_lookup; eauto).
      apply is_visited_lookup. rewrite Hold; [eauto|].
      intros Hin. by destruct (Hnew c Hin) as (_ & ? & _).
  - rewrite Hu. cbn.
    assert (c ≠ u) as Hcu by (intros ->; congruence).
    set (h1 := <[c := discover u (distance nu) nc]> h).
    assert (adj h1 = adj h) as Hadj1 by (by eapply adj_insert).
    assert (h1 !! u = Some nu) as Hu1 by (by unfold h1; rewrite list_lookup_insert_ne).
    assert (h1 !! c = Some (discover u (distance nu) nc)) as Hc1.
    { unfold h1. by rewrite list_lookup_insert_eq. }
    assert (is_visited h1 c) as Hvc1 by (apply is_visited_lookup; eauto).
    destruct (IH h1 (q ++ [c]) Hu1) as (h' & new & Hrun & Hadj & Hnd & Hnew & Hold & Hvis & Hcnt).
    { by rewrite (adj_length _ _ Hadj1). }
    assert (c ∉ new) as Hcnew.
    { intros Hin. by destruct (Hnew c Hin) as (_ & ? & _). }
    exists h', (c :: new). split_and!.
    + by rewrite Hrun, <-app_assoc.
    + by rewrite Hadj.
    + by constructor.
    + intros c' [->|Hc']%elem_of_cons.
      * split_and!; [by left| |].
        -- rewrite is_visited_lookup. intros (? & ? & ?). congruence.
        -- exists nc. split; [done|]. by rewrite Hold.
      * destruct (Hnew c' Hc') as (Hin & Hnv & nc' & Hnc' & Hnc'').
        assert (c' ≠ c) as Hne by (by intros ->).
        unfold h1 in Hnc'. rewrite list_lookup_insert_ne in Hnc' by done.
        split_and!; [by right| |by eauto].
        intros Hv. apply Hnv. apply is_visited_lookup.
        apply is_visited_lookup in Hv as (? & ? & ?).
        unfold h1. rewrite list_lookup_insert_ne by done. eauto.
    + intros n [Hne Hn]%not_elem_of_cons. rewrite Hold by done.
      unfold h1. by rewrite list_lookup_insert_ne.
    + intros c' [->|Hc']%elem_of_cons; [|by apply Hvis].
      apply is_visited_lookup. rewrite Hold by done. eauto.
    + cbn. pose proof (unvisited_count_discover h c nc u (distance nu) Hnc Hvc). 
      fold h1 in H. lia.
Qed.

Lemma is_leaf_is_leaf_at h n nd : h !! n = Some nd → is_leaf nd = is_leaf_at h n.
Proof.
  intros Hn. unfold is_leaf, is_leaf_at. rewrite adj_lookup, Hn. cbn.
  apply bool_decide_ext. split.
  - by intros ->%nil_length_inv.
  - by intros [= ->].
Qed.

Lemma is_leaf_at_adj h h' n : adj h = adj h' → is_leaf_at h n = is_leaf_at h' n.
Proof. unfold is_leaf_at. by intros ->. Qed.

Lemma extended_nil h t : extended h t [] = t.
Proof. destruct t. unfold extended. cbn. by rewrite !app_nil_r. Qed.

Lemma extended_cons h t n nd out :
  h !! n = Some nd → extended h (update_body n nd t) out = extended h t (n :: out).
Proof.
  intros Hn. unfold extended, update_body. cbn [root nodes leaf].
  rewrite <-app_assoc. f_equal. rewrite (is_leaf_is_leaf_at h n nd Hn).
  destruct (is_leaf_at h n) eqn:E.
  - rewrite filter_cons_True by (by apply Is_true_true_2). by rewrite <-app_assoc.
  - rewrite filter_cons_False by (by apply Is_true_false_2). done.
Qed.

Lemma extended_adj h h' t out : adj h = adj h' → extended h t out = extended h' t out.
Proof.
  intros E. unfold extended. f_equal. f_equal. apply list_filter_iff.
  intros n. by rewrite (is_leaf_at_adj _ _ n E).
Qed.

(** With enough fuel the [for] loop runs the generator to its end, and the
    tree is extended by the nodes yielded. *)
Lemma for_bfs_run (fuel : nat) h u q t :
  closed h → is_visited h u → Forall (is_visited h) q →
  (unvisited_count h + length q < fuel)%nat →
  ∃ out h', bfs_run h u q out h' ∧
    for_bfs fuel (GYield u q) h t = Some (extended h t out, h').
Proof.
  revert h u q t. induction fuel as [|fuel IH]; intros h u q t Hcl Hu Hq Hfuel; [lia|].
  apply is_visited_lookup in Hu as (nu & Hu & Hvu).
  destruct (bfs_children_spec u nu (children nu) h q Hu Hvu)
    as (h1 & new & Hrun & Hadj & Hnd & Hnew & Hold & Hvis & Hcnt).
  { by eapply closed_children. }
  assert (∀ n, is_visited h n → is_visited h1 n) as Hmono.
  { intros n Hn. destruct (decide (n ∈ new)) as [Hin|Hin].
    - destruct (Hnew n Hin) as (_ & ? & _). done.
    - apply is_visited_lookup. rewrite (Hold n Hin). by apply is_visited_lookup. }
  assert (Forall (is_visited h1) (q ++ new)) as Hq1.
  { apply Forall_app. split.
    - eapply Forall_impl; [exact Hq|]. apply Hmono.
    - apply Forall_forall. intros c Hc. destruct (Hnew c Hc) as (Hin & _). by apply Hvis. }
  cbn [for_bfs bfs_next]. rewrite Hu. cbn. rewrite Hrun. cbn.
  destruct (q ++ new) as [|u' q'] eqn:Hq'.
  - exists [], h1. split; [by eapply bfs_run_done|]. cbn. by rewrite extended_nil.
  - apply Forall_cons in Hq1 as [Hu' Hq1]. cbn.
    pose proof Hu' as (nd & Hnd' & _)%is_visited_lookup. rewrite Hnd'. cbn.
    destruct (IH h1 u' q' (update_body u' nd t)) as (out & h' & Hr & Hfor);
      [by eapply closed_adj|done|done| |].
    { apply (f_equal length) in Hq'. rewrite length_app in Hq'. cbn in Hq'. lia. }
    exists (u' :: out), h'. split; [by eapply bfs_run_yield|].
    rewrite Hfor. f_equal. f_equal. rewrite extended_cons by done.
    by apply extended_adj.
Qed.

(** Facts about a whole run that need no assumption on the flags at its
    start: the graph is left as it was, flags are only ever set, the queued
    nodes and no others are yielded later, every yielded node ends up
    visited, and only yielded nodes are written to. *)
Lemma bfs_run_general h u q out h' :
  bfs_run h u q out h' →
  closed h → is_visited h u → Forall (is_visited h) q →
  adj h' = adj h ∧
  (∀ n, is_visited h n → is_visited h' n) ∧
  (∀ n, n ∈ q → n ∈ out) ∧
  (∀ n, n ∈ out → is_visited h' n) ∧
  (∀ n, n ∉ out → h' !! n = h !! n).
Proof.
  induction 1 as [h u nu q h' Hu Hrun|h u nu q h1 u' q' out h' Hu Hrun Hrest IH];
    intros Hcl Hvu Hq.
  all: pose proof Hvu as (nu' & Hu' & Hvnu)%is_visited_lookup;
    rewrite Hu in Hu'; injection Hu' as <-.
  all: destruct (bfs_children_spec u nu (children nu) h q Hu Hvnu)
    as (h2 & new & Hrun' & Hadj & Hnd & Hnew & Hold & Hvis & Hcnt);
    [by eapply closed_children|].
  all: rewrite Hrun in Hrun'; injection Hrun' as <- Hqn.
  - symmetry in Hqn. apply app_eq_nil in Hqn as [-> ->].
    split_and!; [done| |done|by intros n ?%elem_of_nil|].
    + intros n Hn. apply is_visited_lookup. rewrite Hold by apply not_elem_of_nil.
      by apply is_visited_lookup.
    + intros n _. apply Hold, not_elem_of_nil.
  - assert (∀ n, is_visited h n → is_visited h1 n) as Hmono.
    { intros n Hn. destruct (decide (n ∈ new)) as [Hin|Hin].
      - destruct (Hnew n Hin) as (_ & ? & _). done.
      - apply is_visited_lookup. rewrite (Hold n Hin). by apply is_visited_lookup. }
    assert (Forall (is_visited h1) (u' :: q')) as Hq1.
    { rewrite Hqn. apply Forall_app. split.
      - eapply Forall_impl; [exact Hq|]. apply Hmono.
      - apply Forall_forall. intros c Hc. destruct (Hnew c Hc) as (Hin & _).
        by apply Hvis. }
    apply Forall_cons in Hq1 as [Hvu' Hq1].
    destruct IH as (Hadj' & Hmono' & Hsub & Hvout & Hsame);
      [by eapply closed_adj|done|done|].
    assert (∀ n, n ∈ q ++ new → n ∈ u' :: out) as Hsub1.
    { intros n. rewrite <-Hqn. intros [->|Hn]%elem_of_cons; [by left|].
      right. by apply Hsub. }
    split_and!.
    + by rewrite Hadj'.
    + intros n Hn. by apply Hmono', Hmono.
    + intros n Hn. apply Hsub1, elem_of_app. by left.
    + intros n [->|Hn]%elem_of_cons; [by apply Hmono'|by apply Hvout].
    + intros n Hn. apply not_elem_of_cons in Hn as [Hne Hn].
      rewrite Hsame by done. apply Hold. intros Hin.
      assert (n ∈ u' :: out) as [->|?]%elem_of_cons; [|done..].
      apply Hsub1, elem_of_app. by right.
Qed.

Lemma span_ok_app h0 h out l c : span_ok h0 h out c → span_ok h0 h (out ++ l) c.
Proof.
  intros (p & nc & np & Hc & Hp & Hsp & Hd & before & after & -> & He & Hfirst).
  exists p, nc, np. split_and!; try done.
  exists before, (after ++ l). by rewrite <-app_assoc.
Qed.

Lemma span_ok_same h0 h h1 out c :
  h1 !! c = h !! c → (∀ p, p ∈ out → h1 !! p = h !! p) →
  span_ok h0 h out c → span_ok h0 h1 out c.
Proof.
  intros Hc Hout (p & nc & np & Hnc & Hnp & Hsp & Hd & Hfirst).
  exists p, nc, np. rewrite Hc. rewrite Hout; [done|].
  destruct Hfirst as (before & after & -> & _). apply elem_of_app. right. by left.
Qed.

Lemma is_visited_set_visited h s nd n :
  h !! s = Some nd →
  is_visited (<[s := set_visited true nd]> h) n ↔ n = s ∨ is_visited h n.
Proof.
  intros Hs. rewrite !is_visited_lookup. destruct (decide (n = s)) as [->|Hne].
  - rewrite list_lookup_insert_eq by (by eapply lookup_lt_Some).
    split; [by left|]. intros _. by eexists.
  - rewrite list_lookup_insert_ne by done.
    split; [by right|]. by intros [?|?].
Qed.

(** The state after the first statements of [_bfs], when every node that
    [s] reaches was unvisited. *)
Lemma bfs_inv_init h0 s nd :
  h0 !! s = Some nd →
  (∀ n, reachable h0 s n → ¬ is_visited h0 n) →
  bfs_inv h0 s (<[s := set_visited true nd]> h0) [] [s].
Proof.
  intros Hs Hfresh. split; cbn.
  - by eapply adj_insert.
  - apply NoDup_singleton.
  - by eexists.
  - intros n ->%list_elem_of_singleton. apply rtc_refl.
  - intros n Hn. rewrite is_visited_set_visited, list_elem_of_singleton by done.
    specialize (Hfresh n Hn). split; [by intros [?|?]|by left].
  - by intros p c ?%elem_of_nil.
  - by intros c ->%list_elem_of_singleton.
Qed.

(** One turn of the [while] loop keeps the invariant: [u] is done, and the
    children it discovered queue up behind the others. *)
Lemma bfs_inv_step h0 s h done u nu q h1 new :
  bfs_inv h0 s h done (u :: q) →
  h !! u = Some nu →
  adj h1 = adj h →
  NoDup new →
  (∀ c, c ∈ new → c ∈ children nu ∧ ¬ is_visited h c ∧
     ∃ nc, h !! c = Some nc ∧ h1 !! c = Some (discover u (distance nu) nc)) →
  (∀ n, n ∉ new → h1 !! n = h !! n) →
  (∀ c, c ∈ children nu → is_visited h1 c) →
  bfs_inv h0 s h1 (done ++ [u]) (q ++ new).
Proof.
  intros [Hadj Hnd [rest Hhd] Hreach Hvis Hdone Hspan] Hu Hadj1 Hndnew Hnew Hold Hvis1.
  assert ((done ++ [u]) ++ q ++ new = (done ++ u :: q) ++ new) as Eseen.
  { by rewrite <-!app_assoc. }
  assert (reachable h0 s u) as Hru.
  { apply Hreach, elem_of_app. right. by left. }
  assert (∀ c, c ∈ children nu → reachable h0 s c) as Hrc.
  { intros c Hc. eapply rtc_r; [exact Hru|].
    apply (edge_adj h); [done|]. by eapply edge_children. }
  assert (∀ n, n ∈ done ++ u :: q → n ∉ new) as Hdisj.
  { intros n Hn Hin. destruct (Hnew n Hin) as (_ & Hnv & _).
    apply Hnv, Hvis; [by apply Hreach|done]. }
  assert (∀ n, reachable h0 s n → is_visited h1 n ↔ n ∈ (done ++ u :: q) ++ new) as Hvis'.
  { intros n Hn. rewrite elem_of_app. split.
    - intros Hv. destruct (decide (n ∈ new)) as [?|Hnin]; [by right|left].
      apply Hvis; [done|]. apply is_visited_lookup. rewrite <-(Hold n Hnin).
      by apply is_visited_lookup.
    - intros [Hin|Hin].
      + apply is_visited_lookup. rewrite Hold by (by apply Hdisj).
        apply is_visited_lookup. by apply Hvis.
      + destruct (Hnew n Hin) as (Hc & _). by apply Hvis1. }
  split; rewrite ?Eseen.
  - by rewrite Hadj1.
  - apply NoDup_app. split_and!; [done|exact Hdisj|done].
  - exists (rest ++ new). by rewrite Hhd.
  - intros n [Hn|Hn]%elem_of_app; [by apply Hreach|].
    destruct (Hnew n Hn) as (Hc & _). by apply Hrc.
  - exact Hvis'.
  - intros p c [Hp| ->%list_elem_of_singleton]%elem_of_app He.
    + apply elem_of_app. left. by eapply Hdone.
    + destruct He as (cs & Hcs & Hc). rewrite <-Hadj, adj_lookup, Hu in Hcs.
      injection Hcs as <-. apply Hvis'; [by apply Hrc|by apply Hvis1].
  - intros c [Hc|Hc]%elem_of_app Hcs.
    + apply span_ok_app. apply (span_ok_same h0 h); [by apply Hold, Hdisj| |by apply Hspan].
      intros p Hp. apply Hold, Hdisj. apply elem_of_app. by left.
    + destruct (Hnew c Hc) as (Hcu & Hnv & nc & Hnc & Hnc1).
      exists u, (discover u (distance nu) nc), nu. split_and!; [done| |done|done|].
      * rewrite Hold; [done|]. apply Hdisj, elem_of_app. right. by left.
      * exists done, []. split_and!; [done| |].
        -- apply (edge_adj h); [done|]. by eapply edge_children.
        -- intros p' Hp' He. apply Hnv. apply Hvis; [by apply Hrc|]. by eapply Hdone.
Qed.

Lemma bfs_inv_post h0 s h out : bfs_inv h0 s h out [] → bfs_post h0 s h out.
Proof.
  rewrite <-(app_nil_r out) at 2.
  intros [Hadj Hnd Hhd Hreach Hvis Hdone Hspan]. rewrite app_nil_r in *.
  split; try done.
  - intros n. split; [by apply Hreach|].
    apply (rtc_ind_r (λ n, n ∈ out) s).
    + destruct Hhd as [rest ->]. by left.
    + intros p c _ He Hp. by eapply Hdone.
  - intros n Hn. apply Hvis; [by apply Hreach|done].
Qed.

(** A run that starts under the invariant ends with the yielded nodes and
    the arena as [bfs_post] describes. *)
Lemma bfs_run_post h0 s h u q out h' done :
  bfs_run h u q out h' →
  closed h0 →
  bfs_inv h0 s h done (u :: q) →
  bfs_post h0 s h' (done ++ u :: out).
Proof.
  intros Hrun Hcl. revert done.
  induction Hrun as [h u nu q h' Hu Hrun|h u nu q h1 u' q' out h' Hu Hrun Hrest IH];
    intros done Hinv.
  all: assert (is_visited h u) as Hvu
    by (apply (inv_visited _ _ _ _ _ Hinv);
        [apply (inv_reach _ _ _ _ _ Hinv)|]; apply elem_of_app; right; by left).
  all: pose proof Hvu as (nu' & Hu' & Hvnu)%is_visited_lookup;
    rewrite Hu in Hu'; injection Hu' as <-.
  all: destruct (bfs_children_spec u nu (children nu) h q Hu Hvnu)
    as (h2 & new & Hrun' & Hadj & Hnd & Hnew & Hold & Hvis & Hcnt);
    [eapply closed_children; [|done];
     by apply (closed_adj h0); [symmetry; apply (inv_adj _ _ _ _ _ Hinv)|]|].
  all: rewrite Hrun in Hrun'; injection Hrun' as <- Hqn.
  all: pose proof (bfs_inv_step h0 s h done u nu q _ new Hinv Hu Hadj Hnd Hnew Hold Hvis)
    as Hinv'; rewrite <-Hqn in Hinv'.
  - replace (done ++ [u]) with (done ++ u :: []) in Hinv' by done.
    by apply bfs_inv_post. 
  - specialize (IH (done ++ [u]) Hinv'). by rewrite <-app_assoc in IH.
Qed.

Lemma unvisited_count_le h : (unvisited_count h ≤ length h)%nat.
Proof.
  unfold unvisited_count, flags. rewrite <-(length_fmap visited h). apply length_filter.
Qed.

(** The whole loop [for n in self._bfs(s)]: it ends, and has yielded [s]
    and then the nodes of a run from [s] with an empty queue. *)
Lemma for_bfs_start h s nd t :
  closed h → h !! s = Some nd →
  let h1 := <[s := set_visited true nd]> h in
  ∃ out h', bfs_run h1 s [] out h' ∧
    for_bfs (bfs_fuel h) (_bfs s) h t = Some (extended h t (s :: out), h').
Proof.
  intros Hcl Hs h1.
  assert (adj h1 = adj h) as Hadj by (by eapply adj_insert).
  assert (h1 !! s = Some (set_visited true nd)) as Hs1.
  { unfold h1. rewrite list_lookup_insert_eq; [done|]. by eapply lookup_lt_Some. }
  destruct (for_bfs_run (length h + 1) h1 s [] (update_body s (set_visited true nd) t))
    as (out & h' & Hrun & Hfor).
  - by eapply closed_adj.
  - apply is_visited_lookup. eauto.
  - constructor.
  - pose proof (unvisited_count_le h1). rewrite (adj_length _ _ Hadj) in *. cbn. lia.
  - exists out, h'. split; [done|].
    unfold bfs_fuel. replace (length h + 2)%nat with (S (length h + 1)) by lia.
    cbn [for_bfs _bfs bfs_next]. rewrite Hs. cbn. fold h1. rewrite Hs1. cbn.
    rewrite Hfor. f_equal. f_equal. rewrite extended_cons by done.
    by apply extended_adj.
Qed.

(** ** What [reset_visited] does *)

Lemma reset_visited_spec (ns : list ref) h :
  Forall (λ n, (n < length h)%nat) ns →
  ∃ h', reset_visited ns h = Some h' ∧
    adj h' = adj h ∧
    (∀ n, n ∈ ns → flags h' !! n = Some false) ∧
    (∀ n, n ∉ ns → h' !! n = h !! n).
Proof.
  revert h. induction ns as [|m ns IH]; intros h Hns.
  { exists h. split_and!; try done. by intros n ?%elem_of_nil. }
  apply Forall_cons in Hns as [Hm Hns].
  destruct (lookup_lt_is_Some_2 h m Hm) as [nd Hnd].
  cbn [reset_visited]. rewrite Hnd. cbn.
  set (h1 := <[m := set_visited false nd]> h).
  assert (adj h1 = adj h) as Hadj1 by (by eapply adj_insert).
  destruct (IH h1) as (h' & Hr & Hadj & Hin & Hout).
  { by rewrite (adj_length _ _ Hadj1). }
  exists h'. split_and!; [done|by rewrite Hadj| |].
  - intros n Hn. destruct (decide (n ∈ ns)) as [?|Hnin]; [by apply Hin|].
    apply elem_of_cons in Hn as [->|?]; [|done].
    rewrite flags_lookup, Hout by done. unfold h1.
    by rewrite list_lookup_insert_eq.
  - intros n [Hne Hn]%not_elem_of_cons. rewrite Hout by done.
    unfold h1. by rewrite list_lookup_insert_ne.
Qed.

(** C2: [_bfs s] first marks [s] visited and yields it.  Run to its end by a
    [for] loop, in an arena whose child references are all valid and where
    no node that [s] reaches is marked visited, the generator yields every
    node that [s] reaches along child edges, each once, [s] first.  It
    leaves each yielded node visited, and each but [s] with the first
    yielded node that has it as a child for spanning-tree parent, and with
    that parent's distance plus one for distance.  This holds of any graph,
    so of a DAG in which two parents share a child. *)
Theorem bfs_yields_reachable_once h s t :
  closed h → (s < length h)%nat →
  (∀ n, reachable h s n → ¬ is_visited h n) →
  (∃ nd, h !! s = Some nd ∧
     bfs_next (_bfs s) h = Some (Some s, GYield s [], <[s := set_visited true nd]> h)) ∧
  ∃ out h',
    for_bfs (bfs_fuel h) (_bfs s) h t = Some (extended h t out, h') ∧
    NoDup out ∧
    head out = Some s ∧
    (∀ n, n ∈ out ↔ reachable h s n) ∧
    (∀ n, n ∈ out → is_visited h' n) ∧
    (∀ c, c ∈ out → c ≠ s →
       ∃ p nc np, h' !! c = Some nc ∧ h' !! p = Some np ∧
         span_parent nc = Some p ∧ distance nc = distance np + 1 ∧
         ∃ before after, out = before ++ p :: after ∧ edge h p c ∧
                         ∀ p', p' ∈ before → ¬ edge h p' c).
Proof.
  intros Hcl Hs Hfresh.
  destruct (lookup_lt_is_Some_2 h s Hs) as [nd Hnd].
  split.
  { exists nd. split; [done|]. cbn. by rewrite Hnd. }
  destruct (for_bfs_start h s nd t Hcl Hnd) as (out & h' & Hrun & Hfor).
  pose proof (bfs_inv_init h s nd Hnd Hfresh) as Hinv.
  pose proof (bfs_run_post h s _ s [] out h' [] Hrun Hcl Hinv) as [_ Hnd' _ Hr Hv Hsp].
  exists (s :: out), h'. split_and!; try done.
Qed.

(** ** The traversal is decided by the child edges and the flags *)

Lemma flags_insert h n nd (nd' : Node V) :
  h !! n = Some nd → flags (<[n := nd']> h) = <[n := visited nd']> (flags h).
Proof. intros _. unfold flags. by rewrite list_fmap_insert. Qed.

Lemma lookup_sim h k n nd :
  adj h = adj k → flags h = flags k → h !! n = Some nd →
  ∃ kd, k !! n = Some kd ∧ children kd = children nd ∧ visited kd = visited nd.
Proof.
  intros Ha Hf Hn.
  assert (adj k !! n = Some (children nd)) as Hc by (by rewrite <-Ha, adj_lookup, Hn).
  assert (flags k !! n = Some (visited nd)) as Hv by (by rewrite <-Hf, flags_lookup, Hn).
  rewrite adj_lookup in Hc. rewrite flags_lookup in Hv.
  destruct (k !! n) as [kd|]; [|done]. exists kd.
  by injection Hc as ->; injection Hv as ->.
Qed.

Lemma bfs_children_sim u cs h k q h' q' :
  adj h = adj k → flags h = flags k →
  bfs_children u cs h q = Some (h', q') →
  ∃ k', bfs_children u cs k q = Some (k', q') ∧ adj h' = adj k' ∧ flags h' = flags k'.
Proof.
  revert h k q. induction cs as [|c cs IH]; intros h k q Ha Hf Hrun.
  { injection Hrun as <- <-. by exists k. }
  cbn [bfs_children] in *.
  destruct (h !! c) as [nc|] eqn:Hc; [|done]. cbn in Hrun.
  destruct (lookup_sim h k c nc Ha Hf Hc) as (kc & Hkc & Hcc & Hvc).
  rewrite Hkc. cbn. rewrite Hvc. destruct (visited nc) eqn:Hv.
  - by apply (IH h).
  - destruct (h !! u) as [nu|] eqn:Hu; [|done]. cbn in Hrun.
    destruct (lookup_sim h k u nu Ha Hf Hu) as (ku & Hku & _ & _).
    rewrite Hku. cbn. eapply IH; [| |exact Hrun].
    + rewrite (adj_insert h c nc), (adj_insert k c kc); done.
    + rewrite (flags_insert h c nc), (flags_insert k c kc) by done. cbn. by rewrite Hf.
Qed.

Lemma bfs_run_sim h k u q out h' :
  bfs_run h u q out h' →
  adj h = adj k → flags h = flags k →
  ∃ k', bfs_run k u q out k' ∧ adj h' = adj k' ∧ flags h' = flags k'.
Proof.
  intros Hrun. revert k.
  induction Hrun as [h u nu q h' Hu Hrun|h u nu q h1 u' q' out h' Hu Hrun Hrest IH];
    intros k Ha Hf.
  all: destruct (lookup_sim h k u nu Ha Hf Hu) as (ku & Hku & Hcu & _).
  all: destruct (bfs_children_sim u (children nu) h k q _ _ Ha Hf Hrun)
    as (k1 & Hrunk & Ha1 & Hf1).
  all: rewrite <-Hcu in Hrunk.
  - exists k1. split; [by eapply bfs_run_done|done].
  - destruct (IH k1 Ha1 Hf1) as (k' & Hrest' & Ha' & Hf').
    exists k'. split; [by eapply bfs_run_yield|done].
Qed.

Lemma bfs_run_det h u q out1 h1 out2 h2 :
  bfs_run h u q out1 h1 → bfs_run h u q out2 h2 → out1 = out2 ∧ h1 = h2.
Proof.
  intros Hrun. revert out2 h2.
  induction Hrun as [h u nu q h' Hu Hrun|h u nu q h1 u' q' out h' Hu Hrun Hrest IH];
    intros out2 h2 Hrun2.
  all: inversion Hrun2 as [? ? nu2 ? ? Hu2 Hrun'|? ? nu2 ? k1 u2 q2 out' ? Hu2 Hrun' Hrest'];
    subst.
  all: rewrite Hu in Hu2; injection Hu2 as <-.
  all: rewrite Hrun in Hrun'; try done.
  - by injection Hrun' as <-.
  - injection Hrun' as <- <- <-. destruct (IH _ _ Hrest') as [-> ->]. done.
Qed.

(** C4, amended: [update_struct] clears the visited flag of the nodes the
    tree knew before it traverses, so the flags that an earlier traversal
    left on these nodes do not affect it: started in any other arena with
    the same child edges that differs only in the visited flags of nodes
    the tree knew, it yields the same nodes and leaves the same flags.
    When it returns, every node that the traversal yielded (the start
    first) is marked visited, and a node the tree knew that the traversal
    did not yield is not. *)
Theorem update_struct_marks_visited t (root_ : option ref) h :
  closed h →
  Forall (λ n, (n < length h)%nat) (nodes t) →
  (default (root t) root_ < length h)%nat →
  ∃ out h',
    update_struct t root_ h = Some (extended h t out, h') ∧
    head out = Some (default (root t) root_) ∧
    (∀ n, n ∈ out → is_visited h' n) ∧
    (∀ n, n ∈ nodes t → n ∉ out → flags h' !! n = Some false) ∧
    (∀ k, adj k = adj h →
          (∀ n, n ∉ nodes t → flags k !! n = flags h !! n) →
          ∃ k', update_struct t root_ k = Some (extended h t out, k') ∧
                flags k' = flags h').
Proof.
  intros Hcl Hns Hr. unfold update_struct.
  replace (match root_ with Some r => r | None => root t end)
    with (default (root t) root_) by (by destruct root_).
  set (r := default (root t) root_) in *.
  destruct (reset_visited_spec (nodes t) h Hns) as (hr & Hreset & Hadj & Hin & Hout).
  rewrite Hreset. cbn.
  assert (closed hr) as Hclr by (by eapply closed_adj).
  destruct (lookup_lt_is_Some_2 hr r) as [nd Hnd].
  { by rewrite (adj_length _ _ Hadj). }
  destruct (for_bfs_start hr r nd t Hclr Hnd) as (out & h' & Hrun & Hfor).
  set (h1 := <[r := set_visited true nd]> hr) in *.
  assert (adj h1 = adj hr) as Hadj1 by (by eapply adj_insert).
  assert (is_visited h1 r) as Hvr.
  { apply is_visited_set_visited; [done|by left]. }
  destruct (bfs_run_general h1 r [] out h' Hrun) as (_ & Hmono & _ & Hvout & Hsame);
    [by eapply closed_adj|done|constructor|].
  exists (r :: out), h'. split_and!.
  - rewrite Hfor. f_equal. f_equal. by apply extended_adj.
  - done.
  - intros n [->|Hn]%elem_of_cons; [by apply Hmono|by apply Hvout].
  - intros n Hn [Hne Hnout]%not_elem_of_cons.
    rewrite flags_lookup, Hsame by done. unfold h1.
    rewrite list_lookup_insert_ne by done. rewrite <-flags_lookup. by apply Hin.
  - intros k Hadjk Hflk.
    assert (length k = length h) as Hlen by (by apply adj_length).
    assert (Forall (λ n, (n < length k)%nat) (nodes t)) as Hnsk by (by rewrite Hlen).
    destruct (reset_visited_spec (nodes t) k Hnsk) as (kr & Hresetk & Hadjkr & Hink & Houtk).
    rewrite Hresetk. cbn.
    assert (adj hr = adj kr) as Hadjr by (by rewrite Hadj, Hadjkr).
    assert (flags hr = flags kr) as Hflr.
    { apply list_eq. intros n. destruct (decide (n ∈ nodes t)) as [Hn|Hn].
      - by rewrite Hin, Hink.
      - by rewrite !flags_lookup, Hout, Houtk, <-!flags_lookup, Hflk. }
    destruct (lookup_sim hr kr r nd Hadjr Hflr Hnd) as (kd & Hkd & _ & Hvkd).
    assert (closed kr) as Hclkr by (by apply (closed_adj hr)).
    destruct (for_bfs_start kr r kd t Hclkr Hkd) as (out2 & k' & Hrunk & Hfork).
    destruct (bfs_run_sim h1 (<[r := set_visited true kd]> kr) r [] out h' Hrun)
      as (k'' & Hrunk' & _ & Hfl').
    { rewrite Hadj1, Hadjr. symmetry. by eapply adj_insert. }
    { unfold h1. rewrite (flags_insert hr r nd), (flags_insert kr r kd) by done.
      by rewrite Hflr. }
    destruct (bfs_run_det _ _ _ _ _ _ _ Hrunk Hrunk') as [-> ->].
    exists k''. split; [|done].
    rewrite Hfork. f_equal. f_equal. apply extended_adj. congruence.
Qed.

(** C3 fails on the code: a second [update_struct] on an unchanged tree
    appends the traversal to the lists of the first.  For a tree built from
    a root in an arena with valid child references and no reachable node
    marked visited, the node list of the first refresh holds each reachable
    node once; after the second refresh the node list is that list twice
    over, and so is the leaf list. *)
Theorem update_struct_twice_duplicates h s nd :
  closed h → h !! s = Some nd → parents nd = [] →
  (∀ n, reachable h s n → ¬ is_visited h n) →
  ∃ t1 h1 t2 h2,
    DCTree_init s h = Some (Ok t1, h1) ∧
    update_struct t1 None h1 = Some (t2, h2) ∧
    NoDup (nodes t1) ∧ (∀ n, n ∈ nodes t1 ↔ reachable h s n) ∧
    leaf t1 = filter (λ n, is_leaf_at h n) (nodes t1) ∧
    nodes t2 = nodes t1 ++ nodes t1 ∧
    leaf t2 = leaf t1 ++ leaf t1.
Proof.
  intros Hcl Hs Hroot Hfresh.
  set (t0 := mkDCTree s [] []).
  set (hs := <[s := set_visited true nd]> h).
  destruct (for_bfs_start h s nd t0 Hcl Hs) as (out & h1 & Hrun & Hfor). fold hs in Hrun.
  assert (adj hs = adj h) as Hadjs by (by eapply adj_insert).
  pose proof (bfs_inv_init h s nd Hs Hfresh) as Hinv.
  pose proof (bfs_run_post h s _ s [] out h1 [] Hrun Hcl Hinv)
    as [Hadj1 Hnd1 _ Hreach1 Hvis1 _]. cbn in *.
  destruct (bfs_run_general hs s [] out h1 Hrun) as (_ & _ & _ & _ & Hsame);
    [by eapply closed_adj|by apply is_visited_set_visited; [|left]|constructor|].
  set (t1 := extended h t0 (s :: out)).
  assert (nodes t1 = s :: out) as Hnodes by done.
  (* the second refresh *)
  destruct (reset_visited_spec (s :: out) h1) as (hr & Hreset & Hadjr & Hin & Hout).
  { apply Forall_forall. intros n Hn. by apply is_visited_lt, Hvis1. }
  assert (adj hr = adj h) as Hadjr' by (by rewrite Hadjr).
  assert (flags hr = flags h) as Hflags.
  { apply list_eq. intros n. destruct (decide (n ∈ s :: out)) as [Hn|Hn].
    - rewrite Hin by done. apply Hreach1 in Hn as Hr. specialize (Hfresh n Hr).
      assert (n < length h)%nat as Hlt.
      { rewrite <-(adj_length _ _ Hadj1). by apply is_visited_lt, Hvis1. }
      destruct (lookup_lt_is_Some_2 h n Hlt) as [x Hx].
      unfold is_visited in Hfresh. rewrite flags_lookup, Hx in *. cbn in *.
      destruct (visited x); [done|done].
    - rewrite !flags_lookup, Hout by done.
      apply not_elem_of_cons in Hn as [Hne Hn]. rewrite Hsame by done.
      unfold hs. by rewrite list_lookup_insert_ne. }
  destruct (lookup_sim h hr s nd) as (ndr & Hsr & _ & _); [done..|].
  destruct (for_bfs_start hr s ndr t1) as (out2 & h2 & Hrun2 & Hfor2);
    [by eapply closed_adj|done|].
  destruct (bfs_run_sim hs (<[s := set_visited true ndr]> hr) s [] out h1 Hrun)
    as (k' & Hrunk & _ & _).
  { rewrite Hadjs, (adj_insert hr s ndr); done. }
  { unfold hs. rewrite (flags_insert h s nd), (flags_insert hr s ndr) by done.
    by rewrite Hflags. }
  destruct (bfs_run_det _ _ _ _ _ _ _ Hrun2 Hrunk) as [-> ->].
  exists t1, h1, (extended hr t1 (s :: out)), k'. split_and!.
  - unfold DCTree_init. rewrite Hs. cbn. unfold is_root. rewrite Hroot. cbn.
    unfold update_struct. cbn. fold t0. by rewrite Hfor.
  - unfold update_struct. rewrite Hnodes, Hreset. cbn. by rewrite Hfor2.
  - by rewrite Hnodes.
  - by rewrite Hnodes.
  - done.
  - done.
  - by rewrite (extended_adj hr h).
Qed.

End Traversal.

Section TraversalExamples.
Import Tree.

(** C4, as the claim has it, fails: when [update_struct] returns for a new
    tree over the diamond, the four nodes the tree now knows are all marked
    visited. *)
Lemma refresh_leaves_visited_counterexample :
  ∃ t h', update_struct (mkDCTree 0 [] []) None Samples.diamond = Some (t, h') ∧
    nodes t = [0; 1; 2; 3]%nat ∧
    visited <$> h' = [true; true; true; true].
Proof. do 2 eexists. split; [reflexivity|]. split; reflexivity. Qed.


Lemma diamond_closed : closed Samples.diamond.
Proof. repeat constructor. Qed.

Lemma diamond_fresh n : ¬ is_visited Samples.diamond n.
Proof. unfold is_visited. by destruct n as [|[|[|[|n]]]]. Qed.

Lemma bfs_yields_reachable_once_witness :
  closed Samples.diamond ∧
  (∀ n, reachable Samples.diamond 0 n → ¬ is_visited Samples.diamond n) ∧
  ∃ h',
    for_bfs (bfs_fuel Samples.diamond) (_bfs 0) Samples.diamond (mkDCTree 0 [] []) =
      Some (mkDCTree 0 [0; 1; 2; 3]%nat [3%nat], h') ∧
    span_parent <$> h' !! 3%nat = Some (Some 1%nat) ∧
    distance <$> h' !! 3%nat = Some 2.
Proof.
  split; [exact diamond_closed|]. split; [intros n _; apply diamond_fresh|].
  destruct (bfs_yields_reachable_once Samples.diamond 0 (mkDCTree 0 [] []))
    as (_ & out & h' & Hfor & _).
  - exact diamond_closed.
  - cbn. lia.
  - intros n _. apply diamond_fresh.
  - vm_compute in Hfor. injection Hfor as _ _ <-. eexists. split; [reflexivity|].
    split; reflexivity.
Defined.

Lemma update_struct_marks_visited_witness :
  let t := mkDCTree 0 [0; 1; 2; 3]%nat [3%nat] in
  let seen := set_visited true <$> Samples.diamond in
  closed seen ∧
  flags seen = [true; true; true; true] ∧
  (∃ h', update_struct t (Some 1%nat) seen =
           Some (mkDCTree 0 [0; 1; 2; 3; 1; 3]%nat [3; 3]%nat, h') ∧
         flags h' = [false; true; false; true]) ∧
  (∃ k', update_struct t (Some 1%nat) Samples.diamond =
           Some (mkDCTree 0 [0; 1; 2; 3; 1; 3]%nat [3; 3]%nat, k') ∧
         flags k' = [false; true; false; true]).
Proof.
  intros t seen.
  assert (closed seen) as Hcl by (repeat constructor).
  split; [exact Hcl|]. split; [reflexivity|].
  destruct (update_struct_marks_visited t (Some 1%nat) seen)
    as (out & h' & Hup & _ & _ & _ & Hany).
  - exact Hcl.
  - repeat constructor.
  - cbn. lia.
  - destruct (Hany Samples.diamond) as (k' & Hupk & Hflk).
    + reflexivity.
    + intros n Hn. destruct n as [|[|[|[|n]]]]; try reflexivity.
      all: exfalso; apply Hn; repeat constructor.
    + pose proof Hup as Hrun.
      set (res := update_struct t (Some 1%nat) seen) in Hrun. vm_compute in res. subst res.
      apply (inj Some), pair_equal_spec in Hrun as [Ht Hh].
      split.
      * exists h'. rewrite Hup, <-Ht, <-Hh. split; reflexivity.
      * exists k'. rewrite Hupk, Hflk, <-Ht, <-Hh. split; reflexivity.
Defined.

Lemma update_struct_twice_duplicates_witness :
  closed Samples.diamond ∧
  ∃ t1 h1 t2 h2,
    DCTree_init 0 Samples.diamond = Some (Ok t1, h1) ∧
    update_struct t1 None h1 = Some (t2, h2) ∧
    nodes t1 = [0; 1; 2; 3]%nat ∧ leaf t1 = [3%nat] ∧
    nodes t2 = [0; 1; 2; 3; 0; 1; 2; 3]%nat ∧ leaf t2 = [3; 3]%nat.
Proof.
  split; [exact diamond_closed|].
  destruct (update_struct_twice_duplicates Samples.diamond 0 (Samples.fresh [1; 2]%nat))
    as (t1 & h1 & t2 & h2 & Hinit & Hup & _ & _ & _ & Hn & Hl).
  - exact diamond_closed.
  - reflexivity.
  - reflexivity.
  - intros n _. apply diamond_fresh.
  - exists t1, h1, t2, h2. vm_compute in Hinit. injection Hinit as <- <-.
    split; [reflexivity|]. split; [exact Hup|]. rewrite Hn, Hl. by split_and!.
Defined.

End TraversalExamples.

(** * Properties of the query builder *)

Section BuildQuery.
Import Tree Monitor.

Implicit Types (self : Monitor) (entity : ManagedObject)
  (counter_ids : option (list Z)) (instances : option (list string))
  (interval : option Z) (start : option datetime)
  (max_samples : option Z) (fmt : string).

(** An absent [start] is the only false one, and [max_samples] is false
    when absent or zero. *)
Lemma truthy_start start : truthy start = false ↔ start = None.
Proof. destruct start; split; done. Qed.

Lemma truthy_max_samples max_samples :
  truthy max_samples = false ↔ max_samples = None ∨ max_samples = Some 0.
Proof.
  destruct max_samples as [z|]; cbn; [|by split; [left|]].
  unfold truthy, truthy_int. destruct (Z.eqb_spec z 0) as [->|Hz]; cbn.
  - split; [by right|done].
  - split; [done|]. intros [?|?]; [done|]. destruct Hz. congruence.
Qed.

Lemma is_in_Some i (his : list Z) : is_in (Some i) his = true ↔ i ∈ his.
Proof. unfold is_in. by rewrite bool_decide_eq_true. Qed.


(** Once the time bounds and the format are accepted, the call is decided
    by [resolve_interval]. *)
Lemma build_query_resolved self entity counter_ids instances interval start
    (end_ : option datetime) max_samples fmt :
  truthy max_samples || truthy start = true →
  fmt ∈ ["csv"; "normal"] →
  _build_query self entity counter_ids instances interval start end_ max_samples fmt =
  match resolve_interval self interval with
  | Raise e => (Raise e, [])
  | Ok iv =>
      (Ok (mkQuerySpec entity
             (c ← default [] counter_ids; i ← default ["*"] instances; [mkMetricId c i])
             iv start end_ max_samples fmt),
       if is_in iv (historical_intervals self) && truthy max_samples
       then [max_samples_ignored] else [])
  end.
Proof.
  intros Hb Hf. unfold _build_query. rewrite Hb. cbn [negb].
  rewrite (bool_decide_eq_true_2 _ Hf). cbn [negb].
  by destruct (resolve_interval self interval).
Qed.



(** C5, as the claim has it, fails: [max_samples=0] is supplied, and the
    call still raises the missing-time-bounds [TypeError]. *)
Lemma missing_time_bounds_counterexample :
  let max_samples := Some 0 in
  max_samples ≠ None ∧
  (_build_query Samples.realtime_monitor (OVirtualMachine Samples.vm_a) (Some [6])
     (Some ["*"]) None None None max_samples "normal").1 = Raise missing_time_bounds.
Proof. split; [done|reflexivity]. Qed.

(** C5, amended: the call raises the missing-time-bounds [TypeError]
    exactly when [start] is absent and [max_samples] is absent or zero,
    whatever [end] is; with a [start], or with a non-zero [max_samples],
    this error is not raised. *)
Theorem build_query_missing_time_bounds self entity counter_ids instances interval start
    (end_ : option datetime) max_samples fmt :
  (_build_query self entity counter_ids instances interval start end_ max_samples fmt).1
    = Raise (TypeError "A time range or sample limit should be specified")
  ↔ start = None ∧ (max_samples = None ∨ max_samples = Some 0).
Proof.
  rewrite <-truthy_start, <-truthy_max_samples. unfold _build_query.
  destruct (truthy max_samples), (truthy start); cbn [orb negb];
    try (split; [|by intros [??]]); try by split.
  all: case_bool_decide; cbn [negb]; [|done].
  all: unfold resolve_interval.
  all: repeat case_match; simplify_eq/=; done.
Qed.

(** C9: with [max_samples=0] and a false [start] (an absent one is the
    only such), the call raises the missing-time-bounds [TypeError], though
    [max_samples] was supplied. *)
Theorem build_query_zero_max_samples self entity counter_ids instances interval start
    (end_ : option datetime) fmt :
  truthy start = false →
  _build_query self entity counter_ids instances interval start end_ (Some 0) fmt =
    (Raise (TypeError "A time range or sample limit should be specified"), []).
Proof. intros Hs. unfold _build_query. by rewrite Hs. Qed.

Lemma build_query_zero_max_samples_witness :
  truthy (None : option datetime) = false ∧
  _build_query Samples.realtime_monitor (OVirtualMachine Samples.vm_a) (Some [6])
     (Some ["*"]) (Some 20) None (Some (mkDatetime 500)) (Some 0) "csv" =
    (Raise (TypeError "A time range or sample limit should be specified"), []).
Proof.
  split; [reflexivity|].
  apply (build_query_zero_max_samples Samples.realtime_monitor); reflexivity.
Defined.

(** C7, as the claim has it, fails: with [max_samples=0] supplied next to a
    time range and the historical interval 7200, the call succeeds without
    any warning. *)
Lemma max_samples_warning_counterexample :
  let self := Samples.realtime_monitor in
  let max_samples := Some 0 in
  max_samples ≠ None ∧
  resolve_interval self (Some 7200) = Ok (Some 7200) ∧
  7200 ∈ historical_intervals self ∧
  ∃ q, _build_query self (OVirtualMachine Samples.vm_a) (Some [6]) (Some ["*"])
         (Some 7200) (Some (mkDatetime 100)) None max_samples "normal" = (Ok q, []).
Proof. split_and!; [done|reflexivity|compute_done|by eexists]. Qed.

(** C7, amended: when the format is accepted, the resolved interval is an
    enabled historical interval and [max_samples] is supplied and not zero,
    the call issues the one warning that [max_samples] will not apply, and
    returns the query all the same.  A [max_samples] of 0 draws no
    warning, whatever the other arguments are: the call then raises without
    a warning or, given a start time, an accepted format and an interval
    that resolves, returns the query without a warning. *)
Theorem build_query_max_samples_warning self entity counter_ids instances interval start
    (end_ : option datetime) max_samples fmt :
  let call :=
    _build_query self entity counter_ids instances interval start end_ max_samples fmt in
  let query iv :=
    mkQuerySpec entity
      (c ← default [] counter_ids; i ← default ["*"] instances; [mkMetricId c i])
      iv start end_ max_samples fmt in
  (∀ iv,
     fmt ∈ ["csv"; "normal"] →
     resolve_interval self interval = Ok iv →
     is_in iv (historical_intervals self) = true →
     truthy max_samples = true →
     call =
       (Ok (query iv),
        [RuntimeWarning
           "max_samples will not apply because interval specified is not real-time, use a time range instead"])) ∧
  (max_samples = Some 0 → call.2 = []) ∧
  (∀ iv,
     max_samples = Some 0 →
     truthy start = true →
     fmt ∈ ["csv"; "normal"] →
     resolve_interval self interval = Ok iv →
     call = (Ok (query iv), [])).
Proof.
  intros call query. subst call query. split_and!.
  - intros iv Hf Hr Hh Hm.
    rewrite build_query_resolved by (by rewrite ?Hm).
    by rewrite Hr, Hh, Hm.
  - intros ->. unfold _build_query.
    destruct (negb _); [done|]. destruct (negb _); [done|].
    destruct (resolve_interval self interval); [|done].
    cbn. by rewrite andb_false_r.
  - intros iv -> Hs Hf Hr.
    rewrite build_query_resolved by (done || by rewrite Hs).
    rewrite Hr. cbn. by rewrite andb_false_r.
Qed.

Lemma build_query_max_samples_warning_witness :
  let self := Samples.realtime_monitor in
  let vm := OVirtualMachine Samples.vm_a in
  "normal" ∈ ["csv"; "normal"] ∧
  resolve_interval self (Some 7200) = Ok (Some 7200) ∧
  is_in (Some 7200) (historical_intervals self) = true ∧
  truthy (Some 1) = true ∧
  _build_query self vm (Some [6]) (Some ["*"]) (Some 7200) None None (Some 1) "normal" =
    (Ok (mkQuerySpec vm [mkMetricId 6 "*"] (Some 7200) None None (Some 1) "normal"),
     [RuntimeWarning
        "max_samples will not apply because interval specified is not real-time, use a time range instead"]) ∧
  truthy (Some (mkDatetime 100)) = true ∧
  _build_query self vm (Some [6]) (Some ["*"]) (Some 7200) (Some (mkDatetime 100)) None
      (Some 0) "normal" =
    (Ok (mkQuerySpec vm [mkMetricId 6 "*"] (Some 7200) (Some (mkDatetime 100)) None
           (Some 0) "normal"), []) ∧
  (_build_query self vm (Some [6]) (Some ["*"]) (Some 7200) None None (Some 0) "normal").2 = [].
Proof.
  intros self vm.
  assert ("normal" ∈ ["csv"; "normal"]) as Hf by compute_done.
  split_and!; [exact Hf|reflexivity..| | | |].
  - apply (build_query_max_samples_warning self vm (Some [6]) (Some ["*"]) (Some 7200)
             None None (Some 1) "normal"); [exact Hf|reflexivity..].
  - reflexivity.
  - apply (build_query_max_samples_warning self vm (Some [6]) (Some ["*"]) (Some 7200)
             (Some (mkDatetime 100)) None (Some 0) "normal"); [reflexivity..|exact Hf|reflexivity].
  - apply (build_query_max_samples_warning self vm (Some [6]) (Some ["*"]) (Some 7200)
             None None (Some 0) "normal"). reflexivity.
Defined.

(** C10: the entity passed to [_build_query] decides nothing.  The provider
    information is read by [query_provider] from the first virtual machine
    of the view and kept in the monitor; for two entities and the same
    monitor and other arguments, the two calls raise the same exception, or
    return queries that agree on the interval and on every field but
    [entity]; the warnings agree too. *)
Theorem build_query_entity_independent self e1 e2 counter_ids instances interval start
    (end_ : option datetime) max_samples fmt :
  (∀ v vs, vm_view self = v :: vs →
     ∃ self', query_provider self = Ok self' ∧
       let p := QueryPerfProviderSummary (perf_manager self) (OVirtualMachine v) in
       current_supported self' = Some (currentSupported p) ∧
       summary_supported self' = Some (summarySupported p) ∧
       refresh_rate self' = refreshRate p) ∧
  match _build_query self e1 counter_ids instances interval start end_ max_samples fmt,
        _build_query self e2 counter_ids instances interval start end_ max_samples fmt with
  | (Raise x1, w1), (Raise x2, w2) => x1 = x2 ∧ w1 = w2
  | (Ok q1, w1), (Ok q2, w2) =>
      w1 = w2 ∧ entity q1 = e1 ∧ entity q2 = e2 ∧
      intervalId q1 = intervalId q2 ∧
      q2 = mkQuerySpec e2 (metricId q1) (intervalId q1) (startTime q1) (endTime q1)
                       (maxSample q1) (format q1)
  | _, _ => False
  end.
Proof.
  split.
  - intros v vs Hv. unfold query_provider. rewrite Hv. by eexists.
  - unfold _build_query. repeat case_match; simplify_eq/=; done.
Qed.

Lemma build_query_entity_independent_witness :
  let self := Samples.realtime_monitor in
  vm_view self = [Samples.vm_a; Samples.vm_b] ∧
  (query_provider self = Ok self) ∧
  (_build_query self (OVirtualMachine Samples.vm_a) (Some [6]) None None None None
     (Some 1) "normal").1 =
    Ok (mkQuerySpec (OVirtualMachine Samples.vm_a) [mkMetricId 6 "*"] (Some 20) None None
          (Some 1) "normal") ∧
  (_build_query self (OHost Samples.bare_host) (Some [6]) None None None None
     (Some 1) "normal").1 =
    Ok (mkQuerySpec (OHost Samples.bare_host) [mkMetricId 6 "*"] (Some 20) None None
          (Some 1) "normal").
Proof.
  intros self.
  pose proof (build_query_entity_independent self (OVirtualMachine Samples.vm_a)
    (OHost Samples.bare_host) (Some [6]) None None None None (Some 1) "normal") as [H1 H2].
  split; [reflexivity|].
  destruct (H1 Samples.vm_a [Samples.vm_b] eq_refl) as (self' & Hq & _).
  split; [reflexivity|].
  split; [reflexivity|].
  revert H2. vm_compute. by intros (_ & _ & _ & _ & _).
Defined.

End BuildQuery.

(** * Properties of the reshaping of provider results *)

Section Reshape.
Import Tree Monitor.

Implicit Types (self : Monitor) (data : DataFrame) (v : PerfMetricSeries)
  (r : EntityMetric) (c : PerfCounterInfo).

Lemma relabel_fst {A} (l : list A) : (imap (λ i x, (i, x)) l).*1 = seq 0 (length l).
Proof.
  apply list_eq; intros i. rewrite list_lookup_fmap, list_lookup_imap.
  destruct (l !! i) eqn:E; cbn; symmetry.
  - apply lookup_seq. split; [done|]. by eapply lookup_lt_Some.
  - apply lookup_seq_ge. by apply lookup_ge_None.
Qed.

Lemma relabel_snd {A} (l : list A) : (imap (λ i x, (i, x)) l).*2 = l.
Proof.
  apply list_eq; intros i. rewrite list_lookup_fmap, list_lookup_imap.
  by destruct (l !! i).
Qed.

Lemma append_snd data new_row : (append data new_row).*2 = data.*2 ++ new_row.*2.
Proof. apply relabel_snd. Qed.

Lemma for_samples self si v c (a n : nat) data :
  all_counters self !! counterId (series_id v) = Some c →
  (a + n ≤ length si)%nat →
  (a + n ≤ length (series_value v))%nat →
  ∃ data', for_in (seq a n) (sample_body self si v) data = Ok data' ∧
    data'.*2 = data.*2 ++
      zip_with (row_of v (unitInfo_label c) None) (take n (drop a si))
               (take n (drop a (series_value v))).
Proof.
  intros Hc. revert a data. induction n as [|n IH]; intros a data Hs Hv.
  - exists data. by rewrite app_nil_r.
  - destruct (lookup_lt_is_Some_2 si a) as [s Hsa]; [lia|].
    destruct (lookup_lt_is_Some_2 (series_value v) a) as [x Hxa]; [lia|].
    cbn [seq for_in]. unfold sample_body at 1. rewrite Hsa, Hc, Hxa.
    destruct (IH (S a) (append data [(0%nat, row_of v (unitInfo_label c) None s x)]))
      as (data' & Hd & Hrows); [lia..|].
    exists data'. split; [done|].
    rewrite Hrows, append_snd, <-app_assoc.
    by rewrite (drop_S _ _ _ Hsa), (drop_S _ _ _ Hxa).
Qed.

Lemma for_series self r (vs : list PerfMetricSeries) data :
  Forall (λ v, is_Some (all_counters self !! counterId (series_id v))) vs →
  Forall (λ v, length (series_value v) = length (sampleInfo r)) vs →
  ∃ data',
    for_in vs (λ v, for_in (seq 0 (length (sampleInfo r)))
                           (sample_body self (sampleInfo r) v)) data = Ok data' ∧
    data'.*2 = data.*2 ++
      expected_rows self None (mkEntityMetric (sampleInfo r) vs).
Proof.
  revert data. induction vs as [|v vs IH]; intros data Hc Hl.
  - exists data. by rewrite app_nil_r.
  - apply Forall_cons in Hc as [[c Hc] Hcs]. apply Forall_cons in Hl as [Hl Hls].
    destruct (for_samples self (sampleInfo r) v c 0 (length (sampleInfo r)) data)
      as (data1 & H1 & Hr1); [done|lia..|].
    destruct (IH data1 Hcs Hls) as (data' & H2 & Hr2).
    exists data'. cbn [for_in]. rewrite H1. split; [done|].
    rewrite Hr2, Hr1, <-app_assoc. f_equal.
    unfold expected_rows. cbn. rewrite Hc. cbn. f_equal.
    rewrite drop_0, firstn_all, <-Hl, firstn_all. done.
Qed.

Lemma set_name_fst n data : (set_name n data).*1 = data.*1.
Proof. unfold set_name. rewrite <-list_fmap_compose. by apply list_fmap_ext. Qed.

Lemma set_name_snd n data : (set_name n data).*2 = name_row n <$> data.*2.
Proof. unfold set_name. rewrite <-!list_fmap_compose. by apply list_fmap_ext. Qed.

Lemma name_row_key n (rows : list Row) : col_key <$> (name_row n <$> rows) = col_key <$> rows.
Proof. rewrite <-list_fmap_compose. by apply list_fmap_ext. Qed.

Lemma name_row_zip n v u (ss : list PerfSampleInfo) (xs : list Z) :
  name_row n <$> zip_with (row_of v u None) ss xs = zip_with (row_of v u (Some n)) ss xs.
Proof.
  revert xs. induction ss as [|s ss IH]; intros [|x xs]; try done.
  cbn. f_equal. apply IH.
Qed.

Lemma expected_rows_named self n r :
  name_row n <$> expected_rows self None r = expected_rows self (Some n) r.
Proof.
  unfold expected_rows. induction (value r) as [|v vs IH]; [done|].
  cbn. rewrite fmap_app, IH. f_equal. apply name_row_zip.
Qed.

Lemma length_expected_rows self n r :
  Forall (λ v, length (series_value v) = length (sampleInfo r)) (value r) →
  length (expected_rows self n r) = (length (value r) * length (sampleInfo r))%nat.
Proof.
  unfold expected_rows. induction 1 as [|v vs Hv _ IH]; [done|].
  cbn. rewrite length_app, IH, length_zip_with_l_eq by done. done.
Qed.

Lemma length_singletons {A B} (f : A → B) (l : list A) :
  length (x ← l; [f x]) = length l.
Proof. induction l as [|x l IH]; [done|]. cbn. by f_equal. Qed.

Lemma length_pairs (cs : list Z) (insts : list string) :
  length (c ← cs; i ← insts; [mkMetricId c i]) = (length cs * length insts)%nat.
Proof.
  induction cs as [|c cs IH]; [done|]. cbn.
  by rewrite length_app, IH, length_singletons.
Qed.

Lemma by_key_total : Total by_key.
Proof. intros a b. unfold by_key. lia. Qed.

Lemma sort_values_sorted data : Sorted Z.le (col_key <$> (sort_values data).*2).
Proof.
  rewrite <-list_fmap_compose.
  apply (Sorted_fmap _ by_key); [done|]. apply (@Sorted_merge_sort _ by_key _ by_key_total).
Qed.

(** C8: a provider result with one value series for each pair of [N]
    counters and [M] instances, each series parallel to the [K] sample
    timestamps, and counters known to the catalog, is reshaped into exactly
    [N * M * K] rows: the expected rows (counter id, instance, timestamp,
    value, unit, entity name) in ascending order of counter id, labelled
    0, 1, ..., [N * M * K - 1]. *)
Theorem reshape_rows self entity counter_ids instances r w
    (cs : list Z) (insts : list string) :
  realtime_stats self entity counter_ids instances = (Ok [r], w) →
  series_id <$> value r ≡ₚ (c ← cs; i ← insts; [mkMetricId c i]) →
  Forall (λ v, length (series_value v) = length (sampleInfo r)) (value r) →
  Forall (λ k, is_Some (all_counters self !! k)) cs →
  ∃ data, latest_stats_by_specs self entity counter_ids instances = (Ok data, w) ∧
    length data = (length cs * length insts * length (sampleInfo r))%nat ∧
    data.*2 ≡ₚ expected_rows self (Some (name entity)) r ∧
    Sorted Z.le (col_key <$> data.*2) ∧
    data.*1 = seq 0 (length data).
Proof.
  intros Hq Hp Hl Hc.
  assert (Forall (λ v, is_Some (all_counters self !! counterId (series_id v))) (value r))
    as Hcv.
  { apply Forall_forall. intros v Hv.
    assert (series_id v ∈ (c ← cs; i ← insts; [mkMetricId c i])) as Hin.
    { rewrite <-Hp. by apply list_elem_of_fmap_2. }
    apply list_elem_of_bind in Hin as (c & Hin & Hcin).
    apply list_elem_of_bind in Hin as (i & Hin & _).
    apply list_elem_of_singleton in Hin. rewrite Hin. cbn.
    by eapply Forall_forall in Hc. }
  destruct (for_series self r (value r) [] Hcv Hl) as (data0 & Hd & Hrows).
  assert (mkEntityMetric (sampleInfo r) (value r) = r) as Hr by (by destruct r).
  rewrite Hr in Hrows. cbn in Hrows.
  assert (length data0 = (length cs * length insts * length (sampleInfo r))%nat) as Hlen.
  { rewrite <-(length_fmap snd), Hrows, length_expected_rows by done.
    by rewrite <-(length_fmap series_id), Hp, length_pairs. }
  unfold latest_stats_by_specs. rewrite Hq. unfold reshape. cbn [for_in]. rewrite Hd.
  eexists. split; [done|].
  assert (length (sort_values data0) = length data0) as Hsl.
  { unfold sort_values. by rewrite merge_sort_Permutation. }
  split_and!.
  - unfold set_name, reset_index.
    by rewrite length_fmap, length_imap, length_fmap, Hsl.
  - rewrite set_name_snd. unfold reset_index. rewrite relabel_snd.
    unfold sort_values. rewrite merge_sort_Permutation, Hrows.
    by rewrite expected_rows_named.
  - rewrite set_name_snd, name_row_key. unfold reset_index. rewrite relabel_snd.
    apply sort_values_sorted.
  - rewrite set_name_fst. unfold reset_index at 1. rewrite relabel_fst.
    unfold set_name, reset_index. by rewrite !length_fmap, length_imap, length_fmap.
Qed.

Lemma reshape_rows_witness :
  let self := Samples.realtime_monitor in
  let entity := OVirtualMachine Samples.vm_a in
  (∃ data, latest_stats_by_specs self entity (Some [6; 2]) (Some ["a"; "b"]) = (Ok data, []) ∧
     length data = 8%nat ∧
     col_key <$> data.*2 = [2; 2; 2; 2; 6; 6; 6; 6] ∧
     data.*1 = [0; 1; 2; 3; 4; 5; 6; 7]%nat).
Proof.
  intros self entity.
  destruct (reshape_rows self entity (Some [6; 2]) (Some ["a"; "b"])
              (mkEntityMetric Samples.sample2
                 [mkPerfMetricSeries (mkMetricId 6 "a") [11; 12];
                  mkPerfMetricSeries (mkMetricId 6 "b") [21; 22];
                  mkPerfMetricSeries (mkMetricId 2 "a") [31; 32];
                  mkPerfMetricSeries (mkMetricId 2 "b") [41; 42]])
              [] [6; 2] ["a"; "b"]) as (data & Hd & Hlen & _ & _ & Hidx).
  - reflexivity.
  - reflexivity.
  - repeat constructor.
  - repeat constructor; by eexists.
  - exists data. split; [done|]. split; [done|].
    revert Hd. vm_compute. intros [= <-]. done.
Defined.

End Reshape.

(** * Properties of the inventory builder *)

Section Builder.
Import Tree Monitor.

Implicit Types (h : heap ManagedObject) (s : State ManagedObject) (p c r : ref).

Lemma skeleton_lookup h c : skeleton h !! c = frozen <$> h !! c.
Proof. apply list_lookup_fmap. Qed.

Lemma node_at_frame h h' c ps v cs :
  skeleton h' !! c = skeleton h !! c → node_at h c ps v cs → node_at h' c ps v cs.
Proof. intros E [i Hi]. exists i. by rewrite E. Qed.

Lemma node_at_is_Some h c ps v cs : node_at h c ps v cs → is_Some (h !! c).
Proof.
  intros [i Hi]. rewrite skeleton_lookup in Hi. by destruct (h !! c).
Qed.

Lemma agrees_above_lt p c h h' : (p < c)%nat → agrees_above p h h' → agrees_above c h h'.
Proof. intros Hlt Ha m Hm. apply Ha. lia. Qed.

Lemma vm_node_frame h h' p c v : agrees_above p h h' → vm_node h p c v → vm_node h' p c v.
Proof.
  intros Ha [Hlt Hn]. split; [done|].
  eapply node_at_frame; [|done]. apply Ha; [done|]. by eapply node_at_is_Some.
Qed.

Lemma host_node_frame h h' p c hs :
  agrees_above p h h' → host_node h p c hs → host_node h' p c hs.
Proof.
  intros Ha (Hlt & cs & Hn & Hvms). split; [done|]. exists cs. split.
  - eapply node_at_frame; [|done]. apply Ha; [done|]. by eapply node_at_is_Some.
  - eapply Forall2_impl; [done|]. intros c' v. apply vm_node_frame.
    by eapply agrees_above_lt.
Qed.

Lemma cr_node_frame h h' p c cr :
  agrees_above p h h' → cr_node h p c cr → cr_node h' p c cr.
Proof.
  intros Ha (Hlt & cs & Hn & Hhs). split; [done|]. exists cs. split.
  - eapply node_at_frame; [|done]. apply Ha; [done|]. by eapply node_at_is_Some.
  - eapply Forall2_impl; [done|]. intros c' hs. apply host_node_frame.
    by eapply agrees_above_lt.
Qed.

Lemma child_node_frame h h' p c o :
  agrees_above p h h' → child_node h p c o → child_node h' p c o.
Proof. destruct o; [apply host_node_frame|apply cr_node_frame]. Qed.

Lemma dc_node_skeleton h h' r dc : skeleton h' = skeleton h → dc_node h r dc → dc_node h' r dc.
Proof.
  intros E (cs & Hn & Hcs). exists cs. split.
  - eapply node_at_frame; [|done]. by rewrite E.
  - eapply Forall2_impl; [done|]. intros c o. apply child_node_frame.
    intros m _ _. by rewrite E.
Qed.

Lemma closed_lookup h :
  closed h ↔ ∀ m nd, h !! m = Some nd → Forall (λ c, (c < length h)%nat) (children nd).
Proof.
  unfold closed. rewrite Forall_lookup. split.
  - intros H m nd Hm. apply (H m). by rewrite adj_lookup, Hm.
  - intros H m cs Hm. rewrite adj_lookup in Hm.
    destruct (h !! m) as [nd|] eqn:E; [|done]. injection Hm as <-. by eapply H.
Qed.

Lemma set_children_set_children (cs cs' : list ref) (nd : Node ManagedObject) :
  set_children cs (set_children cs' nd) = set_children cs nd.
Proof. done. Qed.

Lemma grows_refl p s : is_Some (objs s !! p) → grows p [] s s.
Proof.
  intros [np Hp]. exists np. split_and!; try done.
  rewrite Hp, app_nil_r. by destruct np.
Qed.

Lemma grows_trans p cs1 cs2 s s1 s2 :
  grows p cs1 s s1 → grows p cs2 s1 s2 → grows p (cs1 ++ cs2) s s2.
Proof.
  intros (np & Hp & Hp1 & Hsame1 & Hlen1 & Hcs1 & Hcl1)
         (np1 & Hp1' & Hp2 & Hsame2 & Hlen2 & Hcs2 & Hcl2).
  rewrite Hp1 in Hp1'. injection Hp1' as <-.
  exists np. split_and!; [done| | |lia| |by auto].
  - rewrite Hp2. cbn. by rewrite <-app_assoc.
  - intros m nd Hm Hnd. by apply Hsame2, Hsame1.
  - apply Forall_app. split.
    + eapply Forall_impl; [exact Hcs1|]. intros c ?. cbn in *. lia.
    + eapply Forall_impl; [exact Hcs2|]. intros c ?. cbn in *. lia.
Qed.

(** Attaching below a new object [c] leaves what was attached to [p]. *)
Lemma grows_below p c cs cs' s s1 s2 :
  grows p cs s s1 → grows c cs' s1 s2 → (length (objs s) ≤ c)%nat → grows p cs s s2.
Proof.
  intros (np & Hp & Hp1 & Hsame1 & Hlen1 & Hcs1 & Hcl1)
         (nc & Hc & Hc2 & Hsame2 & Hlen2 & Hcs2 & Hcl2) Hnew.
  assert (p < length (objs s))%nat as Hplt by (by eapply lookup_lt_Some).
  exists np. split_and!; [done| | |lia| |by auto].
  - apply Hsame2; [lia|done].
  - intros m nd Hm Hnd. apply Hsame2; [|by apply Hsame1].
    apply lookup_lt_Some in Hnd. lia.
  - eapply Forall_impl; [exact Hcs1|]. intros c' ?. cbn in *. lia.
Qed.

Lemma grows_agrees p cs s s' : grows p cs s s' → agrees_above p (objs s) (objs s').
Proof.
  intros (np & Hp & Hp1 & Hsame & _) m Hm [nd Hnd].
  rewrite !skeleton_lookup, Hnd. by rewrite (Hsame m nd) by (done || lia).
Qed.

Lemma grows_is_Some p cs s s' : grows p cs s s' → is_Some (objs s' !! p).
Proof. intros (np & _ & Hp1 & _). eauto. Qed.

(** [c = Node([p], v, []); p.children.append(c)] and what follows it. *)
Lemma new_child_spec {B} p v (k : ref → M B) s :
  is_Some (objs s !! p) →
  let c := length (objs s) in
  ∃ s1, (c' ← new_node [p] v []; append_child p c';; k c') s = k c s1 ∧
    grows p [c] s s1 ∧ (p < c)%nat ∧
    objs s1 !! c = Some (mkNode [p] v [] (global_id s) false None 0).
Proof.
  intros [np Hp] c.
  assert (p < c)%nat as Hlt by (by eapply lookup_lt_Some).
  set (nc := mkNode [p] v [] (global_id s) false None 0).
  set (h1 := objs s ++ [nc]).
  set (h2 := <[p := set_children (children np ++ [c]) np]> h1).
  assert (h1 !! p = Some np) as Hp1 by (by unfold h1; rewrite lookup_app_l).
  exists (mkState h2 (global_id s + 1)). split_and!; [| |done|].
  - unfold mbind, M_bind, bind, new_node, Node_init, append_child. cbn.
    fold nc h1 c. rewrite Hp1. done.
  - exists np. cbn. split_and!; [done| | | | |].
    + unfold h2. rewrite list_lookup_insert_eq; [done|]. by eapply lookup_lt_Some.
    + intros m nd Hm Hnd. unfold h2. rewrite list_lookup_insert_ne by done.
      unfold h1. by rewrite lookup_app_l by (by eapply lookup_lt_Some).
    + unfold h2, h1. rewrite length_insert, length_app. lia.
    + constructor; [|done]. unfold h2, h1. rewrite length_insert, length_app. cbn.
      unfold c. lia.
    + rewrite !closed_lookup. intros Hcl m nd Hnd.
      assert (length h2 = S c) as Hl.
      { unfold h2, h1. rewrite length_insert, length_app. cbn. unfold c. lia. }
      rewrite Hl. unfold h2 in Hnd.
      destruct (decide (m = p)) as [->|Hm].
      * rewrite list_lookup_insert_eq in Hnd by (by eapply lookup_lt_Some).
        injection Hnd as <-. cbn. apply Forall_app. split.
        -- eapply Forall_impl; [by eapply Hcl|]. intros c' ?. cbn in *. unfold c. lia.
        -- constructor; [lia|done].
      * rewrite list_lookup_insert_ne in Hnd by done. unfold h1 in Hnd.
        apply lookup_app_Some in Hnd as [Hnd|[_ Hnd]].
        -- eapply Forall_impl; [by eapply Hcl|]. intros c' ?. cbn in *. unfold c. lia.
        -- apply list_lookup_singleton_Some in Hnd as [_ <-]. constructor.
  - cbn. unfold h2. rewrite list_lookup_insert_ne by lia.
    unfold h1. rewrite lookup_app_r by done. by rewrite Nat.sub_diag.
Qed.

(** A loop that attaches one subtree per element of [l] below [p]. *)
Lemma for_each_grows {A} (R : heap ManagedObject → ref → ref → A → Prop)
    (body : A → M unit) (l : list A) p s :
  (∀ h h' c a, agrees_above p h h' → R h p c a → R h' p c a) →
  (∀ a s, is_Some (objs s !! p) →
     ∃ s', body a s = Some (tt, s') ∧ grows p [length (objs s)] s s' ∧
           R (objs s') p (length (objs s)) a) →
  is_Some (objs s !! p) →
  ∃ s' cs, for_each l body s = Some (tt, s') ∧ grows p cs s s' ∧
           Forall2 (R (objs s') p) cs l.
Proof.
  intros Hframe Hbody. revert s. induction l as [|a l IH]; intros s Hp.
  { exists s, []. split_and!; [done|by apply grows_refl|constructor]. }
  destruct (Hbody a s Hp) as (s1 & Hrun & Hg1 & HR).
  destruct (IH s1) as (s' & cs & Hrest & Hg & Hall); [by eapply grows_is_Some|].
  exists s', (length (objs s) :: cs). split_and!.
  - cbn [for_each]. unfold mbind, M_bind, bind. by rewrite Hrun.
  - by apply (grows_trans p [_] cs s s1 s').
  - constructor; [|done]. eapply Hframe; [|done]. by eapply grows_agrees.
Qed.

Lemma grows_node_at p cs s s' ps v i :
  objs s !! p = Some (mkNode ps v [] i false None 0) →
  grows p cs s s' → node_at (objs s') p ps v cs.
Proof.
  intros Hp (np & Hp' & Hp1 & _). rewrite Hp in Hp'. injection Hp' as <-.
  exists i. by rewrite skeleton_lookup, Hp1.
Qed.

Lemma attach_vms_spec p hs s :
  is_Some (objs s !! p) →
  ∃ s' cs, attach_vms p hs s = Some (tt, s') ∧ grows p cs s s' ∧
           Forall2 (vm_node (objs s') p) cs (vm hs).
Proof.
  intros Hp. unfold attach_vms.
  apply (for_each_grows vm_node); [by intros; eapply vm_node_frame| |done].
  intros v s0 Hp0.
  destruct (new_child_spec p (OVirtualMachine v) (λ _, mret tt) s0 Hp0)
    as (s1 & Hrun & Hg & Hlt & Hc).
  exists s1. split_and!; [|done|].
  - revert Hrun. unfold mbind, M_bind, bind, mret, M_ret, ret. cbn.
    destruct (append_child _ _ _) as [[[] ?]|]; [|done]. done.
  - split; [done|]. eexists. by rewrite skeleton_lookup, Hc.
Qed.

(** [cr_child = Node([p], h, []); p.children.append(cr_child)] followed by
    the loop over the virtual machines of [h]. *)
Lemma host_body_spec p hs s :
  is_Some (objs s !! p) →
  ∃ s', (cr_child ← new_node [p] (OHost hs) [];
         append_child p cr_child;; attach_vms cr_child hs) s = Some (tt, s') ∧
    grows p [length (objs s)] s s' ∧
    host_node (objs s') p (length (objs s)) hs.
Proof.
  intros Hp.
  destruct (new_child_spec p (OHost hs) (λ c, attach_vms c hs) s Hp)
    as (s1 & Hrun & Hg & Hlt & Hc).
  destruct (attach_vms_spec (length (objs s)) hs s1) as (s2 & cs & Hvms & Hg2 & Hall);
    [by eauto|].
  exists s2. split_and!.
  - by rewrite Hrun.
  - by eapply grows_below.
  - split; [done|]. exists cs. split; [|done]. by eapply grows_node_at.
Qed.

Lemma child_body_spec r (h_cr : HostOrCR) s :
  is_Some (objs s !! r) →
  ∃ s', (root_child ← new_node [r] (to_object h_cr) [];
         append_child r root_child;;
         match h_cr with
         | IsHost hst => attach_vms root_child hst
         | IsCR cr =>
             for_each (host cr) (λ hst,
               cr_child ← new_node [root_child] (OHost hst) [];
               append_child root_child cr_child;;
               attach_vms cr_child hst)
         end) s = Some (tt, s') ∧
    grows r [length (objs s)] s s' ∧
    child_node (objs s') r (length (objs s)) h_cr.
Proof.
  intros Hr. destruct h_cr as [hs|cr]; [by apply host_body_spec|].
  destruct (new_child_spec r (OComputeResource cr)
              (λ root_child, for_each (host cr) (λ hst,
                 cr_child ← new_node [root_child] (OHost hst) [];
                 append_child root_child cr_child;;
                 attach_vms cr_child hst)) s Hr)
    as (s1 & Hrun & Hg & Hlt & Hc).
  destruct (for_each_grows host_node
              (λ hst, cr_child ← new_node [length (objs s)] (OHost hst) [];
                      append_child (length (objs s)) cr_child;;
                      attach_vms cr_child hst)
              (host cr) (length (objs s)) s1) as (s2 & cs & Hhosts & Hg2 & Hall).
  - intros. by eapply host_node_frame.
  - intros hs s0 Hp0. by apply host_body_spec.
  - by eauto.
  - exists s2. split_and!.
    + cbn [to_object]. by rewrite Hrun.
    + by eapply grows_below.
    + split; [done|]. exists cs. split; [|done]. by eapply grows_node_at.
Qed.

(** ** No traversal writes to the wiring *)

Lemma skeleton_insert h c (nc nc' : Node ManagedObject) :
  h !! c = Some nc → frozen nc' = frozen nc → skeleton (<[c := nc']> h) = skeleton h.
Proof.
  intros Hc Hf. unfold skeleton. rewrite list_fmap_insert. apply list_insert_id.
  by rewrite list_lookup_fmap, Hc, Hf.
Qed.

Lemma bfs_children_skeleton u (cs : list ref) h q h' q' :
  bfs_children u cs h q = Some (h', q') → skeleton h' = skeleton h.
Proof.
  revert h q. induction cs as [|c cs IH]; intros h q Hrun.
  { by injection Hrun as <- _. }
  cbn [bfs_children] in Hrun.
  destruct (h !! c) as [nc|] eqn:Hc; [|done]. cbn in Hrun.
  destruct (visited nc); [by eapply IH|].
  destruct (h !! u) as [nu|]; [|done]. cbn in Hrun.
  rewrite (IH _ _ Hrun). by eapply skeleton_insert.
Qed.

Lemma bfs_next_skeleton g h y g' h' :
  bfs_next g h = Some (y, g', h') → skeleton h' = skeleton h.
Proof.
  destruct g as [r|u q|]; cbn; intros Hnext.
  - destruct (h !! r) as [nd|] eqn:Hr; [|done]. injection Hnext as _ _ <-.
    by eapply skeleton_insert.
  - destruct (h !! u) as [nd|]; [|done]. cbn in Hnext.
    destruct (bfs_children _ _ _ _) as [[h1 q1]|] eqn:Hc; [|done].
    injection Hnext as _ <-. by eapply bfs_children_skeleton.
  - by injection Hnext as _ _ <-.
Qed.

Lemma for_bfs_skeleton (fuel : nat) g h t t' h' :
  for_bfs fuel g h t = Some (t', h') → skeleton h' = skeleton h.
Proof.
  revert g h t. induction fuel as [|fuel IH]; intros g h t Hfor; [done|].
  cbn [for_bfs] in Hfor.
  destruct (bfs_next g h) as [[[y g1] h1]|] eqn:Hnext; [|done]. cbn in Hfor.
  apply bfs_next_skeleton in Hnext. destruct y as [n|].
  - destruct (h1 !! n) as [nd|]; [|done]. cbn in Hfor.
    rewrite (IH _ _ _ Hfor). done.
  - by injection Hfor as _ <-.
Qed.

Lemma M_bind_Some {A B} (m : M A) (k : A → M B) s a s1 :
  m s = Some (a, s1) → (m ≫= k) s = k a s1.
Proof. intros Hm. unfold mbind, M_bind, bind. by rewrite Hm. Qed.

Lemma closed_new_node h ps v i :
  closed h → closed (h ++ [mkNode ps v [] i false None 0]).
Proof.
  rewrite !closed_lookup. intros Hcl m nd Hnd.
  apply lookup_app_Some in Hnd as [Hnd|[_ Hnd]].
  - eapply Forall_impl; [by eapply Hcl|]. intros c ?. rewrite length_app. cbn in *. lia.
  - apply list_lookup_singleton_Some in Hnd as [_ <-]. constructor.
Qed.

(** C6: from any arena with valid child references, [_build_dc_tree]
    returns a tree whose root is a new node that wraps the datacenter and
    has no parent; the children of the root are, in order, one node per
    host or compute resource that [get_child_objects] resolves from the
    host folder, each with the root as only parent; the node of a bare host
    has one child per virtual machine of the host, in order, each without
    children and with the host node as only parent; the node of a compute
    resource has one child per member host, each with the compute-resource
    node as only parent and with one child per virtual machine, whose only
    parent is the host node.  For the datacenter with one cluster of two
    hosts with one virtual machine each and one bare host without virtual
    machines, the tree has 7 nodes and 3 leaves: the bare host and the two
    virtual machines. *)
Theorem build_dc_tree_wiring dc s :
  closed (objs s) →
  (∃ t s', _build_dc_tree dc s = Some (Ok t, s') ∧
     root t = length (objs s) ∧
     dc_node (objs s') (root t) dc) ∧
  (∃ t s', _build_dc_tree Samples.datacenter (mkState [] 1) = Some (Ok t, s') ∧
     length (nodes t) = 7%nat ∧ length (leaf t) = 3%nat ∧
     (λ n, Tree.value <$> objs s' !! n) <$> leaf t =
       [Some (OHost Samples.bare_host); Some (OVirtualMachine Samples.vm_a);
        Some (OVirtualMachine Samples.vm_b)]).
Proof.
  intros Hcl. split.
  2:{ set (built := _build_dc_tree _ _). vm_compute in built. subst built.
      do 2 eexists. split; [reflexivity|]. by split_and!. }
  set (r := length (objs s)).
  set (nr := mkNode [] (ODatacenter dc) [] (global_id s) false None 0).
  set (s1 := mkState (objs s ++ [nr]) (global_id s + 1)).
  assert (objs s1 !! r = Some nr) as Hr1.
  { cbn. rewrite lookup_app_r by done. by rewrite Nat.sub_diag. }
  destruct (for_each_grows child_node
    (λ h_cr, root_child ← new_node [r] (to_object h_cr) [];
       append_child r root_child;;
       match h_cr with
       | IsHost hst => attach_vms root_child hst
       | IsCR cr =>
           for_each (host cr) (λ hst,
             cr_child ← new_node [root_child] (OHost hst) [];
             append_child root_child cr_child;;
             attach_vms cr_child hst)
       end)
    (get_child_objects (hostFolder dc) []) r s1) as (s2 & cs & Hloop & Hg & Hall).
  { intros. by eapply child_node_frame. }
  { intros o s0 Hp0. by apply child_body_spec. }
  { by eauto. }
  assert (closed (objs s2)) as Hcl2.
  { destruct Hg as (_ & _ & _ & _ & _ & _ & Hc). apply Hc. by apply closed_new_node. }
  pose proof (grows_node_at r cs s1 s2 _ _ _ Hr1 Hg) as Hroot.
  destruct Hg as (nr' & Hr1' & Hr2 & _). rewrite Hr1 in Hr1'. injection Hr1' as <-.
  destruct (for_bfs_start (objs s2) r _ (mkDCTree r [] []) Hcl2 Hr2)
    as (out & h' & _ & Hfor).
  exists (extended (objs s2) (mkDCTree r [] []) (r :: out)), (mkState h' (global_id s2)).
  split_and!; [|done|].
  - unfold _build_dc_tree.
    rewrite (M_bind_Some _ _ s r s1) by done. cbn beta zeta.
    rewrite (M_bind_Some _ _ s1 tt s2 Hloop).
    unfold on_heap, DCTree_init. rewrite Hr2. cbn.
    unfold update_struct. cbn. by rewrite Hfor.
  - cbn. apply (dc_node_skeleton (objs s2)); [|by exists cs].
    by eapply for_bfs_skeleton.
Qed.

Lemma build_dc_tree_wiring_witness :
  closed (objs (mkState ([] : heap ManagedObject) 1)) ∧
  ∃ t s', _build_dc_tree Samples.datacenter (mkState [] 1) = Some (Ok t, s') ∧
    nodes t = [0; 1; 6; 2; 4; 3; 5]%nat ∧ leaf t = [6; 3; 5]%nat ∧
    dc_node (objs s') 0 Samples.datacenter.
Proof.
  split; [constructor|].
  destruct (build_dc_tree_wiring Samples.datacenter (mkState [] 1))
    as [(t & s' & Hrun & Hroot & Hdc) _]; [constructor|].
  exists t, s'. vm_compute in Hrun. injection Hrun as <- <-.
  split; [reflexivity|]. split; [reflexivity|]. split; [reflexivity|]. exact Hdc.
Defined.

End Builder.

(** * More properties of the query builder and of the queries built on it *)

Section BuildQueryMore.
Import Tree Monitor Stats.

Implicit Types (self : Monitor) (entity : ManagedObject)
  (counter_ids : option (list Z)) (instances : option (list string))
  (interval : option Z) (start : option datetime)
  (max_samples : option Z) (fmt : string).

Lemma resolve_interval_legal self interval iv :
  resolve_interval self interval = Ok iv →
  ∃ i, iv = Some i ∧ (i = refresh_rate self ∨ i ∈ historical_intervals self) ∧
       (∀ j, interval = Some j → i = j).
Proof.
  unfold resolve_interval, is_in. destruct (truthy (current_supported self)).
  - destruct interval as [j|].
    + repeat case_bool_decide; cbn; try done; intros [= <-]; exists j.
      * split_and!; [done|by right|by intros ? [= <-]].
      * split_and!; [done| |by intros ? [= <-]].
        left. by destruct (decide (j = refresh_rate self)).
      * split_and!; [done| |by intros ? [= <-]].
        left. by destruct (decide (j = refresh_rate self)).
    + intros [= <-]. exists (refresh_rate self). split_and!; [done|by left|done].
  - destruct (truthy (summary_supported self)); [|done].
    destruct interval as [j|]; cbn; [|done].
    case_bool_decide; cbn; [|done].
    intros [= <-]. exists j. split_and!; [done|by right|by intros ? [= <-]].
Qed.

Lemma selectors_pairs (cs : list Z) (insts : list string) c i :
  mkMetricId c i ∈ (c ← cs; i ← insts; [mkMetricId c i]) ↔ c ∈ cs ∧ i ∈ insts.
Proof.
  rewrite list_elem_of_bind. split.
  - intros (c' & Hin & Hc). apply list_elem_of_bind in Hin as (i' & Hin & Hi).
    apply list_elem_of_singleton in Hin. by injection Hin as -> ->.
  - intros [Hc Hi]. exists c. split; [|done]. apply list_elem_of_bind.
    exists i. split; [|done]. by apply list_elem_of_singleton.
Qed.

Lemma length_selectors (cs : list Z) (insts : list string) :
  length (c ← cs; i ← insts; [mkMetricId c i]) = (length cs * length insts)%nat.
Proof.
  induction cs as [|c cs IH]; [done|]. cbn. rewrite length_app, IH. f_equal.
  clear IH. induction insts as [|i insts IH]; [done|]. cbn. by rewrite IH.
Qed.

(** X1: the call raises the invalid-format [ValueError] exactly when the
    time bounds are accepted ([max_samples] or [start] is true) and [fmt] is
    neither 'csv' nor 'normal'; the capability flags are not looked at
    before. *)
Theorem build_query_invalid_format self entity counter_ids instances interval start
    (end_ : option datetime) max_samples fmt :
  (_build_query self entity counter_ids instances interval start end_ max_samples fmt).1
    = Raise (ValueError "Invalid format, can either be 'normal' or 'csv'")
  ↔ truthy max_samples || truthy start = true ∧ fmt ≠ "csv" ∧ fmt ≠ "normal".
Proof.
  unfold _build_query.
  destruct (truthy max_samples || truthy start); cbn [negb].
  2:{ split; [done|]. by intros [? _]. }
  case_bool_decide as Hf; cbn [negb].
  - split.
    + unfold resolve_interval, invalid_interval, stats_unavailable.
      repeat case_match; simplify_eq/=; done.
    + intros (_ & H1 & H2). exfalso.
      apply elem_of_cons in Hf as [?|Hf]; [done|].
      apply elem_of_cons in Hf as [?|Hf]; [done|]. by apply elem_of_nil in Hf.
  - split; [|done]. intros _. split; [done|].
    split; intros ->; apply Hf; [by left|by right; left].
Qed.

(** X2: a query that [_build_query] returns always carries an interval, and
    a legal one: the provider's refresh rate or an enabled historical
    interval, and the requested one when one was given.  It holds the
    entity, the time bounds, the sample limit and the format as passed, and
    one selector for each pair of a counter and an instance (none without
    [counter_ids], every instance '*' without [instances]). *)
Theorem build_query_returns_legal_query self entity counter_ids instances interval start
    (end_ : option datetime) max_samples fmt q w :
  _build_query self entity counter_ids instances interval start end_ max_samples fmt
    = (Ok q, w) →
  (∃ i, intervalId q = Some i ∧
        (i = refresh_rate self ∨ i ∈ historical_intervals self) ∧
        (∀ j, interval = Some j → i = j)) ∧
  Monitor.entity q = entity ∧ startTime q = start ∧ endTime q = end_ ∧
  maxSample q = max_samples ∧ format q = fmt ∧
  (fmt = "csv" ∨ fmt = "normal") ∧
  (start ≠ None ∨ ∃ n, max_samples = Some n ∧ n ≠ 0) ∧
  (∀ c i, mkMetricId c i ∈ metricId q ↔
          c ∈ default [] counter_ids ∧ i ∈ default ["*"] instances) ∧
  length (metricId q) =
    (length (default [] counter_ids) * length (default ["*"] instances))%nat.
Proof.
  unfold _build_query.
  destruct (truthy max_samples || truthy start) eqn:Hb; cbn [negb]; [|done].
  case_bool_decide as Hf; cbn [negb]; [|done].
  destruct (resolve_interval self interval) as [iv|e] eqn:Hr; [|done].
  intros [= <- <-]. cbn. split_and!; try done.
  - by apply resolve_interval_legal.
  - apply elem_of_cons in Hf as [?|Hf]; [by left|].
    apply elem_of_cons in Hf as [?|Hf]; [by right|]. by apply elem_of_nil in Hf.
  - apply orb_true_iff in Hb as [Hm|Hs].
    + right. destruct max_samples as [n|]; [|done]. exists n. split; [done|].
      intros ->. done.
    + left. by destruct start.
  - intros c i. apply selectors_pairs.
  - apply length_selectors.
Qed.

Lemma build_query_returns_legal_query_witness :
  ∃ q w,
    _build_query Samples.realtime_monitor (OVirtualMachine Samples.vm_a) (Some [6; 2]) None
      (Some 300) (Some (mkDatetime 100)) None None "csv" = (Ok q, w) ∧
    intervalId q = Some 300 ∧ length (metricId q) = 2%nat ∧ format q = "csv".
Proof.
  do 2 eexists. split; [reflexivity|].
  destruct (build_query_returns_legal_query Samples.realtime_monitor
              (OVirtualMachine Samples.vm_a) (Some [6; 2]) None (Some 300)
              (Some (mkDatetime 100)) None None "csv" _ _ eq_refl)
    as ((i & Hi & _ & Hj) & _ & _ & _ & _ & Hf & _ & _ & _ & Hlen).
  split; [|split; [exact Hlen|exact Hf]].
  rewrite Hi. f_equal. by apply Hj.
Defined.

(** X3: [realtime_stats] asks for one sample and leaves the interval to the
    provider.  With real-time statistics supported it always submits the
    one query, at the refresh rate, and warns exactly when the refresh rate
    is itself an enabled historical interval.  With only historical
    statistics supported it always raises the invalid-interval [ValueError]
    for 'None', whatever the arguments; with neither, the
    statistics-unavailable [RuntimeError].  Nothing is submitted then. *)
Theorem realtime_stats_cases self entity counter_ids instances :
  let his := historical_intervals self in
  (truthy (current_supported self) = true →
     realtime_stats self entity counter_ids instances =
       (Ok (QueryPerf (perf_manager self)
              [mkQuerySpec entity
                 (c ← default [] counter_ids; i ← default ["*"] instances; [mkMetricId c i])
                 (Some (refresh_rate self)) None None (Some 1) "normal"]),
        if bool_decide (refresh_rate self ∈ his) then [max_samples_ignored] else [])) ∧
  (truthy (current_supported self) = false → truthy (summary_supported self) = true →
     realtime_stats self entity counter_ids instances =
       (Raise (ValueError ("Invalid value 'None' for parameter 'interval', available ones are "
                           +:+ join ", " (pretty <$> his))), [])) ∧
  (truthy (current_supported self) = false → truthy (summary_supported self) = false →
     realtime_stats self entity counter_ids instances =
       (Raise (RuntimeError "Statistics unavailable for this entity!"), [])).
Proof.
  intros his. unfold realtime_stats.
  rewrite build_query_resolved by (done || compute_done).
  unfold resolve_interval. split_and!.
  - intros ->. cbn. by rewrite andb_true_r.
  - by intros -> ->.
  - by intros -> ->.
Qed.

(** The date arithmetic of [historical_stats] goes through exactly when the
    seconds to go back make a [timedelta] and lead to a date of the years
    1 to 9999. *)
Lemma start_time_cases (now_start : datetime) (back : Z) :
  let fits := bool_decide (- 999999999 ≤ back `div` 86400 ≤ 999999999) &&
              bool_decide (datetime_min ≤ epoch now_start - back ≤ datetime_max) in
  match timedelta back with
  | Raise e => fits = false ∧ ∃ msg, e = OverflowError msg
  | Ok d =>
      d = back ∧
      match datetime_sub now_start d with
      | Raise e => fits = false ∧ ∃ msg, e = OverflowError msg
      | Ok t => fits = true ∧ t = mkDatetime (epoch now_start - back)
      end
  end.
Proof.
  intros fits. subst fits. unfold timedelta, datetime_sub.
  case_bool_decide as Hint; cbn [negb].
  - case_bool_decide as Hdays; cbn [negb andb].
    + split; [done|]. case_bool_decide as Hrange; cbn [negb]; [done|].
      split; [done|by eexists].
    + split; [done|by eexists].
  - split; [|by eexists]. apply andb_false_iff. left. apply bool_decide_eq_false. lia.
Qed.

(** X4: [historical_stats] goes back [interval + delay] seconds from the
    server's time.  When these seconds make no [timedelta] (more than
    999999999 days) or lead to a date outside the years 1 to 9999, it
    raises an [OverflowError] and submits nothing.  Otherwise it passes a
    time range and no sample limit, so it never raises the
    missing-time-bounds or the invalid-format error, and it never warns:
    it raises what the interval resolution raises for the given interval,
    and otherwise submits one query from [now_start - (interval + delay)]
    to [now_end]; in particular it submits it for an enabled historical
    interval whenever the provider supports real-time or historical
    statistics. *)
Theorem historical_stats_cases self now_start now_end entity counter_ids instances
    (interval delay : Z) :
  let call := historical_stats self now_start now_end entity counter_ids instances
                interval delay in
  let back := interval + delay in
  let fits := bool_decide (- 999999999 ≤ back `div` 86400 ≤ 999999999) &&
              bool_decide (datetime_min ≤ epoch now_start - back ≤ datetime_max) in
  let query iv :=
    mkQuerySpec entity
      (c ← default [] counter_ids; i ← default ["*"] instances; [mkMetricId c i])
      iv (Some (mkDatetime (epoch now_start - back))) (Some now_end)
      None "normal" in
  call.2 = [] ∧
  (fits = false → ∃ msg, call.1 = Raise (OverflowError msg)) ∧
  (fits = true →
     call.1 = match resolve_interval self (Some interval) with
              | Raise e => Raise e
              | Ok iv => Ok (QueryPerf (perf_manager self) [query iv])
              end) ∧
  (fits = true →
   interval ∈ historical_intervals self →
   truthy (current_supported self) || truthy (summary_supported self) = true →
   call.1 = Ok (QueryPerf (perf_manager self) [query (Some interval)])).
Proof.
  intros call back fits query. subst call. unfold historical_stats. fold back.
  pose proof (start_time_cases now_start back) as Hstart. cbv zeta in Hstart. fold fits in Hstart.
  destruct (timedelta back) as [d|e].
  2:{ destruct Hstart as (Hfits & msg & ->). rewrite Hfits.
      split_and!; [done|by eexists|done..]. }
  destruct Hstart as (-> & Hstart).
  destruct (datetime_sub now_start back) as [t|e].
  2:{ destruct Hstart as (Hfits & msg & ->). rewrite Hfits.
      split_and!; [done|by eexists|done..]. }
  destruct Hstart as (Hfits & ->). rewrite Hfits.
  rewrite build_query_resolved by (done || compute_done).
  assert (∀ iv, (is_in iv (historical_intervals self) && truthy (None : option Z)) = false)
    as Hw by (intros; apply andb_false_r).
  split_and!.
  - destruct (resolve_interval self (Some interval)); [|done]. cbn. by rewrite Hw.
  - done.
  - intros _. by destruct (resolve_interval self (Some interval)).
  - intros _ Hin Hsup. unfold resolve_interval.
    apply is_in_Some in Hin. rewrite Hin. cbn. rewrite andb_false_r.
    destruct (truthy (current_supported self)); [done|].
    cbn in Hsup. by rewrite Hsup.
Qed.

Lemma historical_stats_cases_witness :
  let self := Samples.realtime_monitor in
  let vm := OVirtualMachine Samples.vm_a in
  let now := mkDatetime 1619870400 in
  (∃ msg, (historical_stats self now now vm (Some [6]) None 7200 100000000000).1 =
            Raise (OverflowError msg)) ∧
  (historical_stats self now now vm (Some [6]) None default_interval default_delay).1 =
    Ok (QueryPerf (perf_manager self)
          [mkQuerySpec vm [mkMetricId 6 "*"] (Some 7200)
             (Some (mkDatetime (1619870400 - 21600))) (Some now) None "normal"]).
Proof.
  intros self vm now. split.
  - destruct (historical_stats_cases self now now vm (Some [6]) None 7200 100000000000)
      as (_ & Hover & _).
    apply Hover. reflexivity.
  - destruct (historical_stats_cases self now now vm (Some [6]) None
                default_interval default_delay) as (_ & _ & _ & Hok).
    apply Hok; [reflexivity|compute_done|reflexivity].
Defined.

Lemma wildcard_selectors (l : list MetricId) :
  (c ← counterId <$> l; i ← ["*"]; [mkMetricId c i]) =
  (λ m, mkMetricId (counterId m) "*") <$> l.
Proof. induction l as [|m l IH]; [done|]. cbn. f_equal. exact IH. Qed.

(** X5: [latest_stats_all] asks for every counter the server lists as
    available for the entity, each with the wildcard instance '*': with
    real-time statistics supported, the frame it returns is the reshaping
    of the provider's answer to that one query. *)
Theorem latest_stats_all_query (available : ManagedObject → list MetricId) self entity :
  truthy (current_supported self) = true →
  latest_stats_all available self entity =
    (reshape self entity
       (QueryPerf (perf_manager self)
          [mkQuerySpec entity ((λ m, mkMetricId (counterId m) "*") <$> available entity)
             (Some (refresh_rate self)) None None (Some 1) "normal"]),
     if bool_decide (refresh_rate self ∈ historical_intervals self)
     then [max_samples_ignored] else []).
Proof.
  intros Hc. unfold latest_stats_all, latest_stats_by_specs, _get_available_counters.
  destruct (realtime_stats_cases self entity (Some (counterId <$> available entity))
              (Some ["*"])) as [H _].
  rewrite (H Hc). cbn [default]. unfold Datatypes.id.
  by rewrite wildcard_selectors.
Qed.

Lemma latest_stats_all_query_witness :
  truthy (current_supported Samples.realtime_monitor) = true ∧
  ∃ data, latest_stats_all (λ _, [mkMetricId 6 ""; mkMetricId 2 ""])
            Samples.realtime_monitor (OVirtualMachine Samples.vm_a) = (Ok data, []) ∧
          length data = 8%nat.
Proof.
  split; [reflexivity|].
  rewrite (latest_stats_all_query _ Samples.realtime_monitor) by reflexivity.
  eexists. split; reflexivity.
Defined.

End BuildQueryMore.

(** * More properties of the reshaping *)

Section ReshapeMore.
Import Tree Monitor Reshapable.

Implicit Types (self : Monitor) (data : DataFrame) (v : PerfMetricSeries)
  (r : EntityMetric).

Lemma for_in_app {A D} (l1 l2 : list A) (body : A → D → result D) (d : D) :
  for_in (l1 ++ l2) body d =
  match for_in l1 body d with Ok d' => for_in l2 body d' | Raise e => Raise e end.
Proof.
  revert d. induction l1 as [|a l1 IH]; intros d; [done|].
  cbn. destruct (body a d); [apply IH|done].
Qed.

(** The loop over the samples of a series that cannot be reshaped raises:
    [KeyError] for a counter missing from the catalog, else [IndexError]
    at the first sample without a value. *)
Lemma for_samples_raise self r v data :
  ¬ reshapable self r v →
  for_in (seq 0 (length (sampleInfo r))) (sample_body self (sampleInfo r) v) data =
    Raise (match all_counters self !! counterId (series_id v) with
           | None => KeyError (counterId (series_id v))
           | Some _ => index_error
           end).
Proof.
  intros Hbad.
  assert (sampleInfo r ≠ []) as Hne by (intros E; apply Hbad; by left).
  destruct (all_counters self !! counterId (series_id v)) as [c|] eqn:Hc.
  - assert (length (series_value v) < length (sampleInfo r))%nat as Hlt.
    { destruct (decide (length (sampleInfo r) ≤ length (series_value v))%nat); [|lia].
      destruct Hbad. right. split; [by eexists|done]. }
    replace (length (sampleInfo r))
      with (length (series_value v) + S (length (sampleInfo r) - S (length (series_value v))))%nat
      by lia.
    rewrite seq_app, for_in_app.
    destruct (for_samples self (sampleInfo r) v c 0 (length (series_value v)) data)
      as (data' & -> & _); [done|lia|lia|].
    cbn [seq for_in]. unfold sample_body at 1.
    destruct (lookup_lt_is_Some_2 (sampleInfo r) (0 + length (series_value v))) as [si ->];
      [lia|].
    rewrite Hc. rewrite (lookup_ge_None_2 (series_value v)) by lia. done.
  - destruct (sampleInfo r) as [|si sis] eqn:E; [done|].
    cbn [length seq for_in]. unfold sample_body at 1. cbn. by rewrite Hc.
Qed.

Lemma for_series_ok self r (vs : list PerfMetricSeries) data :
  Forall (reshapable self r) vs →
  ∃ data',
    for_in vs (λ v, for_in (seq 0 (length (sampleInfo r)))
                           (sample_body self (sampleInfo r) v)) data = Ok data' ∧
    data'.*2 = data.*2 ++ expected_rows self None (mkEntityMetric (sampleInfo r) vs).
Proof.
  revert data. induction vs as [|v vs IH]; intros data Hg.
  - exists data. by rewrite app_nil_r.
  - apply Forall_cons in Hg as [Hv Hg]. cbn [for_in].
    assert (∃ data1,
      for_in (seq 0 (length (sampleInfo r))) (sample_body self (sampleInfo r) v) data
        = Ok data1 ∧
      data1.*2 = data.*2 ++
        zip_with (row_of v (default "" (unitInfo_label <$>
                    all_counters self !! counterId (series_id v))) None)
                 (sampleInfo r) (series_value v)) as (data1 & H1 & Hr1).
    { destruct Hv as [E|[[c Hc] Hl]].
      - rewrite E. exists data. split; [done|]. cbn. by rewrite app_nil_r.
      - destruct (for_samples self (sampleInfo r) v c 0 (length (sampleInfo r)) data)
          as (data1 & H1 & Hr1); [done|lia..|].
        exists data1. split; [done|]. rewrite Hr1, Hc. cbn. f_equal.
        rewrite drop_0, firstn_all, drop_0. apply zip_with_take_r. }
    destruct (IH data1 Hg) as (data' & H2 & Hr2).
    exists data'. rewrite H1. split; [done|].
    rewrite Hr2, Hr1, <-app_assoc. done.
Qed.

Lemma for_series_raise self r (vs : list PerfMetricSeries) data :
  ¬ Forall (reshapable self r) vs →
  ∃ e, for_in vs (λ v, for_in (seq 0 (length (sampleInfo r)))
                              (sample_body self (sampleInfo r) v)) data = Raise e.
Proof.
  revert data. induction vs as [|v vs IH]; intros data Hbad.
  - destruct Hbad. constructor.
  - cbn [for_in].
    destruct (for_in (seq 0 _) _ data) as [data1|e] eqn:H1; [|by eexists].
    apply IH. intros Hg. apply Hbad. constructor; [|done].
    destruct (decide (sampleInfo r = [])) as [?|Hne]; [by left|].
    destruct (all_counters self !! counterId (series_id v)) as [c|] eqn:Hc.
    + destruct (decide (length (sampleInfo r) ≤ length (series_value v))%nat) as [?|Hl].
      * right. split; [by eexists|done].
      * rewrite for_samples_raise in H1; [done|].
        intros [?|[_ ?]]; done.
    + rewrite for_samples_raise in H1; [done|].
      intros [?|[[? ?] _]]; [done|]. congruence.
Qed.

Lemma collect_ok self (results : list EntityMetric) data :
  Forall (λ r, Forall (reshapable self r) (value r)) results →
  ∃ data', collect self results data = Ok data' ∧
    data'.*2 = data.*2 ++ (results ≫= expected_rows self None).
Proof.
  unfold collect. revert data. induction results as [|r rs IH]; intros data Hg.
  - exists data. by rewrite app_nil_r.
  - apply Forall_cons in Hg as [Hr Hg]. cbn [for_in].
    destruct (for_series_ok self r (value r) data Hr) as (data1 & H1 & Hr1).
    assert (mkEntityMetric (sampleInfo r) (value r) = r) as E by (by destruct r).
    rewrite E in Hr1. rewrite H1.
    destruct (IH data1 Hg) as (data' & H2 & Hr2).
    exists data'. split; [done|]. rewrite Hr2, Hr1, <-app_assoc. done.
Qed.

Lemma collect_raise self (results : list EntityMetric) data :
  ¬ Forall (λ r, Forall (reshapable self r) (value r)) results →
  ∃ e, collect self results data = Raise e.
Proof.
  unfold collect. revert data. induction results as [|r rs IH]; intros data Hbad.
  - destruct Hbad. constructor.
  - cbn [for_in].
    destruct (for_in (value r) _ data) as [data1|e] eqn:H1; [|by eexists].
    apply IH. intros Hg. apply Hbad. constructor; [|done].
    destruct (decide (Forall (reshapable self r) (value r))) as [?|Hn]; [done|].
    destruct (for_series_raise self r (value r) data Hn) as [e He]. congruence.
Qed.

Lemma for_in_raise {A D} (l : list A) (body : A → D → result D) (d : D) e :
  for_in l body d = Raise e → ∃ a d', a ∈ l ∧ body a d' = Raise e.
Proof.
  revert d. induction l as [|a l IH]; intros d; [done|]. cbn.
  destruct (body a d) as [d1|e1] eqn:Hb.
  - intros (a' & d' & Hin & Hr)%IH. exists a', d'. split; [by right|done].
  - intros [= <-]. exists a, d. split; [by left|done].
Qed.

Lemma reshape_collect self entity results :
  reshape self entity results =
  match collect self results [] with
  | Raise e => Raise e
  | Ok data => Ok (set_name (name entity) (reset_index (sort_values data)))
  end.
Proof. done. Qed.

Lemma length_expected_rows_reshapable self n r :
  Forall (reshapable self r) (value r) →
  length (expected_rows self n r) = (length (value r) * length (sampleInfo r))%nat.
Proof.
  unfold expected_rows. induction 1 as [|v vs Hv _ IH]; [done|].
  cbn. rewrite length_app, IH. f_equal. rewrite length_zip_with.
  destruct Hv as [->|[_ ?]]; [done|lia].
Qed.

(** X6: the reshaping returns a frame exactly when every series of every
    result can be reshaped: its result has no sample, or its counter is in
    the catalog and it has a value for every sample (values beyond the
    samples are ignored).  Otherwise it raises, and only a [KeyError] for
    the counter of a series that the catalog lacks, or an [IndexError]. *)
Theorem reshape_succeeds_iff self entity (results : list EntityMetric) :
  ((∃ data, reshape self entity results = Ok data) ↔
   Forall (λ r, Forall (reshapable self r) (value r)) results) ∧
  (∀ e, reshape self entity results = Raise e →
     e = IndexError "list index out of range" ∨
     ∃ r v, r ∈ results ∧ v ∈ value r ∧
       all_counters self !! counterId (series_id v) = None ∧
       e = KeyError (counterId (series_id v))).
Proof.
  rewrite reshape_collect. split; [split|].
  - intros [data Hd].
    destruct (decide (Forall (λ r, Forall (reshapable self r) (value r)) results))
      as [?|Hn]; [done|].
    destruct (collect_raise self results [] Hn) as [e He]. by rewrite He in Hd.
  - intros Hg. destruct (collect_ok self results [] Hg) as (data & -> & _). by eexists.
  - intros e He. destruct (collect self results []) as [data|e'] eqn:Hc; [done|].
    injection He as ->. unfold collect in Hc.
    apply for_in_raise in Hc as (r & d1 & Hr & Hc).
    apply for_in_raise in Hc as (v & d2 & Hv & Hc).
    apply for_in_raise in Hc as (i & d3 & _ & Hc).
    unfold sample_body in Hc.
    destruct (sampleInfo r !! i); [|injection Hc as <-; by left].
    destruct (all_counters self !! counterId (series_id v)) eqn:Hcat.
    + destruct (series_value v !! i); [done|]. injection Hc as <-. by left.
    + injection Hc as <-. right. by exists r, v.
Qed.

(** X7: the frame returned for any number of results has one row for each
    pair of a series and a sample of its result; the rows are those
    expected, named after the entity, in ascending order of counter id and
    labelled 0, 1, ... without a gap. *)
Theorem reshape_rows_of_results self entity (results : list EntityMetric) data :
  reshape self entity results = Ok data →
  length data =
    sum_list ((λ r, length (value r) * length (sampleInfo r))%nat <$> results) ∧
  data.*2 ≡ₚ results ≫= expected_rows self (Some (name entity)) ∧
  Sorted Z.le (col_key <$> data.*2) ∧
  data.*1 = seq 0 (length data).
Proof.
  intros Hd.
  assert (Forall (λ r, Forall (reshapable self r) (value r)) results) as Hg.
  { apply (reshape_succeeds_iff self entity results). by eexists. }
  rewrite reshape_collect in Hd.
  destruct (collect_ok self results [] Hg) as (data0 & Hc & Hrows).
  rewrite Hc in Hd. injection Hd as <-. cbn in Hrows.
  assert (length (sort_values data0) = length data0) as Hsl.
  { unfold sort_values. by rewrite merge_sort_Permutation. }
  assert (length (set_name (name entity) (reset_index (sort_values data0)))
          = length data0) as Hlen.
  { unfold set_name, reset_index. by rewrite length_fmap, length_imap, length_fmap. }
  split_and!.
  - rewrite Hlen, <-(length_fmap snd), Hrows. clear -Hg.
    induction Hg as [|r rs Hr _ IH]; [done|].
    cbn. rewrite length_app, IH. f_equal. by apply length_expected_rows_reshapable.
  - rewrite set_name_snd. unfold reset_index. rewrite relabel_snd.
    unfold sort_values. rewrite merge_sort_Permutation, Hrows.
    clear. induction results as [|r rs IH]; [done|].
    cbn. by rewrite fmap_app, IH, expected_rows_named.
  - rewrite set_name_snd, name_row_key. unfold reset_index. rewrite relabel_snd.
    apply sort_values_sorted.
  - rewrite set_name_fst. unfold reset_index at 1. rewrite relabel_fst.
    unfold set_name, reset_index. by rewrite !length_fmap, length_imap, length_fmap.
Qed.

Lemma reshape_rows_of_results_witness :
  ∃ data,
    reshape Samples.realtime_monitor (OHost Samples.bare_host)
      (Samples.answer ++ [mkEntityMetric [] [mkPerfMetricSeries (mkMetricId 99 "") []]]
                      ++ Samples.answer) = Ok data ∧
    length data = 16%nat ∧ data.*1 = seq 0 16.
Proof.
  eexists. split; [reflexivity|].
  match goal with |- length ?d = _ ∧ _ =>
    destruct (reshape_rows_of_results Samples.realtime_monitor (OHost Samples.bare_host)
      (Samples.answer ++ [mkEntityMetric [] [mkPerfMetricSeries (mkMetricId 99 "") []]]
                      ++ Samples.answer) d eq_refl) as (Hlen & _ & _ & Hidx)
  end.
  split; [exact Hlen|]. rewrite Hidx. reflexivity.
Defined.

End ReshapeMore.

(** * Properties of the catalog, of the folders and of the search *)

Section ManagePerf.
Import Tree Monitor.

Lemma foldl_insert_lookup (l : list PerfCounterInfo) (k : Z) :
  foldl (λ m perf, <[key perf := perf]> m) (∅ : gmap Z PerfCounterInfo) l !! k =
  last (filter (λ perf, key perf = k) l).
Proof.
  induction l as [|p l IH] using rev_ind; [done|].
  rewrite foldl_app, filter_app. cbn [foldl].
  destruct (decide (key p = k)) as [<-|Hne].
  - rewrite lookup_insert_eq, filter_cons_True by done.
    by rewrite filter_nil, last_snoc.
  - rewrite lookup_insert_ne by done.
    rewrite filter_cons_False, filter_nil, app_nil_r by done. exact IH.
Qed.

Lemma filter_none {A} (P : A → Prop) `{∀ x, Decision (P x)} (l : list A) :
  (∀ x, x ∈ l → ¬ P x) → filter P l = [].
Proof.
  induction l as [|x l IH]; intros Hl; [done|].
  rewrite filter_cons_False by (apply Hl; by left).
  apply IH. intros y Hy. apply Hl. by right.
Qed.

(** X8: [manage_perf] replaces the catalog by the server's counters, found
    by key; of several counters with one key the last one is kept, so with
    distinct keys every counter is found under its own key, and a key of no
    counter is not in the catalog.  The sampling periods of the enabled
    historical intervals are appended, in the server's order, to those the
    monitor already has, so that a second call lists them twice. *)
Theorem manage_perf_catalog self :
  let pm := perf_manager self in
  let periods := samplingPeriod <$> filter (λ i, enabled i = true) (historicalInterval pm) in
  (∀ k, all_counters (manage_perf self) !! k =
        last (filter (λ perf, key perf = k) (perfCounter pm))) ∧
  (NoDup (key <$> perfCounter pm) →
   ∀ perf, perf ∈ perfCounter pm → all_counters (manage_perf self) !! key perf = Some perf) ∧
  (∀ k, k ∉ key <$> perfCounter pm → all_counters (manage_perf self) !! k = None) ∧
  historical_intervals (manage_perf self) = historical_intervals self ++ periods ∧
  historical_intervals (manage_perf (manage_perf self)) =
    historical_intervals self ++ periods ++ periods.
Proof.
  intros pm periods. split_and!.
  - intros k. apply foldl_insert_lookup.
  - intros Hnd perf Hin. cbn. rewrite foldl_insert_lookup.
    apply list_elem_of_split in Hin as (l1 & l2 & Hl). fold pm. rewrite Hl in *.
    rewrite fmap_app, fmap_cons in Hnd.
    apply NoDup_app in Hnd as (_ & _ & Hnd2). apply NoDup_cons in Hnd2 as [Hnot _].
    rewrite filter_app, filter_cons_True by done.
    assert (filter (λ p, key p = key perf) l2 = []) as ->.
    { apply filter_none. intros p Hp Hk. apply Hnot.
      rewrite <-Hk. by apply list_elem_of_fmap_2. }
    by rewrite last_snoc.
  - intros k Hk. cbn. rewrite foldl_insert_lookup. fold pm.
    assert (filter (λ p, key p = k) (perfCounter pm) = []) as ->; [|done].
    apply filter_none. intros p Hp Hkp. apply Hk.
    rewrite <-Hkp. by apply list_elem_of_fmap_2.
  - done.
  - cbn. by rewrite <-app_assoc.
Qed.

End ManagePerf.

Section FoldersFacts.
Import Tree Monitor Folders.

(** X9: [get_child_objects] appends to [results] the hosts and compute
    resources found below the folder, left to right, whatever the depth of
    the sub-folders; a folder without such objects adds nothing. *)
Theorem get_child_objects_flattens (fo : FolderOrObject) (results : list HostOrCR) :
  get_child_objects fo results = results ++ objects_of fo.
Proof.
  revert fo results. fix IH 1. intros [l|o] results; [|done].
  cbn [get_child_objects objects_of]. revert results.
  induction l as [|c l IHl]; intros results; cbn.
  - by rewrite app_nil_r.
  - rewrite IHl, IH, <-app_assoc. done.
Qed.

End FoldersFacts.

(** * More properties of the tree *)

Section TreeMore.
Import Tree.
Context {V : Type}.

Implicit Types (h k : heap V) (n u c s p r : ref) (q out cs : list ref)
  (nd nu nc : Node V) (t : DCTree).

Lemma skeleton_insert_same h c nc (nc' : Node V) :
  h !! c = Some nc → frozen nc' = frozen nc → skeleton (<[c := nc']> h) = skeleton h.
Proof.
  intros Hc Hf. unfold skeleton. rewrite list_fmap_insert. apply list_insert_id.
  by rewrite list_lookup_fmap, Hc, Hf.
Qed.

Lemma bfs_children_keeps_skeleton u cs h q h' q' :
  bfs_children u cs h q = Some (h', q') → skeleton h' = skeleton h.
Proof.
  revert h q. induction cs as [|c cs IH]; intros h q Hrun.
  { by injection Hrun as <- _. }
  cbn [bfs_children] in Hrun.
  destruct (h !! c) as [nc|] eqn:Hc; [|done]. cbn in Hrun.
  destruct (visited nc); [by eapply IH|].
  destruct (h !! u) as [nu|]; [|done]. cbn in Hrun.
  rewrite (IH _ _ Hrun). by eapply skeleton_insert_same.
Qed.

Lemma bfs_next_keeps_skeleton (g : gen) h y g' h' :
  bfs_next g h = Some (y, g', h') → skeleton h' = skeleton h.
Proof.
  destruct g as [r|u q|]; cbn; intros Hnext.
  - destruct (h !! r) as [nd|] eqn:Hr; [|done]. injection Hnext as _ _ <-.
    by eapply skeleton_insert_same.
  - destruct (h !! u) as [nd|]; [|done]. cbn in Hnext.
    destruct (bfs_children _ _ _ _) as [[h1 q1]|] eqn:Hc; [|done].
    injection Hnext as _ <-. by eapply bfs_children_keeps_skeleton.
  - by injection Hnext as _ _ <-.
Qed.

Lemma for_bfs_keeps_skeleton (fuel : nat) (g : gen) h t t' h' :
  for_bfs fuel g h t = Some (t', h') → skeleton h' = skeleton h.
Proof.
  revert g h t. induction fuel as [|fuel IH]; intros g h t Hfor; [done|].
  cbn [for_bfs] in Hfor.
  destruct (bfs_next g h) as [[[y g1] h1]|] eqn:Hnext; [|done]. cbn in Hfor.
  apply bfs_next_keeps_skeleton in Hnext. destruct y as [n|].
  - destruct (h1 !! n) as [nd|]; [|done]. cbn in Hfor.
    rewrite (IH _ _ _ Hfor). done.
  - by injection Hfor as _ <-.
Qed.

Lemma reset_visited_keeps_skeleton (ns : list ref) h h' :
  reset_visited ns h = Some h' → skeleton h' = skeleton h.
Proof.
  revert h. induction ns as [|m ns IH]; intros h Hr.
  { by injection Hr as <-. }
  cbn [reset_visited] in Hr. destruct (h !! m) as [nd|] eqn:Hm; [|done]. cbn in Hr.
  rewrite (IH _ Hr). by eapply skeleton_insert_same.
Qed.

(** How the loop of [update_struct] extends the tree, whatever the fuel. *)
Lemma for_bfs_extends (fuel : nat) (g : gen) h t t' h' :
  for_bfs fuel g h t = Some (t', h') →
  ∃ out, t' = extended h t out.
Proof.
  revert g h t. induction fuel as [|fuel IH]; intros g h t Hfor; [done|].
  cbn [for_bfs] in Hfor.
  destruct (bfs_next g h) as [[[y g1] h1]|] eqn:Hnext; [|done]. cbn in Hfor.
  pose proof (bfs_next_keeps_skeleton _ _ _ _ _ Hnext) as Hsk.
  assert (adj h1 = adj h) as Hadj.
  { unfold adj. apply (f_equal (fmap (λ x, x.1.2))) in Hsk.
    unfold skeleton in Hsk. by rewrite <-!list_fmap_compose in Hsk. }
  destruct y as [n|].
  - destruct (h1 !! n) as [nd|] eqn:Hn; [|done]. cbn in Hfor.
    destruct (IH _ _ _ Hfor) as [out ->]. exists (n :: out).
    rewrite extended_cons by done. by apply extended_adj.
  - injection Hfor as <- _. exists []. by rewrite extended_nil.
Qed.

(** X10: [update_struct] never writes to the parents, the value, the
    children or the id of a node, and it never replaces the root of the
    tree, not even when it is given another node to start from: all it does
    to the tree is to append nodes to its two lists, every appended leaf
    being an appended node without children. *)
Theorem update_struct_only_appends t (root_ : option ref) h t' h' :
  update_struct t root_ h = Some (t', h') →
  skeleton h' = skeleton h ∧
  root t' = root t ∧
  ∃ out, nodes t' = nodes t ++ out ∧
         leaf t' = leaf t ++ filter (λ n, is_leaf_at h n) out.
Proof.
  unfold update_struct.
  destruct (reset_visited (nodes t) h) as [h1|] eqn:Hr; [|done]. cbn.
  intros Hfor. pose proof (reset_visited_keeps_skeleton _ _ _ Hr) as Hsk1.
  pose proof (for_bfs_keeps_skeleton _ _ _ _ _ _ Hfor) as Hsk2.
  destruct (for_bfs_extends _ _ _ _ _ _ Hfor) as [out ->].
  split_and!; [by rewrite Hsk2|done|].
  exists out. split; [done|]. cbn. f_equal. apply list_filter_iff. intros n.
  unfold is_leaf_at, adj. apply (f_equal (fmap (λ x, x.1.2))) in Hsk1.
  unfold skeleton in Hsk1. rewrite <-!list_fmap_compose in Hsk1.
  change ((λ x, x.1.2) ∘ frozen) with (@children V) in Hsk1. by rewrite Hsk1.
Qed.

Lemma search_in_spec (ns : list ref) (id_ : Z) h :
  Forall (λ n, (n < length h)%nat) ns →
  match search_in ns id_ h with
  | Some (Some n) =>
      ∃ before after, ns = before ++ n :: after ∧
        id <$> h !! n = Some id_ ∧
        ∀ m, m ∈ before → id <$> h !! m ≠ Some id_
  | Some None => ∀ m, m ∈ ns → id <$> h !! m ≠ Some id_
  | None => False
  end.
Proof.
  induction ns as [|n ns IH]; intros Hns; cbn.
  { by intros m ?%elem_of_nil. }
  apply Forall_cons in Hns as [Hn Hns].
  destruct (lookup_lt_is_Some_2 h n Hn) as [nd Hnd]. rewrite Hnd. cbn.
  case_bool_decide as Hid.
  - exists [], ns. rewrite Hnd. cbn. split_and!; [done|by rewrite Hid|].
    by intros m ?%elem_of_nil.
  - specialize (IH Hns). destruct (search_in ns id_ h) as [[n'|]|]; [| |done].
    + destruct IH as (before & after & -> & Hid' & Hfirst).
      exists (n :: before), after. split_and!; [done|done|].
      intros m [->|Hm]%elem_of_cons; [|by apply Hfirst].
      rewrite Hnd. cbn. by intros [= ?].
    + intros m [->|Hm]%elem_of_cons; [|by apply IH].
      rewrite Hnd. cbn. by intros [= ?].
Qed.

(** X11: [search] always returns.  The node it returns is the first node
    of the node list with the given id; it returns [None] only when no node
    of the list has this id. *)
Theorem search_finds_first t (id_ : Z) h :
  Forall (λ n, (n < length h)%nat) (nodes t) →
  match search t id_ h with
  | Some (Some n) =>
      ∃ before after, nodes t = before ++ n :: after ∧
        id <$> h !! n = Some id_ ∧
        ∀ m, m ∈ before → id <$> h !! m ≠ Some id_
  | Some None => ∀ m, m ∈ nodes t → id <$> h !! m ≠ Some id_
  | None => False
  end.
Proof. apply search_in_spec. Qed.

(** What a run yields, whatever the flags were at its start: no node twice,
    and none that could not be reached. *)
Lemma bfs_run_sound h0 s h u q out h' :
  bfs_run h u q out h' →
  closed h → adj h = adj h0 →
  is_visited h u → Forall (is_visited h) q → NoDup (u :: q) →
  reachable h0 s u → Forall (reachable h0 s) q →
  NoDup out ∧ (u ∉ out) ∧
  (∀ n, n ∈ out → n ∈ q ∨ ¬ is_visited h n) ∧
  Forall (reachable h0 s) out.
Proof.
  induction 1 as [h u nu q h' Hu Hrun|h u nu q h1 u' q' out h' Hu Hrun Hrest IH];
    intros Hcl Hadj0 Hvu Hq Hnd Hru Hrq.
  { split_and!; [constructor|apply not_elem_of_nil|by intros n ?%elem_of_nil|constructor]. }
  pose proof Hvu as (nu' & Hu' & Hvnu)%is_visited_lookup.
  rewrite Hu in Hu'. injection Hu' as <-.
  destruct (bfs_children_spec u nu (children nu) h q Hu Hvnu)
    as (h2 & new & Hrun' & Hadj & Hndn & Hnew & Hold & Hvis & Hcnt);
    [by eapply closed_children|].
  rewrite Hrun in Hrun'. injection Hrun' as <- Hqn.
  assert (∀ n, is_visited h n → is_visited h1 n) as Hmono.
  { intros n Hn. destruct (decide (n ∈ new)) as [Hin|Hin].
    - destruct (Hnew n Hin) as (_ & ? & _). done.
    - apply is_visited_lookup. rewrite (Hold n Hin). by apply is_visited_lookup. }
  assert (∀ n, n ∈ q → is_visited h n) as Hq' by (by apply Forall_forall).
  assert (∀ n, n ∈ new → ¬ is_visited h n) as Hnv.
  { intros n Hn. by destruct (Hnew n Hn) as (_ & ? & _). }
  assert (NoDup (q ++ new)) as Hnd1.
  { apply NoDup_app. apply NoDup_cons in Hnd as [_ Hndq].
    split_and!; [done| |done]. intros n Hn Hn'. by apply (Hnv n), Hq'. }
  assert (u ∉ q ++ new) as Hunot.
  { apply NoDup_cons in Hnd as [Huq _]. intros [?|Hn]%elem_of_app; [done|].
    by apply (Hnv u). }
  assert (Forall (is_visited h1) (q ++ new)) as Hv1.
  { apply Forall_app. split.
    - eapply Forall_impl; [exact Hq|]. apply Hmono.
    - apply Forall_forall. intros c Hc. destruct (Hnew c Hc) as (Hin & _). by apply Hvis. }
  assert (Forall (reachable h0 s) (q ++ new)) as Hr1.
  { apply Forall_app. split; [done|]. apply Forall_forall. intros c Hc.
    destruct (Hnew c Hc) as (Hin & _). eapply rtc_r; [exact Hru|].
    apply (edge_adj h); [done|]. by eapply edge_children. }
  rewrite <-Hqn in *.
  apply Forall_cons in Hv1 as [Hvu' Hvq']. apply Forall_cons in Hr1 as [Hru' Hrq'].
  destruct IH as (Hndo & Hu'o & Hfrom & Hro);
    [by eapply closed_adj|by rewrite Hadj|done..|].
  split_and!.
  - by constructor.
  - intros [->|Hn]%elem_of_cons; [apply Hunot; by left|].
    destruct (Hfrom u Hn) as [?|Hnv']; [apply Hunot; by right|].
    by apply Hnv', Hmono.
  - assert (∀ n, n ∈ u' :: q' → n ∈ q ∨ ¬ is_visited h n) as Hcase.
    { intros n. rewrite Hqn. intros [?|?]%elem_of_app; [by left|right; by apply Hnv]. }
    intros n [->|Hn]%elem_of_cons; [apply Hcase; by left|].
    destruct (Hfrom n Hn) as [?|Hnv']; [apply Hcase; by right|].
    right. intros ?. by apply Hnv', Hmono.
  - by constructor.
Qed.

(** X12: [DCTree(root)] raises the [ValueError] 'Not root', and leaves the
    nodes alone, when the root has a parent.  Otherwise it returns, whatever
    the visited flags were: the tree has the given root, its node list
    starts with the root, lists no node twice and only nodes that the root
    reaches, and its leaf list is the nodes of the node list without
    children, in the same order. *)
Theorem DCTree_init_cases r h nd :
  closed h → h !! r = Some nd →
  (parents nd ≠ [] → DCTree_init r h = Some (Raise (ValueError "Not root"), h)) ∧
  (parents nd = [] →
     ∃ t h', DCTree_init r h = Some (Ok t, h') ∧
       root t = r ∧ head (nodes t) = Some r ∧
       NoDup (nodes t) ∧ (∀ n, n ∈ nodes t → reachable h r n) ∧
       leaf t = filter (λ n, is_leaf_at h n) (nodes t) ∧
       skeleton h' = skeleton h).
Proof.
  intros Hcl Hr. unfold DCTree_init. rewrite Hr. cbn. unfold is_root. split.
  - intros Hp. rewrite bool_decide_eq_false_2; [done|]. by intros ?%nil_length_inv.
  - intros ->. cbn. unfold update_struct. cbn.
    destruct (for_bfs_start h r nd (mkDCTree r [] []) Hcl Hr) as (out & h' & Hrun & Hfor).
    rewrite Hfor. cbn. do 2 eexists. split; [done|].
    set (h1 := <[r := set_visited true nd]> h) in *.
    assert (adj h1 = adj h) as Hadj by (by eapply adj_insert).
    destruct (bfs_run_sound h r h1 r [] out h' Hrun) as (Hnd & Hnot & _ & Hreach).
    { by eapply closed_adj. }
    { done. }
    { apply is_visited_set_visited; [done|by left]. }
    { constructor. }
    { apply NoDup_singleton. }
    { apply rtc_refl. }
    { constructor. }
    split_and!; [done|done|by constructor| |done|by eapply for_bfs_keeps_skeleton].
    intros n [->|Hn]%elem_of_cons; [apply rtc_refl|].
    by eapply Forall_forall in Hreach.
Qed.

End TreeMore.

Section TreeMoreExamples.
Import Tree.

Lemma update_struct_only_appends_witness :
  ∃ t' h',
    update_struct (mkDCTree 0 [0; 1; 2; 3]%nat [3%nat]) (Some 1%nat) Samples.diamond
      = Some (t', h') ∧
    root t' = 0%nat ∧ nodes t' = [0; 1; 2; 3; 1; 3]%nat ∧ leaf t' = [3; 3]%nat ∧
    skeleton h' = skeleton Samples.diamond.
Proof.
  do 2 eexists. split; [reflexivity|].
  match goal with |- root ?t = _ ∧ _ ∧ _ ∧ skeleton ?h = _ =>
    destruct (update_struct_only_appends (mkDCTree 0 [0; 1; 2; 3]%nat [3%nat])
                (Some 1%nat) Samples.diamond t h eq_refl) as (Hsk & Hroot & _)
  end.
  split; [exact Hroot|]. split; [reflexivity|]. split; [reflexivity|exact Hsk].
Defined.

Lemma search_finds_first_witness :
  let h := [mkNode [] "a" [1%nat] 7 false None 0; mkNode [0%nat] "b" [] 8 false None 0] in
  Forall (λ n, (n < length h)%nat) [0; 1]%nat ∧
  search (mkDCTree 0 [0; 1]%nat [1%nat]) 8 h = Some (Some 1%nat) ∧
  search (mkDCTree 0 [0; 1]%nat [1%nat]) 9 h = Some None.
Proof.
  intros h. assert (Forall (λ n, (n < length h)%nat) [0; 1]%nat) as Hr by (repeat constructor).
  split; [exact Hr|].
  pose proof (search_finds_first (mkDCTree 0 [0; 1]%nat [1%nat]) 8 h Hr) as H8.
  pose proof (search_finds_first (mkDCTree 0 [0; 1]%nat [1%nat]) 9 h Hr) as H9.
  split; [|reflexivity]. revert H8. vm_compute. by intros _.
Defined.

Lemma DCTree_init_cases_witness :
  closed Samples.diamond ∧
  (∃ t h', DCTree_init 0 Samples.diamond = Some (Ok t, h') ∧ nodes t = [0; 1; 2; 3]%nat) ∧
  DCTree_init 1 [Samples.fresh [1%nat]; mkNode [0%nat] "n" [] 0 false None 0] =
    Some (Raise (ValueError "Not root"),
          [Samples.fresh [1%nat]; mkNode [0%nat] "n" [] 0 false None 0]).
Proof.
  split; [exact diamond_closed|]. split.
  - destruct (DCTree_init_cases 0 Samples.diamond (Samples.fresh [1; 2]%nat)
                diamond_closed eq_refl) as [_ H].
    destruct (H eq_refl) as (t & h' & Hinit & _). exists t, h'. split; [exact Hinit|].
    vm_compute in Hinit. by injection Hinit as <- _.
  - apply (DCTree_init_cases 1 _ (mkNode [0%nat] "n" [] 0 false None 0)).
    + repeat constructor.
    + reflexivity.
    + done.
Defined.

End TreeMoreExamples.

(** * Properties of the depth-first traversal *)

Section DfsFacts.
Import Tree Dfs.
Context {V : Type}.

Implicit Types (h k : heap V) (n u c s p : ref) (st out cs : list ref) (nd nu nc : Node V).

Lemma fmap_insert_same {B} (f : Node V → B) h n nd (nd' : Node V) :
  h !! n = Some nd → f nd' = f nd → f <$> <[n := nd']> h = f <$> h.
Proof.
  intros Hn Hf. rewrite list_fmap_insert. apply list_insert_id.
  by rewrite list_lookup_fmap, Hn, Hf.
Qed.

Lemma unvisited_count_found h c nc u :
  h !! c = Some nc → visited nc = false →
  S (unvisited_count (<[c := found u nc]> h)) = unvisited_count h.
Proof.
  intros Hc Hv. unfold unvisited_count, flags. rewrite list_fmap_insert. cbn.
  apply count_false_insert. by rewrite list_lookup_fmap, Hc, <-Hv.
Qed.

(** What one pass over the children of [u] does: the unvisited ones, each
    once, are discovered and pushed, the last one on top. *)
Lemma dfs_children_spec u cs h st :
  Forall (λ c, (c < length h)%nat) cs →
  ∃ h' new,
    dfs_children u cs h st = Some (h', reverse new ++ st) ∧
    adj h' = adj h ∧
    distance <$> h' = distance <$> h ∧
    NoDup new ∧
    (∀ c, c ∈ new → c ∈ cs ∧ ¬ is_visited h c ∧
       ∃ nc, h !! c = Some nc ∧ h' !! c = Some (found u nc)) ∧
    (∀ n, n ∉ new → h' !! n = h !! n) ∧
    (∀ c, c ∈ cs → is_visited h' c) ∧
    (unvisited_count h' + length new = unvisited_count h)%nat.
Proof.
  revert h st. induction cs as [|c cs IH]; intros h st Hcs.
  { exists h, []. 
    split_and!; [done|done|done|constructor|by intros c ?%elem_of_nil|done
                |by intros c ?%elem_of_nil|cbn; lia]. }
  apply Forall_cons in Hcs as [Hc Hcs].
  destruct (lookup_lt_is_Some_2 h c Hc) as [nc Hnc].
  cbn [dfs_children]. rewrite Hnc. cbn. destruct (visited nc) eqn:Hvc.
  - destruct (IH h st Hcs)
      as (h' & new & Hrun & Hadj & Hdist & Hnd & Hnew & Hold & Hvis & Hcnt).
    exists h', new. split_and!; try done.
    + intros c' Hc'. destruct (Hnew c' Hc') as (? & ? & ?). split_and!; try done.
      by apply elem_of_cons; right.
    + intros c' [->|Hc']%elem_of_cons; [|by apply Hvis].
      assert (is_visited h c) as Hv by (apply is_visited_lookup; eauto).
      apply is_visited_lookup. rewrite Hold; [eauto|].
      intros Hin. by destruct (Hnew c Hin) as (_ & ? & _).
  - set (h1 := <[c := found u nc]> h).
    assert (adj h1 = adj h) as Hadj1 by (by eapply adj_insert).
    assert (distance <$> h1 = distance <$> h) as Hdist1 by (by eapply fmap_insert_same).
    assert (h1 !! c = Some (found u nc)) as Hc1.
    { unfold h1. by rewrite list_lookup_insert_eq. }
    assert (is_visited h1 c) as Hvc1 by (apply is_visited_lookup; eauto).
    destruct (IH h1 (c :: st))
      as (h' & new & Hrun & Hadj & Hdist & Hnd & Hnew & Hold & Hvis & Hcnt).
    { by rewrite (adj_length _ _ Hadj1). }
    assert (c ∉ new) as Hcnew.
    { intros Hin. by destruct (Hnew c Hin) as (_ & ? & _). }
    exists h', (c :: new). split_and!.
    + by rewrite Hrun, reverse_cons, <-app_assoc.
    + by rewrite Hadj.
    + by rewrite Hdist.
    + by constructor.
    + intros c' [->|Hc']%elem_of_cons.
      * split_and!; [by left| |].
        -- rewrite is_visited_lookup. intros (? & ? & ?). congruence.
        -- exists nc. split; [done|]. by rewrite Hold.
      * destruct (Hnew c' Hc') as (Hin & Hnv & nc' & Hnc' & Hnc'').
        assert (c' ≠ c) as Hne by (by intros ->).
        unfold h1 in Hnc'. rewrite list_lookup_insert_ne in Hnc' by done.
        split_and!; [by right| |by eauto].
        intros Hv. apply Hnv. apply is_visited_lookup.
        apply is_visited_lookup in Hv as (? & ? & ?).
        unfold h1. rewrite list_lookup_insert_ne by done. eauto.
    + intros n [Hne Hn]%not_elem_of_cons. rewrite Hold by done.
      unfold h1. by rewrite list_lookup_insert_ne.
    + intros c' [->|Hc']%elem_of_cons; [|by apply Hvis].
      apply is_visited_lookup. rewrite Hold by done. eauto.
    + cbn. pose proof (unvisited_count_found h c nc u Hnc Hvc) as Hs.
      fold h1 in Hs. lia.
Qed.

(** With enough fuel the generator runs to its end. *)
Lemma dfs_list_run (fuel : nat) h u st :
  closed h → is_visited h u → Forall (is_visited h) st →
  (unvisited_count h + length st < fuel)%nat →
  ∃ out h', dfs_run h u st out h' ∧ dfs_list fuel (GYield u st) h = Some (out, h').
Proof.
  revert h u st. induction fuel as [|fuel IH]; intros h u st Hcl Hu Hq Hfuel; [lia|].
  apply is_visited_lookup in Hu as (nu & Hu & Hvu).
  destruct (dfs_children_spec u (children nu) h st)
    as (h1 & new & Hrun & Hadj & _ & Hnd & Hnew & Hold & Hvis & Hcnt).
  { by eapply closed_children. }
  assert (∀ n, is_visited h n → is_visited h1 n) as Hmono.
  { intros n Hn. destruct (decide (n ∈ new)) as [Hin|Hin].
    - destruct (Hnew n Hin) as (_ & ? & _). done.
    - apply is_visited_lookup. rewrite (Hold n Hin). by apply is_visited_lookup. }
  assert (Forall (is_visited h1) (reverse new ++ st)) as Hq1.
  { apply Forall_app. split.
    - apply Forall_forall. intros c Hc. rewrite elem_of_reverse in Hc.
      destruct (Hnew c Hc) as (Hin & _). by apply Hvis.
    - eapply Forall_impl; [exact Hq|]. apply Hmono. }
  cbn [dfs_list dfs_next]. rewrite Hu. cbn. rewrite Hrun. cbn.
  destruct (reverse new ++ st) as [|u' st'] eqn:Hq'.
  - exists [], h1. split; [by eapply dfs_run_done|done].
  - apply Forall_cons in Hq1 as [Hu' Hq1]. cbn.
    destruct (IH h1 u' st') as (out & h' & Hr & Hfor);
      [by eapply closed_adj|done|done| |].
    { apply (f_equal length) in Hq'. rewrite length_app, length_reverse in Hq'.
      cbn in Hq'. lia. }
    exists (u' :: out), h'. split; [by eapply dfs_run_yield|]. by rewrite Hfor.
Qed.

Lemma dfs_list_start h s nd :
  closed h → h !! s = Some nd →
  ∃ out h', dfs_run (<[s := set_visited true nd]> h) s [] out h' ∧
    dfs_list (bfs_fuel h) (_dfs s) h = Some (s :: out, h').
Proof.
  intros Hcl Hs. set (h1 := <[s := set_visited true nd]> h).
  assert (adj h1 = adj h) as Hadj by (by eapply adj_insert).
  destruct (dfs_list_run (length h + 1) h1 s []) as (out & h' & Hrun & Hfor).
  - by eapply closed_adj.
  - apply is_visited_set_visited; [done|by left].
  - constructor.
  - pose proof (unvisited_count_le h1). rewrite (adj_length _ _ Hadj) in *. cbn. lia.
  - exists out, h'. split; [done|].
    unfold bfs_fuel. replace (length h + 2)%nat with (S (length h + 1)) by lia.
    cbn [dfs_list _dfs dfs_next]. rewrite Hs. cbn. fold h1. by rewrite Hfor.
Qed.

Lemma earlier_in_app l l' p c : earlier_in l p c → earlier_in (l ++ l') p c.
Proof.
  intros (l1 & l2 & -> & Hp & Hc). exists l1, (l2 ++ l'). by rewrite <-app_assoc.
Qed.

Lemma dfs_inv_init h0 s nd :
  h0 !! s = Some nd →
  (∀ n, reachable h0 s n → ¬ is_visited h0 n) →
  dfs_inv h0 s (<[s := set_visited true nd]> h0) [] [s].
Proof.
  intros Hs Hfresh. split; cbn.
  - by eapply adj_insert.
  - by eapply fmap_insert_same.
  - apply NoDup_singleton.
  - done.
  - intros n ->%list_elem_of_singleton. apply rtc_refl.
  - intros n Hn. rewrite is_visited_set_visited, list_elem_of_singleton by done.
    specialize (Hfresh n Hn). split; [by intros [?|?]|by left].
  - by intros p c ?%elem_of_nil.
  - by intros c ->%list_elem_of_singleton.
Qed.

Lemma dfs_inv_step h0 s h done u nu st h1 new :
  dfs_inv h0 s h done (u :: st) →
  h !! u = Some nu →
  adj h1 = adj h →
  distance <$> h1 = distance <$> h →
  NoDup new →
  (∀ c, c ∈ new → c ∈ children nu ∧ ¬ is_visited h c ∧
     ∃ nc, h !! c = Some nc ∧ h1 !! c = Some (found u nc)) →
  (∀ n, n ∉ new → h1 !! n = h !! n) →
  (∀ c, c ∈ children nu → is_visited h1 c) →
  dfs_inv h0 s h1 (done ++ [u]) (reverse new ++ st).
Proof.
  intros [Hadj Hdist Hnd Hhd Hreach Hvis Hdone Hspan] Hu Hadj1 Hdist1 Hndnew Hnew Hold Hvis1.
  assert ((done ++ [u]) ++ reverse new ++ st ≡ₚ (done ++ u :: st) ++ new) as Eseen.
  { rewrite reverse_Permutation, <-!app_assoc. apply Permutation_app_head. cbn.
    constructor. apply Permutation_app_comm. }
  assert (∀ n, n ∈ (done ++ [u]) ++ reverse new ++ st ↔ n ∈ done ++ u :: st ∨ n ∈ new)
    as Hmem.
  { intros n. by rewrite Eseen, elem_of_app. }
  assert (reachable h0 s u) as Hru.
  { apply Hreach, elem_of_app. right. by left. }
  assert (∀ c, c ∈ children nu → reachable h0 s c) as Hrc.
  { intros c Hc. eapply rtc_r; [exact Hru|].
    apply (edge_adj h); [done|]. by eapply edge_children. }
  assert (∀ n, n ∈ done ++ u :: st → n ∉ new) as Hdisj.
  { intros n Hn Hin. destruct (Hnew n Hin) as (_ & Hnv & _).
    apply Hnv, Hvis; [by apply Hreach|done]. }
  assert (∀ n, reachable h0 s n →
            is_visited h1 n ↔ n ∈ (done ++ [u]) ++ reverse new ++ st) as Hvis'.
  { intros n Hn. rewrite Hmem. split.
    - intros Hv. destruct (decide (n ∈ new)) as [?|Hnin]; [by right|left].
      apply Hvis; [done|]. apply is_visited_lookup. rewrite <-(Hold n Hnin).
      by apply is_visited_lookup.
    - intros [Hin|Hin].
      + apply is_visited_lookup. rewrite Hold by (by apply Hdisj).
        apply is_visited_lookup. by apply Hvis.
      + destruct (Hnew n Hin) as (Hc & _). by apply Hvis1. }
  split.
  - by rewrite Hadj1.
  - by rewrite Hdist1.
  - rewrite Eseen. apply NoDup_app. split_and!; [done|exact Hdisj|done].
  - rewrite <-app_assoc. destruct done as [|d done']; [|done].
    cbn in *. by injection Hhd as ->.
  - intros n [Hn|Hn]%Hmem; [by apply Hreach|].
    destruct (Hnew n Hn) as (Hc & _). by apply Hrc.
  - exact Hvis'.
  - intros p c [Hp| ->%list_elem_of_singleton]%elem_of_app He.
    + apply Hmem. left. by eapply Hdone.
    + destruct He as (cs' & Hcs & Hc). rewrite <-Hadj, adj_lookup, Hu in Hcs.
      injection Hcs as <-. apply Hvis'; [by apply Hrc|by apply Hvis1].
  - intros c [Hc|Hc]%Hmem Hcs.
    + destruct (Hspan c Hc Hcs) as (p & nc & Hnc & Hsp & He & Hearly).
      exists p, nc. split_and!; [|done|done|by apply earlier_in_app].
      rewrite Hold; [done|by apply Hdisj].
    + destruct (Hnew c Hc) as (Hcu & Hnv & nc & Hnc & Hnc1).
      exists u, (found u nc). split_and!; [done|done| |].
      * apply (edge_adj h); [done|]. by eapply edge_children.
      * exists (done ++ [u]), []. split_and!; [by rewrite app_nil_r| |].
        -- apply elem_of_app. right. by left.
        -- intros Hin. apply (Hdisj c); [|done].
           apply elem_of_app in Hin as [?| ->%list_elem_of_singleton];
             apply elem_of_app; [by left|right; by left].
Qed.

Lemma dfs_run_post h0 s h u st out h' done :
  dfs_run h u st out h' →
  closed h0 →
  dfs_inv h0 s h done (u :: st) →
  dfs_inv h0 s h' (done ++ u :: out) [].
Proof.
  intros Hrun Hcl. revert done.
  induction Hrun as [h u nu st h' Hu Hrun|h u nu st h1 u' st' out h' Hu Hrun Hrest IH];
    intros done Hinv.
  all: destruct (dfs_children_spec u (children nu) h st)
    as (h2 & new & Hrun' & Hadj & Hdist & Hnd & Hnew & Hold & Hvis & Hcnt);
    [eapply closed_children; [|done];
     by apply (closed_adj h0); [symmetry; apply (dinv_adj _ _ _ _ _ Hinv)|]|].
  all: rewrite Hrun in Hrun'; injection Hrun' as <- Hqn.
  all: pose proof (dfs_inv_step h0 s h done u nu st _ new Hinv Hu Hadj Hdist Hnd Hnew
                     Hold Hvis) as Hinv'; rewrite <-Hqn in Hinv'.
  - done.
  - specialize (IH (done ++ [u]) Hinv'). by rewrite <-app_assoc in IH.
Qed.

(** X13: [_dfs s], run to its end in an arena whose child references are
    all valid and where no node that [s] reaches is marked visited, yields
    every node that [s] reaches along child edges, each once, [s] first.
    It leaves each yielded node visited, and each but [s] with a
    spanning-tree parent that has it as a child and was yielded before it;
    no distance is written. *)
Theorem dfs_yields_reachable_once h s :
  closed h → (s < length h)%nat →
  (∀ n, reachable h s n → ¬ is_visited h n) →
  ∃ out h',
    dfs_list (bfs_fuel h) (_dfs s) h = Some (out, h') ∧
    NoDup out ∧
    head out = Some s ∧
    (∀ n, n ∈ out ↔ reachable h s n) ∧
    (∀ n, n ∈ out → is_visited h' n) ∧
    (∀ c, c ∈ out → c ≠ s →
       ∃ p nc, h' !! c = Some nc ∧ span_parent nc = Some p ∧ edge h p c ∧
         ∃ l1 l2, out = l1 ++ l2 ∧ p ∈ l1 ∧ c ∉ l1) ∧
    distance <$> h' = distance <$> h.
Proof.
  intros Hcl Hs Hfresh.
  destruct (lookup_lt_is_Some_2 h s Hs) as [nd Hnd].
  destruct (dfs_list_start h s nd Hcl Hnd) as (out & h' & Hrun & Hlist).
  pose proof (dfs_inv_init h s nd Hnd Hfresh) as Hinv.
  pose proof (dfs_run_post h s _ s [] out h' [] Hrun Hcl Hinv)
    as [_ Hdist Hnodup _ Hreach Hvis Hdone Hspan].
  cbn in *. rewrite app_nil_r in *.
  exists (s :: out), h'. split_and!; try done.
  - intros n. split; [by apply Hreach|].
    apply (rtc_ind_r (λ n, n ∈ s :: out) s); [by left|].
    intros p c _ He Hp. by eapply Hdone.
  - intros n Hn. apply Hvis; [by apply Hreach|done].
Qed.

End DfsFacts.

Section DfsExamples.
Import Tree Dfs.

Lemma dfs_yields_reachable_once_witness :
  closed Samples.diamond ∧
  ∃ h', dfs_list (bfs_fuel Samples.diamond) (_dfs 0) Samples.diamond
          = Some ([0; 2; 3; 1]%nat, h') ∧
        span_parent <$> h' = [None; Some 0%nat; Some 0%nat; Some 2%nat] ∧
        distance <$> h' = [0; 0; 0; 0].
Proof.
  split; [exact diamond_closed|].
  destruct (dfs_yields_reachable_once Samples.diamond 0)
    as (out & h' & Hlist & _).
  - exact diamond_closed.
  - cbn. lia.
  - intros n _. apply diamond_fresh.
  - vm_compute in Hlist. injection Hlist as _ <-. eexists. split; [reflexivity|].
    split; reflexivity.
Defined.

End DfsExamples.

(** * More properties of the inventory builder *)

Section Built.
Import Tree Monitor Created.

Implicit Types (h : heap ManagedObject) (s : State ManagedObject) (p c r b : ref).

(** [c = Node([p], v, []); p.children.append(c)] keeps [created]. *)
Lemma new_child_created {B} b g p v (k : ref → M B) s :
  created b g s → (b ≤ p < length (objs s))%nat →
  let c := length (objs s) in
  ∃ s1, (c' ← new_node [p] v []; append_child p c';; k c') s = k c s1 ∧
    created b g s1 ∧ length (objs s1) = S c ∧
    objs s1 !! c = Some (mkNode [p] v [] (global_id s) false None 0).
Proof.
  intros (Hcl & Hb & Hg & Hnew) [Hbp Hp] c.
  destruct (lookup_lt_is_Some_2 (objs s) p Hp) as [np Hnp].
  set (nc := mkNode [p] v [] (global_id s) false None 0).
  set (h1 := objs s ++ [nc]).
  set (h2 := <[p := set_children (children np ++ [c]) np]> h1).
  assert (h1 !! p = Some np) as Hp1 by (by unfold h1; rewrite lookup_app_l).
  assert (length h2 = S c) as Hl2.
  { unfold h2, h1. rewrite length_insert, length_app. cbn. unfold c. lia. }
  assert (h2 !! c = Some nc) as Hc2.
  { unfold h2. rewrite list_lookup_insert_ne by (unfold c; lia).
    unfold h1. rewrite lookup_app_r by done. by rewrite Nat.sub_diag. }
  assert (h2 !! p = Some (set_children (children np ++ [c]) np)) as Hp2.
  { unfold h2. rewrite list_lookup_insert_eq; [done|]. by eapply lookup_lt_Some. }
  assert (∀ m, m ≠ p → m ≠ c → h2 !! m = objs s !! m) as Hother.
  { intros m Hmp Hmc. unfold h2. rewrite list_lookup_insert_ne by done.
    unfold h1. destruct (decide (m < c)%nat).
    - by rewrite lookup_app_l.
    - rewrite lookup_app_r by (unfold c in *; lia).
      rewrite (lookup_ge_None_2 (objs s)) by (unfold c in *; lia).
      apply lookup_ge_None_2. cbn. unfold c in *. lia. }
  exists (mkState h2 (global_id s + 1)). split_and!; [| |done|done].
  - unfold mbind, M_bind, bind, new_node, Node_init, append_child. cbn.
    fold nc h1 c. rewrite Hp1. done.
  - split_and!; cbn.
    + rewrite closed_lookup in *. intros m nd Hnd. rewrite Hl2.
      destruct (decide (m = p)) as [->|Hmp].
      * rewrite Hp2 in Hnd. injection Hnd as <-. cbn. apply Forall_app. split.
        -- eapply Forall_impl; [by eapply Hcl|]. intros c' ?. cbn in *. unfold c. lia.
        -- constructor; [lia|done].
      * destruct (decide (m = c)) as [->|Hmc].
        -- rewrite Hc2 in Hnd. injection Hnd as <-. constructor.
        -- rewrite Hother in Hnd by done.
           eapply Forall_impl; [by eapply Hcl|]. intros c' ?. cbn in *. unfold c. lia.
    + rewrite Hl2. unfold c. lia.
    + rewrite Hl2, Hg. unfold c. lia.
    + intros m nd Hm Hnd.
      destruct (decide (m = c)) as [->|Hmc].
      * rewrite Hc2 in Hnd. injection Hnd as <-. cbn. split_and!; [|done|done|].
        -- rewrite Hg. done.
        -- intros _. exists p, (set_children (children np ++ [c]) np).
           split_and!; [lia|unfold c; lia|done|]. cbn. apply elem_of_app. right. by left.
      * destruct (decide (m = p)) as [->|Hmp].
        -- rewrite Hp2 in Hnd. injection Hnd as <-. cbn.
           destruct (Hnew p np Hm Hnp) as (Hid & Hv & Hch & Hatt).
           split_and!; [done|done| |].
           ++ apply Forall_app. split; [done|]. constructor; [unfold c; lia|done].
           ++ intros Hpb. destruct (Hatt Hpb) as (p' & np' & Hp' & Hnp' & Hin).
              assert (p' ≠ c) by (unfold c; lia).
              exists p', np'. split_and!; [lia|lia| |done].
              rewrite Hother; [done|lia|done].
        -- rewrite Hother in Hnd by done.
           destruct (Hnew m nd Hm Hnd) as (Hid & Hv & Hch & Hatt).
           split_and!; [done..|].
           intros Hmb. destruct (Hatt Hmb) as (p' & np' & Hp' & Hnp' & Hin).
           destruct (decide (p' = p)) as [->|Hpp].
           ++ rewrite Hnp in Hnp'. injection Hnp' as <-.
              exists p, (set_children (children np ++ [c]) np).
              split_and!; [lia|lia|done|]. cbn. apply elem_of_app. by left.
           ++ exists p', np'. split_and!; [lia|lia| |done].
              rewrite Hother; [done|done|]. apply lookup_lt_Some in Hnd. unfold c. lia.
Qed.

(** A loop whose body keeps [created] and creates [size a] objects. *)
Lemma for_each_created {A} (size : A → nat) (body : A → M unit) (l : list A) b g p s :
  (∀ a s, created b g s → (b ≤ p < length (objs s))%nat →
     ∃ s', body a s = Some (tt, s') ∧ created b g s' ∧
           length (objs s') = (length (objs s) + size a)%nat) →
  created b g s → (b ≤ p < length (objs s))%nat →
  ∃ s', for_each l body s = Some (tt, s') ∧ created b g s' ∧
        length (objs s') = (length (objs s) + sum_list (size <$> l))%nat.
Proof.
  intros Hbody. revert s. induction l as [|a l IH]; intros s Hcr Hp.
  { exists s. split_and!; [done|done|cbn; lia]. }
  destruct (Hbody a s Hcr Hp) as (s1 & Hrun & Hcr1 & Hl1).
  destruct (IH s1 Hcr1) as (s' & Hrest & Hcr' & Hl'); [lia|].
  exists s'. split_and!; [|done|cbn; lia].
  cbn [for_each]. unfold mbind, M_bind, bind. by rewrite Hrun.
Qed.

Lemma attach_vms_created b g p hs s :
  created b g s → (b ≤ p < length (objs s))%nat →
  ∃ s', attach_vms p hs s = Some (tt, s') ∧ created b g s' ∧
        length (objs s') = (length (objs s) + length (vm hs))%nat.
Proof.
  intros Hcr Hp. unfold attach_vms.
  destruct (for_each_created (λ _ : VirtualMachine, 1%nat)
    (λ v, host_child ← new_node [p] (OVirtualMachine v) []; append_child p host_child)
    (vm hs) b g p s) as (s' & Hrun & Hcr' & Hl); [|done|done|].
  - intros v s0 Hcr0 Hp0.
    destruct (new_child_created b g p (OVirtualMachine v) (λ _, mret tt) s0 Hcr0 Hp0)
      as (s1 & Hrun & Hcr1 & Hl1 & _).
    exists s1. split_and!; [|done|lia].
    revert Hrun. unfold mbind, M_bind, bind, mret, M_ret, ret. cbn.
    destruct (append_child _ _ _) as [[[] ?]|]; [|done]. done.
  - exists s'. split_and!; [done|done|]. rewrite Hl. f_equal.
    clear. induction (vm hs) as [|v l IH]; [done|]. cbn. by rewrite IH.
Qed.

Lemma host_body_created b g p hs s :
  created b g s → (b ≤ p < length (objs s))%nat →
  ∃ s', (cr_child ← new_node [p] (OHost hs) [];
         append_child p cr_child;; attach_vms cr_child hs) s = Some (tt, s') ∧
    created b g s' ∧ length (objs s') = (length (objs s) + host_size hs)%nat.
Proof.
  intros Hcr Hp.
  destruct (new_child_created b g p (OHost hs) (λ c, attach_vms c hs) s Hcr Hp)
    as (s1 & Hrun & Hcr1 & Hl1 & _).
  destruct (attach_vms_created b g (length (objs s)) hs s1 Hcr1) as (s2 & Hvms & Hcr2 & Hl2);
    [lia|].
  exists s2. split_and!; [by rewrite Hrun|done|]. unfold host_size. lia.
Qed.

Lemma child_body_created b g r (h_cr : HostOrCR) s :
  created b g s → (b ≤ r < length (objs s))%nat →
  ∃ s', (root_child ← new_node [r] (to_object h_cr) [];
         append_child r root_child;;
         match h_cr with
         | IsHost hst => attach_vms root_child hst
         | IsCR cr =>
             for_each (host cr) (λ hst,
               cr_child ← new_node [root_child] (OHost hst) [];
               append_child root_child cr_child;;
               attach_vms cr_child hst)
         end) s = Some (tt, s') ∧
    created b g s' ∧ length (objs s') = (length (objs s) + child_size h_cr)%nat.
Proof.
  intros Hcr Hr. destruct h_cr as [hs|cr]; [by apply host_body_created|].
  destruct (new_child_created b g r (OComputeResource cr)
              (λ root_child, for_each (host cr) (λ hst,
                 cr_child ← new_node [root_child] (OHost hst) [];
                 append_child root_child cr_child;;
                 attach_vms cr_child hst)) s Hcr Hr)
    as (s1 & Hrun & Hcr1 & Hl1 & _).
  destruct (for_each_created host_size
              (λ hst, cr_child ← new_node [length (objs s)] (OHost hst) [];
                      append_child (length (objs s)) cr_child;;
                      attach_vms cr_child hst)
              (host cr) b g (length (objs s)) s1) as (s2 & Hhosts & Hcr2 & Hl2).
  - intros hs s0 Hcr0 Hp0. by apply host_body_created.
  - done.
  - lia.
  - exists s2. split_and!; [cbn [to_object]; by rewrite Hrun|done|].
    cbn [child_size]. lia.
Qed.

Lemma created_reachable b g s n :
  created b g s → (b < length (objs s))%nat →
  reachable (objs s) b n ↔ (b ≤ n < length (objs s))%nat.
Proof.
  intros (Hcl & Hb & Hg & Hnew) Hlt. split.
  - revert n. apply (rtc_ind_r (λ n, b ≤ n < length (objs s))%nat b); [lia|].
    intros p c _ (cs & Hcs & Hc) IH.
    rewrite adj_lookup in Hcs.
    destruct (objs s !! p) as [np|] eqn:Hp; [|done]. injection Hcs as <-.
    destruct (Hnew p np) as (_ & _ & Hch & _); [lia|done|].
    rewrite closed_lookup in Hcl. specialize (Hcl p np Hp).
    rewrite Forall_forall in Hch, Hcl. specialize (Hch c Hc). specialize (Hcl c Hc).
    lia.
  - intros [Hbn Hn]. revert Hbn Hn. induction n as [n IH] using lt_wf_ind. intros Hbn Hn.
    destruct (decide (n = b)) as [->|Hne]; [apply rtc_refl|].
    destruct (lookup_lt_is_Some_2 (objs s) n Hn) as [nd Hnd].
    destruct (Hnew n nd Hbn Hnd) as (_ & _ & _ & Hatt).
    destruct (Hatt Hne) as (p & np & Hp & Hnp & Hin).
    eapply rtc_r; [apply (IH p); lia|]. by eapply edge_children.
Qed.

Lemma skeleton_id (h h' : heap ManagedObject) n :
  skeleton h' = skeleton h → id <$> h' !! n = id <$> h !! n.
Proof.
  intros E. apply (f_equal (fmap (λ x, x.2))) in E. unfold skeleton in E.
  rewrite <-!list_fmap_compose in E.
  apply (f_equal (λ l, l !! n)) in E. by rewrite !list_lookup_fmap in E.
Qed.

(** What [_build_dc_tree] returns, in terms of the objects it created. *)
Lemma build_dc_tree_created dc s :
  closed (objs s) →
  let b := length (objs s) in
  ∃ t s', _build_dc_tree dc s = Some (Ok t, s') ∧
    root t = b ∧
    length (objs s') = (b + dc_size dc)%nat ∧
    global_id s' = global_id s + Z.of_nat (dc_size dc) ∧
    NoDup (nodes t) ∧
    (∀ n, n ∈ nodes t ↔ (b ≤ n < b + dc_size dc)%nat) ∧
    (∀ n, (b ≤ n < b + dc_size dc)%nat →
       id <$> objs s' !! n = Some (global_id s + Z.of_nat (n - b))) ∧
    leaf t = filter (λ n, is_leaf_at (objs s') n) (nodes t) ∧
    closed (objs s').
Proof.
  intros Hcl b. set (g := global_id s).
  set (nr := mkNode [] (ODatacenter dc) [] g false None 0).
  set (s1 := mkState (objs s ++ [nr]) (g + 1)).
  assert (objs s1 !! b = Some nr) as Hr1.
  { cbn. rewrite lookup_app_r by done. by rewrite Nat.sub_diag. }
  assert (length (objs s1) = S b) as Hl1 by (cbn; rewrite length_app; cbn; lia).
  assert (created b g s1) as Hcr1.
  { split_and!; [by apply closed_new_node|lia|cbn; rewrite length_app; cbn; lia|].
    intros m nd Hm Hnd. assert (m = b) as ->.
    { apply lookup_lt_Some in Hnd. lia. }
    rewrite Hr1 in Hnd. injection Hnd as <-. cbn.
    split_and!; [by rewrite Nat.sub_diag, Z.add_0_r|done|done|done]. }
  set (body := λ h_cr : HostOrCR,
       root_child ← new_node [b] (to_object h_cr) [];
       append_child b root_child;;
       match h_cr with
       | IsHost hst => attach_vms root_child hst
       | IsCR cr =>
           for_each (host cr) (λ hst,
             cr_child ← new_node [root_child] (OHost hst) [];
             append_child root_child cr_child;;
             attach_vms cr_child hst)
       end).
  destruct (for_each_created child_size body (get_child_objects (hostFolder dc) []) b g b s1)
    as (s2 & Hloop & Hcr2 & Hl2); [|done|lia|].
  { intros o s0 Hcr0 Hp0. by apply child_body_created. }
  destruct (for_each_grows child_node body (get_child_objects (hostFolder dc) []) b s1)
    as (s2' & cs & Hloop' & Hg' & _).
  { intros. by eapply child_node_frame. }
  { intros o s0 Hp0. by apply child_body_spec. }
  { by eauto. }
  rewrite Hloop in Hloop'. injection Hloop' as <-.
  destruct Hg' as (nr' & Hr1' & Hr2 & _). rewrite Hr1 in Hr1'. injection Hr1' as <-.
  assert (length (objs s2) = (b + dc_size dc)%nat) as Hlen2.
  { rewrite Hl2, Hl1. unfold dc_size. lia. }
  pose proof Hcr2 as (Hcl2 & _ & Hg2 & Hnew2).
  assert (b < length (objs s2))%nat as Hblt by (unfold dc_size in Hlen2; lia).
  assert (∀ n, reachable (objs s2) b n → ¬ is_visited (objs s2) n) as Hfresh.
  { intros n Hn%(created_reachable b g s2) Hv; [|done..].
    apply is_visited_lookup in Hv as (nd & Hnd & Hv).
    destruct (Hnew2 n nd) as (_ & Hv' & _); [lia|done|congruence]. }
  set (t0 := mkDCTree b [] []).
  destruct (for_bfs_start (objs s2) b _ t0 Hcl2 Hr2) as (out & h' & Hrun & Hfor).
  pose proof (bfs_inv_init (objs s2) b _ Hr2 Hfresh) as Hinv.
  pose proof (bfs_run_post (objs s2) b _ b [] out h' [] Hrun Hcl2 Hinv)
    as [Hadj Hnd _ Hreach _ _]. cbn in Hnd, Hreach.
  pose proof (for_bfs_skeleton _ _ _ _ _ _ Hfor) as Hsk.
  exists (extended (objs s2) t0 (b :: out)), (mkState h' (global_id s2)).
  split_and!.
  - unfold _build_dc_tree.
    rewrite (M_bind_Some _ _ s b s1) by done. cbn beta zeta. fold body.
    rewrite (M_bind_Some _ _ s1 tt s2 Hloop).
    unfold on_heap, DCTree_init. rewrite Hr2. cbn.
    unfold update_struct. cbn. fold t0. by rewrite Hfor.
  - done.
  - cbn. by rewrite (adj_length _ _ Hadj).
  - cbn. rewrite Hg2, Hlen2. unfold g. f_equal. lia.
  - done.
  - intros n. cbn. rewrite Hreach, (created_reachable b g s2) by done. by rewrite Hlen2.
  - intros n Hn. cbn. rewrite (skeleton_id (objs s2)) by done.
    destruct (lookup_lt_is_Some_2 (objs s2) n) as [nd Hnd']; [lia|].
    rewrite Hnd'. cbn. by destruct (Hnew2 n nd) as (-> & _); [lia|done|].
  - rewrite (extended_adj (objs s2) h') by done. unfold extended. cbn [leaf nodes t0 objs].
    done.
  - cbn. by apply (closed_adj (objs s2)).
Qed.

(** X14: from any arena with valid child references, the tree that
    [_build_dc_tree] returns lists exactly the objects it has created, each
    once: one for the datacenter, one per host or compute resource that
    [get_child_objects] resolves, one per host of a compute resource and
    one per virtual machine of a host.  The objects have taken the ids from
    [Node.global_id] on, in the order of their creation, and
    [Node.global_id] has advanced by their number. *)
Theorem build_dc_tree_lists_created dc s :
  closed (objs s) →
  ∃ t s', _build_dc_tree dc s = Some (Ok t, s') ∧
    nodes t ≡ₚ seq (length (objs s)) (dc_size dc) ∧
    length (nodes t) = dc_size dc ∧
    length (objs s') = (length (objs s) + dc_size dc)%nat ∧
    global_id s' = global_id s + Z.of_nat (dc_size dc) ∧
    (∀ n, n ∈ nodes t →
       id <$> objs s' !! n = Some (global_id s + Z.of_nat (n - length (objs s)))) ∧
    leaf t = filter (λ n, is_leaf_at (objs s') n) (nodes t).
Proof.
  intros Hcl.
  destruct (build_dc_tree_created dc s Hcl)
    as (t & s' & Hrun & _ & Hlen & Hgid & Hnd & Hin & Hid & Hleaf & _).
  assert (nodes t ≡ₚ seq (length (objs s)) (dc_size dc)) as Hperm.
  { apply NoDup_Permutation; [done|apply NoDup_seq|].
    intros n. by rewrite Hin, elem_of_seq. }
  exists t, s'. split_and!; try done.
  - by rewrite Hperm, length_seq.
  - intros n Hn. apply Hid. by apply Hin.
Qed.

(** X15: in a tree that [_build_dc_tree] has returned, [search] finds every
    node by its own id, and finds no node under an id that was not handed
    out during the construction. *)
Theorem build_dc_tree_search dc s t s' :
  closed (objs s) →
  _build_dc_tree dc s = Some (Ok t, s') →
  (∀ n, n ∈ nodes t →
     ∃ nd, objs s' !! n = Some nd ∧ search t (id nd) (objs s') = Some (Some n)) ∧
  (∀ id_, id_ < global_id s ∨ global_id s' ≤ id_ → search t id_ (objs s') = Some None).
Proof.
  intros Hcl Hrun.
  destruct (build_dc_tree_created dc s Hcl)
    as (t1 & s1 & Hrun1 & _ & Hlen & Hgid & Hnd & Hin & Hid & Hleaf & _).
  rewrite Hrun in Hrun1. injection Hrun1 as <- <-.
  set (b := length (objs s)) in *.
  assert (Forall (λ n, (n < length (objs s'))%nat) (nodes t)) as Hrange.
  { apply Forall_forall. intros n Hn%Hin. lia. }
  split.
  - intros n Hn. pose proof Hn as Hn'%Hin.
    destruct (lookup_lt_is_Some_2 (objs s') n) as [nd Hnd']; [lia|].
    exists nd. split; [done|].
    pose proof (Hid n Hn') as Hidn. rewrite Hnd' in Hidn. injection Hidn as Hidn.
    pose proof (search_in_spec (nodes t) (id nd) (objs s') Hrange) as Hs. fold (search t (id nd) (objs s')) in Hs.
    destruct (search t (id nd) (objs s')) as [[n'|]|]; [| |done].
    + destruct Hs as (before & after & Hsplit & Hid' & _).
      assert (n' ∈ nodes t) as Hn1%Hin.
      { rewrite Hsplit. apply elem_of_app. right. by left. }
      rewrite (Hid n' Hn1), Hidn in Hid'. injection Hid' as Hid'.
      do 2 f_equal. lia.
    + exfalso. apply (Hs n Hn). by rewrite Hnd'.
  - intros id_ Hout.
    pose proof (search_in_spec (nodes t) id_ (objs s') Hrange) as Hs. fold (search t id_ (objs s')) in Hs.
    destruct (search t id_ (objs s')) as [[n'|]|]; [|done|done].
    destruct Hs as (before & after & Hsplit & Hid' & _).
    assert (n' ∈ nodes t) as Hn1%Hin.
    { rewrite Hsplit. apply elem_of_app. right. by left. }
    rewrite (Hid n' Hn1) in Hid'. injection Hid' as Hid'. lia.
Qed.

Lemma build_dc_tree_lists_created_witness :
  closed (objs (mkState ([] : heap ManagedObject) 1)) ∧
  dc_size Samples.datacenter = 7%nat ∧
  ∃ t s', _build_dc_tree Samples.datacenter (mkState [] 1) = Some (Ok t, s') ∧
    nodes t ≡ₚ seq 0 7 ∧ global_id s' = 8 ∧
    id <$> objs s' = [1; 2; 3; 4; 5; 6; 7].
Proof.
  split; [constructor|]. split; [reflexivity|].
  destruct (build_dc_tree_lists_created Samples.datacenter (mkState [] 1))
    as (t & s' & Hrun & Hperm & _ & _ & Hgid & _); [constructor|].
  exists t, s'. split; [exact Hrun|]. split; [exact Hperm|]. split; [exact Hgid|].
  vm_compute in Hrun. by injection Hrun as _ <-.
Defined.

Lemma build_dc_tree_search_witness :
  closed (objs (mkState ([] : heap ManagedObject) 1)) ∧
  ∃ t s', _build_dc_tree Samples.datacenter (mkState [] 1) = Some (Ok t, s') ∧
    search t 5 (objs s') = Some (Some 4%nat) ∧
    search t 8 (objs s') = Some None.
Proof.
  split; [constructor|].
  destruct (_build_dc_tree Samples.datacenter (mkState [] 1)) as [[[t|e] s']|] eqn:Hrun;
    [|vm_compute in Hrun; discriminate..].
  destruct (build_dc_tree_search Samples.datacenter (mkState [] 1) t s') as [_ Hnone];
    [constructor|exact Hrun|].
  exists t, s'. split; [reflexivity|]. split.
  - vm_compute in Hrun. by injection Hrun as <- <-.
  - apply Hnone. right. vm_compute in Hrun. injection Hrun as _ <-. cbn. lia.
Defined.

End Built.

(** * The distances recorded by the breadth-first traversal *)

Section LevelFacts.
Import Tree Levels.
Context {V : Type}.

Implicit Types (h : heap V) (n u c s p : ref) (q out cs done new : list ref)
  (nd nu nc ns : Node V).

Lemma StronglySorted_ext_in {A} (R R' : A → A → Prop) (l : list A) :
  (∀ a b, a ∈ l → b ∈ l → R a b → R' a b) →
  StronglySorted R l → StronglySorted R' l.
Proof.
  induction l as [|x l IH]; intros Hext Hs; [constructor|].
  apply StronglySorted_cons in Hs as [Hx Hs]. apply StronglySorted_cons. split.
  - rewrite Forall_forall in Hx |- *. intros y Hy.
    apply Hext; [by left|by right|by apply Hx].
  - apply IH; [|done]. intros a b Ha Hb. apply Hext; by right.
Qed.

Lemma StronglySorted_all {A} (R : A → A → Prop) (l : list A) :
  (∀ a b, a ∈ l → b ∈ l → R a b) → StronglySorted R l.
Proof.
  induction l as [|x l IH]; intros HR; [constructor|].
  apply StronglySorted_cons. split.
  - apply Forall_forall. intros y Hy. apply HR; [by left|by right].
  - apply IH. intros a b Ha Hb. apply HR; by right.
Qed.

Lemma recorded_lookup h n nd : h !! n = Some nd → recorded h n = distance nd.
Proof. unfold recorded. by intros ->. Qed.

Lemma recorded_eq h h' n : h' !! n = h !! n → recorded h' n = recorded h n.
Proof. unfold recorded. by intros ->. Qed.

Lemma lvl_inv_init h0 s nd :
  h0 !! s = Some nd →
  lvl_inv h0 s (distance nd) (<[s := set_visited true nd]> h0) [] [s].
Proof.
  intros Hs.
  assert (recorded (<[s := set_visited true nd]> h0) s = distance nd) as Hrec.
  { apply (recorded_lookup _ _ (set_visited true nd)).
    apply list_lookup_insert_eq. by eapply lookup_lt_Some. }
  split; cbn.
  - done.
  - intros n ->%list_elem_of_singleton. exists 0%nat. split; [lia|constructor].
  - by intros a b ?%elem_of_nil.
  - repeat constructor.
  - intros a b [= <-] ->%list_elem_of_singleton. lia.
  - by intros p c ?%elem_of_nil.
Qed.

(** One pass over the children of the node at the head of the queue keeps
    the invariant on distances. *)
Lemma lvl_inv_step h0 s d0 h done u nu q h1 new :
  bfs_inv h0 s h done (u :: q) →
  lvl_inv h0 s d0 h done (u :: q) →
  h !! u = Some nu →
  (∀ c, c ∈ new → c ∈ children nu ∧ ¬ is_visited h c ∧
     ∃ nc, h !! c = Some nc ∧ h1 !! c = Some (discover u (distance nu) nc)) →
  (∀ n, n ∉ new → h1 !! n = h !! n) →
  (∀ c, c ∈ children nu → is_visited h1 c) →
  lvl_inv h0 s d0 h1 (done ++ [u]) (q ++ new).
Proof.
  intros [Hadj Hnd [rest Hhd] Hreach Hvis Hdone _] [Hst Hpath Hle Hsorted Htwo Hedge]
    Hu Hnew Hold Hvis1.
  assert (∀ n, n ∈ done ++ u :: q → n ∉ new) as Hseen.
  { intros n Hn Hin. destruct (Hnew n Hin) as (_ & Hnv & _). apply Hnv.
    apply Hvis; [by apply Hreach|done]. }
  assert (∀ n, n ∈ done ++ u :: q → recorded h1 n = recorded h n) as Hsame.
  { intros n Hn. apply recorded_eq, Hold. by apply Hseen. }
  assert (u ∈ done ++ u :: q) as Hin_u by (apply elem_of_app; right; by left).
  assert (∀ c, c ∈ new → recorded h1 c = recorded h u + 1) as Hrec_new.
  { intros c Hc. destruct (Hnew c Hc) as (_ & _ & nc & _ & Hc1).
    by rewrite (recorded_lookup _ _ _ Hc1), (recorded_lookup _ _ _ Hu). }
  assert (s ∈ done ++ u :: q) as Hin_s by (rewrite Hhd; by left).
  assert (∀ b, b ∈ q → recorded h u ≤ recorded h b) as Hq_ge.
  { intros b Hb. apply StronglySorted_cons in Hsorted as [Hall _].
    rewrite Forall_forall in Hall. by apply Hall. }
  assert (∀ b, b ∈ q → recorded h b ≤ recorded h u + 1) as Hq_le.
  { intros b Hb. apply (Htwo u b); [done|by right]. }
  assert (∀ b, b ∈ q → b ∈ done ++ u :: q) as Hq_in.
  { intros b Hb. apply elem_of_app. right. by right. }
  assert (∀ a, a ∈ done → a ∈ done ++ u :: q) as Hd_in.
  { intros a Ha. apply elem_of_app. by left. }
  assert (∀ a, a ∈ done → recorded h a ≤ recorded h u) as Hd_le.
  { intros a Ha. apply Hle; [done|by left]. }
  assert (∀ b, b ∈ q ++ new → recorded h u ≤ recorded h1 b ≤ recorded h u + 1) as Hpend.
  { intros b [Hb|Hb]%elem_of_app.
    - rewrite Hsame by auto. split; auto.
    - rewrite Hrec_new by done. lia. }
  split.
  - by rewrite Hsame.
  - intros n Hn.
    replace ((done ++ [u]) ++ q ++ new) with ((done ++ u :: q) ++ new) in Hn
      by (by rewrite <-!app_assoc).
    apply elem_of_app in Hn as [Hn|Hn].
    + rewrite Hsame by done. by apply Hpath.
    + destruct (Hpath u Hin_u) as (k & Hk & Hsteps).
      exists (S k). split; [rewrite Hrec_new by done; lia|].
      eapply nsteps_r; [done|]. destruct (Hnew n Hn) as (Hc & _).
      exists (children nu). split; [|done]. by rewrite <-Hadj, adj_lookup, Hu.
  - intros a b Ha Hb. specialize (Hpend b Hb).
    apply elem_of_app in Ha as [Ha| ->%list_elem_of_singleton].
    + rewrite Hsame by auto. specialize (Hd_le a Ha). lia.
    + rewrite Hsame by done. lia.
  - apply StronglySorted_app. split_and!.
    + intros a b Ha Hb. rewrite Hsame, Hrec_new by auto. by apply Hq_le.
    + apply StronglySorted_cons in Hsorted as [_ Hsorted].
      eapply StronglySorted_ext_in; [|done]. intros a b Ha Hb. cbn.
      by rewrite !Hsame by auto.
    + apply StronglySorted_all. intros a b Ha Hb. rewrite !Hrec_new by done. lia.
  - intros a b Ha Hb.
    assert (a ∈ q ++ new) as Ha' by (by eapply head_Some_elem_of).
    pose proof (Hpend a Ha'). pose proof (Hpend b Hb). lia.
  - intros p c Hp He.
    apply elem_of_app in Hp as [Hp| ->%list_elem_of_singleton].
    + assert (c ∈ done ++ u :: q) as Hc by (by eapply Hdone).
      rewrite !Hsame by auto. by apply Hedge.
    + rewrite (Hsame u) by done.
      assert (c ∈ children nu) as Hc.
      { destruct He as (cs & Hcs & Hc). rewrite <-Hadj, adj_lookup, Hu in Hcs.
        by injection Hcs as <-. }
      destruct (decide (c ∈ new)) as [Hcn|Hcn]; [rewrite Hrec_new by done; lia|].
      assert (is_visited h c) as Hvc.
      { specialize (Hvis1 c Hc). apply is_visited_lookup in Hvis1 as (nc & Hnc & ?).
        apply is_visited_lookup. exists nc. by rewrite <-Hold. }
      assert (c ∈ done ++ u :: q) as Hin.
      { apply Hvis; [|done]. apply (rtc_r s u c); [by apply Hreach|done]. }
      rewrite Hsame by done.
      apply elem_of_app in Hin as [Hin|[-> |Hin]%elem_of_cons].
      * specialize (Hd_le c Hin). lia.
      * lia.
      * by apply Hq_le.
Qed.

(** At the end of a run every yielded node records the length of a path to
    it, and no child edge goes up by more than one. *)
Lemma bfs_run_levels h0 s d0 h u q out h' done :
  bfs_run h u q out h' →
  closed h0 →
  bfs_inv h0 s h done (u :: q) →
  lvl_inv h0 s d0 h done (u :: q) →
  lvl_inv h0 s d0 h' (done ++ u :: out) [].
Proof.
  intros Hrun Hcl. revert done.
  induction Hrun as [h u nu q h' Hu Hrun|h u nu q h1 u' q' out h' Hu Hrun Hrest IH];
    intros done Hinv Hlvl.
  all: assert (is_visited h u) as Hvu
    by (apply (inv_visited _ _ _ _ _ Hinv);
        [apply (inv_reach _ _ _ _ _ Hinv)|]; apply elem_of_app; right; by left).
  all: pose proof Hvu as (nu' & Hu' & Hvnu)%is_visited_lookup;
    rewrite Hu in Hu'; injection Hu' as <-.
  all: destruct (bfs_children_spec u nu (children nu) h q Hu Hvnu)
    as (h2 & new & Hrun' & Hadj & Hnd & Hnew & Hold & Hvis & Hcnt);
    [eapply closed_children; [|done];
     by apply (closed_adj h0); [symmetry; apply (inv_adj _ _ _ _ _ Hinv)|]|].
  all: rewrite Hrun in Hrun'; injection Hrun' as <- Hqn.
  all: pose proof (bfs_inv_step h0 s h done u nu q _ new Hinv Hu Hadj Hnd Hnew Hold Hvis)
    as Hinv'; rewrite <-Hqn in Hinv'.
  all: pose proof (lvl_inv_step h0 s d0 h done u nu q _ new Hinv Hlvl Hu Hnew Hold Hvis)
    as Hlvl'; rewrite <-Hqn in Hlvl'.
  - done.
  - specialize (IH (done ++ [u]) Hinv' Hlvl'). by rewrite <-app_assoc in IH.
Qed.

(** X16: run to its end by a [for] loop, in an arena whose child
    references are all valid and where no node that [s] reaches is marked
    visited, [_bfs s] leaves in each node that [s] reaches the distance of
    [s] plus the number of child edges of a shortest path from [s] to the
    node. *)
Theorem bfs_records_shortest_distance h s ns t :
  closed h → h !! s = Some ns →
  (∀ n, reachable h s n → ¬ is_visited h n) →
  ∃ t' h', for_bfs (bfs_fuel h) (_bfs s) h t = Some (t', h') ∧
    ∀ n, reachable h s n →
      ∃ nd k, h' !! n = Some nd ∧ shortest h s n k ∧
              distance nd = distance ns + Z.of_nat k.
Proof.
  intros Hcl Hs Hfresh.
  destruct (for_bfs_start h s ns t Hcl Hs) as (out & h' & Hrun & Hfor).
  pose proof (bfs_inv_init h s ns Hs Hfresh) as Hinv.
  pose proof (lvl_inv_init h s ns Hs) as Hlvl.
  pose proof (bfs_run_post h s _ s [] out h' [] Hrun Hcl Hinv) as [Hadj _ _ Hreach Hvis _].
  pose proof (bfs_run_levels h s _ _ s [] out h' [] Hrun Hcl Hinv Hlvl)
    as [Hst Hpath _ _ _ Hedge].
  cbn in Hreach, Hvis, Hpath, Hedge.
  exists (extended h t (s :: out)), h'. split; [done|].
  assert (∀ k n, nsteps (edge h) k s n → recorded h' n ≤ distance ns + Z.of_nat k) as Hub.
  { induction k as [|k IH]; intros n Hn.
    - inversion Hn; subst. lia.
    - apply nsteps_inv_r in Hn as (p & Hp & He).
      assert (p ∈ s :: out) as Hin by (apply Hreach; by eapply rtc_nsteps_2).
      specialize (Hedge p n Hin He). specialize (IH p Hp). lia. }
  intros n Hn%Hreach.
  destruct (Hpath n) as (k & Hk & Hsteps); [by rewrite app_nil_r|].
  pose proof (Hvis n Hn) as (nd & Hnd & _)%is_visited_lookup.
  exists nd, k. split; [done|]. rewrite <-(recorded_lookup h' n nd Hnd). split; [|done].
  split; [done|]. intros k' Hk'. specialize (Hub k' n Hk'). lia.
Qed.

End LevelFacts.

Section LevelExamples.
Import Tree Levels.

Lemma bfs_records_shortest_distance_witness :
  closed Samples.diamond ∧
  (∀ n, reachable Samples.diamond 0 n → ¬ is_visited Samples.diamond n) ∧
  ∃ t' h', for_bfs (bfs_fuel Samples.diamond) (_bfs 0) Samples.diamond (mkDCTree 0 [] []) =
             Some (t', h') ∧
    distance <$> h' = [0; 1; 1; 2].
Proof.
  assert (∀ n, reachable Samples.diamond 0 n → ¬ is_visited Samples.diamond n) as Hfresh.
  { intros n _. apply diamond_fresh. }
  split; [exact diamond_closed|]. split; [exact Hfresh|].
  destruct (bfs_records_shortest_distance Samples.diamond 0 (Samples.fresh [1; 2]%nat)
              (mkDCTree 0 [] []) diamond_closed eq_refl Hfresh)
    as (t' & h' & Hfor & _).
  exists t', h'. split; [exact Hfor|].
  vm_compute in Hfor. by injection Hfor as _ <-.
Defined.

End LevelExamples.

(** * Properties of the inventory *)

Section DictFacts.
Import Struct.
Context {K A : Type} `{EqDecision K}.

Implicit Types (d items : list (K * A)) (k : K) (v : A).

Lemma dict_get_set k k' v d :
  dict_get k (dict_set k' v d) = if decide (k' = k) then Some v else dict_get k d.
Proof.
  induction d as [|[k0 v0] d IH]; cbn.
  - by destruct (decide (k' = k)).
  - destruct (decide (k0 = k')) as [->|Hne]; cbn.
    + by destruct (decide (k' = k)).
    + rewrite IH. destruct (decide (k0 = k)) as [->|?]; [|done].
      by destruct (decide (k' = k)).
Qed.

Lemma dict_set_fresh k v d : k ∉ d.*1 → dict_set k v d = d ++ [(k, v)].
Proof.
  induction d as [|[k0 v0] d IH]; cbn; [done|].
  intros [Hne Hk]%not_elem_of_cons.
  destruct (decide (k0 = k)) as [->|_]; [done|]. by rewrite IH.
Qed.

Lemma dict_set_keys k v d : k ∈ d.*1 → (dict_set k v d).*1 = d.*1.
Proof.
  induction d as [|[k0 v0] d IH]; cbn; [by intros ?%elem_of_nil|].
  destruct (decide (k0 = k)) as [->|Hne]; [done|].
  intros [?|Hk]%elem_of_cons; [done|]. cbn. by rewrite IH.
Qed.

Lemma dict_set_elem k v k' v' d :
  (k, v) ∈ dict_set k' v' d → (k, v) = (k', v') ∨ (k, v) ∈ d.
Proof.
  induction d as [|[k0 v0] d IH]; cbn.
  - intros ->%list_elem_of_singleton. by left.
  - destruct (decide (k0 = k')) as [->|Hne].
    + intros [->|Hin]%elem_of_cons; [by left|]. right. by right.
    + intros [->|Hin]%elem_of_cons; [right; by left|].
      destruct (IH Hin) as [?|?]; [by left|]. right. by right.
Qed.

Lemma dict_of_snoc items k v : dict_of (items ++ [(k, v)]) = dict_set k v (dict_of items).
Proof. unfold dict_of. by rewrite foldl_app. Qed.

Lemma dict_of_keys items k : k ∈ (dict_of items).*1 ↔ k ∈ items.*1.
Proof.
  induction items as [|[k0 v0] items IH] using rev_ind; [done|].
  rewrite dict_of_snoc, fmap_app, elem_of_app. cbn. rewrite list_elem_of_singleton, <-IH.
  destruct (decide (k0 ∈ (dict_of items).*1)) as [Hin|Hin].
  - rewrite dict_set_keys by done. split; [by left|]. by intros [?| ->].
  - rewrite dict_set_fresh by done. rewrite fmap_app, elem_of_app. cbn.
    by rewrite list_elem_of_singleton.
Qed.

(** A dictionary never holds a key twice. *)
Lemma dict_of_NoDup items : NoDup (dict_of items).*1.
Proof.
  induction items as [|[k0 v0] items IH] using rev_ind; [constructor|].
  rewrite dict_of_snoc.
  destruct (decide (k0 ∈ (dict_of items).*1)) as [Hin|Hin].
  - by rewrite dict_set_keys.
  - rewrite dict_set_fresh by done. rewrite fmap_app. cbn.
    apply NoDup_app. split_and!; [done| |apply NoDup_singleton].
    by intros k Hk ->%list_elem_of_singleton.
Qed.

(** Items with different keys end up in the dictionary as they come. *)
Lemma dict_of_id items : NoDup items.*1 → dict_of items = items.
Proof.
  induction items as [|[k0 v0] items IH] using rev_ind; [done|].
  rewrite fmap_app. cbn. intros (Hnd & Hk & _)%NoDup_app.
  rewrite dict_of_snoc, IH by done. apply dict_set_fresh.
  intros Hin. apply (Hk k0 Hin). by left.
Qed.

Lemma dict_of_elem items k v : (k, v) ∈ dict_of items → (k, v) ∈ items.
Proof.
  induction items as [|[k0 v0] items IH] using rev_ind; [done|].
  rewrite dict_of_snoc. intros [->|Hin]%dict_set_elem; apply elem_of_app.
  - right. by left.
  - left. by apply IH.
Qed.

Lemma dict_get_is_Some d k : is_Some (dict_get k d) ↔ k ∈ d.*1.
Proof.
  induction d as [|[k0 v0] d IH]; cbn.
  - split; [by intros [? ?]|by intros ?%elem_of_nil].
  - destruct (decide (k0 = k)) as [->|Hne].
    + split; [by left|by eauto].
    + rewrite IH. split; [by right|]. by intros [?|?]%elem_of_cons.
Qed.

Lemma dict_get_Some d k v : NoDup d.*1 → dict_get k d = Some v ↔ (k, v) ∈ d.
Proof.
  induction d as [|[k0 v0] d IH]; cbn.
  - intros _. split; [done|by intros ?%elem_of_nil].
  - intros [Hk Hnd]%NoDup_cons. destruct (decide (k0 = k)) as [->|Hne].
    + split; [intros [= ->]; by left|].
      intros [[= ->]|Hin]%elem_of_cons; [done|].
      exfalso. apply Hk. apply list_elem_of_fmap. by exists (k, v).
    + rewrite IH by done. split; [by right|].
      by intros [[= ? ?]|?]%elem_of_cons.
Qed.

(** The last item for a key is the one that counts. *)
Lemma dict_get_of_last items1 k v items2 :
  k ∉ items2.*1 → dict_get k (dict_of (items1 ++ (k, v) :: items2)) = Some v.
Proof.
  induction items2 as [|[k0 v0] items2 IH] using rev_ind; intros Hk.
  - rewrite dict_of_snoc, dict_get_set. by destruct (decide (k = k)).
  - rewrite fmap_app, not_elem_of_app in Hk. destruct Hk as [Hk Hk0].
    rewrite app_comm_cons, (assoc_L (++)), dict_of_snoc, dict_get_set.
    destruct (decide (k0 = k)) as [->|_]; [|by apply IH].
    exfalso. apply Hk0. by left.
Qed.

End DictFacts.

Section DictInvert.
Import Struct.
Context {K A : Type} `{EqDecision K, EqDecision A}.

(** Turning a dictionary around: every value leads back to a key that has
    it, the last one. *)
Lemma dict_invert (d : list (K * A)) :
  NoDup d.*1 →
  let inv := dict_of (prod_swap <$> d) in
  (∀ v k, dict_get v inv = Some k → dict_get k d = Some v) ∧
  (∀ k v, dict_get k d = Some v →
     ∃ k', dict_get v inv = Some k' ∧ dict_get k' d = Some v) ∧
  (∀ d1 k v d2, d = d1 ++ (k, v) :: d2 → v ∉ d2.*2 → dict_get v inv = Some k).
Proof.
  intros Hnd inv.
  assert (∀ v k, dict_get v inv = Some k → dict_get k d = Some v) as Hback.
  { intros v k Hget. apply dict_get_Some in Hget; [|apply dict_of_NoDup].
    apply dict_of_elem, list_elem_of_fmap in Hget as ([k' v'] & [= -> ->] & Hin).
    by apply dict_get_Some. }
  split_and!; [done| |].
  - intros k v Hget. apply dict_get_Some in Hget; [|done].
    destruct (dict_get v inv) as [k'|] eqn:Hinv; [by eauto|].
    assert (is_Some (dict_get v inv)) as [? ?]; [|congruence].
    apply dict_get_is_Some, dict_of_keys, list_elem_of_fmap.
    exists (v, k). split; [done|]. apply list_elem_of_fmap. by exists (k, v).
  - intros d1 k v d2 -> Hv. unfold inv. rewrite fmap_app. cbn.
    apply dict_get_of_last. intros Hin. apply Hv.
    apply list_elem_of_fmap in Hin as ([v' k'] & -> & Hin).
    apply list_elem_of_fmap in Hin as ([k'' v''] & [= -> ->] & Hin).
    apply list_elem_of_fmap. by exists (k'', v'').
Qed.

End DictInvert.

Section Inventory.
Import Tree Monitor Created Struct.

Implicit Types (self : Inventory) (s : State ManagedObject) (dc : Datacenter).

(** The comprehension builds one tree for each datacenter. *)
Lemma build_trees_spec (dcs : list Datacenter) s :
  closed (objs s) →
  ∃ ts s', build_trees dcs s = Some (Ok ts, s') ∧
    closed (objs s') ∧
    length ts = length dcs ∧
    length (objs s') = (length (objs s) + sum_list (dc_size <$> dcs))%nat ∧
    global_id s' = global_id s + Z.of_nat (sum_list (dc_size <$> dcs)).
Proof.
  revert s. induction dcs as [|dc dcs IH]; intros s Hcl.
  { exists [], s. cbn. split_and!; [done|done|done|lia|lia]. }
  destruct (build_dc_tree_created dc s Hcl)
    as (t & s1 & Hrun & _ & Hlen & Hgid & _ & _ & _ & _ & Hcl1).
  destruct (IH s1 Hcl1) as (ts & s' & Hrest & Hcl' & Hlts & Hlen' & Hgid').
  exists (t :: ts), s'. cbn [build_trees].
  rewrite (M_bind_Some _ _ s (Ok t) s1 Hrun). cbn beta iota.
  rewrite (M_bind_Some _ _ s1 (Ok ts) s' Hrest).
  assert (sum_list (dc_size <$> dc :: dcs) = (dc_size dc + sum_list (dc_size <$> dcs))%nat)
    as -> by done.
  cbv zeta in Hlen. cbn [length].
  split_and!; [done|done|by rewrite Hlts|lia|lia].
Qed.

Lemma build_trees_one dc s :
  build_trees [dc] s =
  match _build_dc_tree dc s with
  | Some (Ok t, s') => Some (Ok [t], s')
  | Some (Raise e, s') => Some (Raise e, s')
  | None => None
  end.
Proof.
  cbn. unfold mbind, M_bind, bind. by destruct (_build_dc_tree dc s) as [[[t|e] s']|].
Qed.

Lemma id_items_Some (ns : list ref) (h : heap ManagedObject) :
  Forall (λ n, (n < length h)%nat) ns → is_Some (id_items ns h).
Proof.
  intros Hns. unfold id_items. apply mapM_is_Some.
  eapply Forall_impl; [done|]. intros n Hn. cbn in Hn.
  destruct (lookup_lt_is_Some_2 h n Hn) as [nd Hnd]. unfold compose. rewrite Hnd.
  by eexists.
Qed.

Lemma id_items_elem (ns : list ref) (h : heap ManagedObject) items i nm :
  id_items ns h = Some items →
  (i, nm) ∈ items ↔ ∃ n nd, n ∈ ns ∧ h !! n = Some nd ∧ id nd = i ∧ name (Tree.value nd) = nm.
Proof.
  unfold id_items. intros HF%mapM_Some. induction HF as [|n [i' nm'] ns items Hn HF IH].
  { split; [by intros ?%elem_of_nil|by intros (? & ? & ?%elem_of_nil & _)]. }
  destruct (h !! n) as [nd|] eqn:Hnd; [|done]. cbn in Hn. injection Hn as <- <-.
  rewrite elem_of_cons, IH. split.
  - intros [[= -> ->]|(n' & nd' & Hin & ?)].
    + exists n, nd. split; [by left|done].
    + exists n', nd'. split; [by right|done].
  - intros (n' & nd' & [->|Hin]%elem_of_cons & Hnd' & <- & <-).
    + left. rewrite Hnd in Hnd'. by injection Hnd' as <-.
    + right. by exists n', nd'.
Qed.

Lemma id_items_keys (ns : list ref) (h : heap ManagedObject) items :
  id_items ns h = Some items → Some <$> items.*1 = (λ n, id <$> h !! n) <$> ns.
Proof.
  unfold id_items. intros HF%mapM_Some. induction HF as [|n [i' nm'] ns items Hn HF IH].
  { done. }
  destruct (h !! n) as [nd|] eqn:Hnd; [|done]. cbn in Hn. injection Hn as <- <-.
  cbn. rewrite Hnd. cbn. by rewrite IH.
Qed.

(** How [build_struct] goes on once the one tree is built. *)
Lemma build_struct_one self s dc t s' :
  datacenter_view self = [dc] →
  _build_dc_tree dc s = Some (Ok t, s') →
  build_struct self s =
  (items ← id_items (nodes self ++ Tree.nodes t) (objs s');
   Some ((mkInventory [dc] [t] (nodes self ++ Tree.nodes t) (dict_of items)
                      (dict_of (prod_swap <$> dict_of items)), Ok tt), s')).
Proof.
  intros Hview Hrun. unfold build_struct. rewrite Hview.
  assert (build_trees [dc] s = Some (Ok [t], s')) as Htrees.
  { by rewrite build_trees_one, Hrun. }
  rewrite (M_bind_Some _ _ s (Ok [t]) s' Htrees). cbn beta iota zeta.
  cbn [fmap list_fmap extend].
  unfold mbind at 1, M_bind at 1, bind at 1, on_heap.
  destruct (id_items (nodes self ++ Tree.nodes t) (objs s')) as [items|]; cbn; [|done].
  by destruct s'.
Qed.

(** X17: unless the datacenter view holds exactly one datacenter,
    [build_struct] raises a [TypeError], from [list.extend].  It has then
    built a tree for every datacenter and assigned them to [self.trees]:
    [Node.global_id] has advanced by the number of their nodes.
    [self.nodes], [self.id_map] and [self.name_map] are as before. *)
Theorem build_struct_needs_one_datacenter self s :
  closed (objs s) →
  length (datacenter_view self) ≠ 1%nat →
  ∃ ts s',
    build_struct self s =
      Some ((mkInventory (datacenter_view self) ts (nodes self) (id_map self) (name_map self),
             Raise (TypeError ("list.extend() takes exactly one argument ("
                               +:+ pretty (length (datacenter_view self)) +:+ " given)"))),
            s') ∧
    length ts = length (datacenter_view self) ∧
    global_id s' = global_id s + Z.of_nat (sum_list (dc_size <$> datacenter_view self)).
Proof.
  intros Hcl Hview.
  destruct (build_trees_spec (datacenter_view self) s Hcl)
    as (ts & s' & Hrun & _ & Hlen & _ & Hgid).
  exists ts, s'. split_and!; [|done..].
  unfold build_struct. rewrite (M_bind_Some _ _ s (Ok ts) s' Hrun). cbn beta iota zeta.
  rewrite <-Hlen in Hview |- *.
  destruct ts as [|t [|t' ts]]; [|done|].
  - done.
  - cbn [fmap list_fmap extend length]. by rewrite length_fmap.
Qed.

(** X18: with one datacenter in the view and [self.nodes] holding nodes
    that exist, [build_struct] returns.  [self.trees] then holds the tree
    of [_build_dc_tree], whose nodes have been added to [self.nodes]
    behind the nodes it held, and every node of [self.nodes] has its id in
    [self.id_map].  When [self.nodes] was empty, [self.id_map] lists the id
    and the name of each node of the tree in the order of the tree's node
    list, and the ids in it are the ones handed out during the call. *)
Theorem build_struct_one_datacenter self s dc :
  closed (objs s) →
  datacenter_view self = [dc] →
  Forall (λ n, (n < length (objs s))%nat) (nodes self) →
  ∃ t self' s',
    _build_dc_tree dc s = Some (Ok t, s') ∧
    build_struct self s = Some ((self', Ok tt), s') ∧
    trees self' = [t] ∧
    nodes self' = nodes self ++ Tree.nodes t ∧
    (∀ n, n ∈ nodes self' →
       ∃ nd, objs s' !! n = Some nd ∧ is_Some (dict_get (id nd) (id_map self'))) ∧
    (nodes self = [] →
       id_items (Tree.nodes t) (objs s') = Some (id_map self') ∧
       length (id_map self') = dc_size dc ∧
       ∀ i, is_Some (dict_get i (id_map self')) ↔ global_id s ≤ i < global_id s').
Proof.
  intros Hcl Hview Hold.
  destruct (build_dc_tree_created dc s Hcl)
    as (t & s' & Hrun & _ & Hlen & Hgid & Hnd & Hin & Hid & _ & _).
  assert (Forall (λ n, (n < length (objs s'))%nat) (nodes self ++ Tree.nodes t)) as Hall.
  { apply Forall_app. split.
    - eapply Forall_impl; [done|]. cbn. lia.
    - apply Forall_forall. intros n Hn%Hin. lia. }
  destruct (id_items_Some _ _ Hall) as [items Hitems].
  pose proof (build_struct_one self s dc t s' Hview Hrun) as Hbuild.
  rewrite Hitems in Hbuild. cbn in Hbuild.
  eexists t, _, s'. split_and!; [done|done|done|done| |].
  - cbn. intros n Hn. rewrite Forall_forall in Hall.
    destruct (lookup_lt_is_Some_2 (objs s') n (Hall n Hn)) as [nd Hndn].
    exists nd. split; [done|].
    apply dict_get_is_Some, dict_of_keys, list_elem_of_fmap.
    exists (id nd, name (Tree.value nd)). split; [done|].
    apply (id_items_elem _ _ _ _ _ Hitems). by exists n, nd.
  - cbn. intros Hnil. rewrite Hnil in Hitems. cbn in Hitems.
    assert (Some <$> items.*1 =
            (λ n, Some (global_id s + Z.of_nat (n - length (objs s)))) <$> Tree.nodes t)
      as Hkeys.
    { rewrite (id_items_keys _ _ _ Hitems). apply Forall_fmap_ext_1, Forall_forall.
      intros n Hn. apply Hid. by apply Hin. }
    assert (NoDup items.*1) as Hndk.
    { apply (NoDup_fmap_1 Some). rewrite Hkeys. apply NoDup_fmap_2_strong; [|done].
      intros n m Hn%Hin Hm%Hin [= E]. lia. }
    assert (length (Tree.nodes t) = dc_size dc) as Hsize.
    { transitivity (length (seq (length (objs s)) (dc_size dc))); [|apply length_seq].
      apply Permutation_length.
      apply NoDup_Permutation; [done|apply NoDup_seq|].
      intros n. by rewrite Hin, elem_of_seq. }
    rewrite (dict_of_id items Hndk). split_and!; [done| |].
    + apply (f_equal length) in Hkeys. rewrite !length_fmap in Hkeys. by rewrite Hkeys.
    + intros i. rewrite dict_get_is_Some.
      assert (i ∈ items.*1 ↔ Some i ∈ Some <$> items.*1) as ->.
      { split; [by apply list_elem_of_fmap_2|].
        by intros (? & [= <-] & ?)%list_elem_of_fmap. }
      rewrite Hkeys, list_elem_of_fmap, Hgid. cbv zeta in Hin. split.
      * intros (n & [= ->] & Hn%Hin). lia.
      * intros Hi. exists (length (objs s) + Z.to_nat (i - global_id s))%nat. split.
        -- f_equal. lia.
        -- apply Hin. lia.
Qed.

(** X19: whenever [build_struct] returns, [self.name_map] is
    [self.id_map] turned around.  A name that [name_map] holds leads to an
    id under which [id_map] holds this name; every name of [id_map] is in
    [name_map]; and where several ids of [id_map] have one name,
    [name_map] gives the last of them. *)
Theorem build_struct_maps_round_trip self s self' s' :
  build_struct self s = Some ((self', Ok tt), s') →
  (∀ nm i, dict_get nm (name_map self') = Some i → dict_get i (id_map self') = Some nm) ∧
  (∀ i nm, dict_get i (id_map self') = Some nm →
     ∃ j, dict_get nm (name_map self') = Some j ∧ dict_get j (id_map self') = Some nm) ∧
  (∀ before i nm after, id_map self' = before ++ (i, nm) :: after → nm ∉ after.*2 →
     dict_get nm (name_map self') = Some i).
Proof.
  unfold build_struct, mbind at 1, M_bind at 1, bind at 1.
  destruct (build_trees (datacenter_view self) s) as [[[ts|e] s1]|]; [|done..].
  destruct (extend (nodes self) (Tree.nodes <$> ts)) as [ns|e]; [|done].
  unfold mbind at 1, M_bind at 1, bind at 1, on_heap.
  destruct (id_items ns (objs s1)) as [items|]; [|done]. cbn.
  intros [= <- <-]. cbn [id_map name_map].
  apply dict_invert, dict_of_NoDup.
Qed.

(** X20: after a first [build_struct] with one datacenter,
    [query_id_status] answers for every id of [self.id_map] with the latest
    statistics of the object of the node that has this id, whose name is
    the one [id_map] gives; for any other id it returns [None], without a
    query. *)
Theorem query_id_status_after_build available (mon : Monitor) self s dc self' s' :
  closed (objs s) →
  datacenter_view self = [dc] →
  nodes self = [] →
  build_struct self s = Some ((self', Ok tt), s') →
  ∀ i,
    match dict_get i (id_map self') with
    | Some nm =>
        ∃ n nd, n ∈ nodes self' ∧ objs s' !! n = Some nd ∧
          id nd = i ∧ name (Tree.value nd) = nm ∧
          query_id_status available mon self' i (objs s') =
            Some (Some (Stats.latest_stats_all available mon (Tree.value nd)))
    | None => query_id_status available mon self' i (objs s') = Some None
    end.
Proof.
  intros Hcl Hview Hnil Hbuild i.
  destruct (build_dc_tree_created dc s Hcl)
    as (t & s1 & Hrun & _ & Hlen & Hgid & Hnd & Hin & Hid & _ & _).
  cbv zeta in Hin, Hid.
  rewrite (build_struct_one self s dc t s1 Hview Hrun), Hnil in Hbuild. cbn [app] in Hbuild.
  destruct (id_items (Tree.nodes t) (objs s1)) as [items|] eqn:Hitems; [|done].
  cbn in Hbuild. injection Hbuild as <- <-.
  cbn [id_map nodes trees]. unfold query_id_status. cbn [trees query_id_status_in].
  assert (Forall (λ n, (n < length (objs s1))%nat) (Tree.nodes t)) as Hrange.
  { apply Forall_forall. intros n Hn%Hin. lia. }
  pose proof (search_in_spec (Tree.nodes t) i (objs s1) Hrange) as Hs.
  fold (search t i (objs s1)) in Hs.
  destruct (dict_get i (dict_of items)) as [nm|] eqn:Hget.
  - apply dict_get_Some in Hget; [|apply dict_of_NoDup].
    apply dict_of_elem in Hget.
    apply (id_items_elem _ _ _ _ _ Hitems) in Hget as (n & nd & Hn & Hndn & Hi & Hnm).
    exists n, nd. split_and!; try done.
    destruct (search t i (objs s1)) as [[n'|]|]; [| |done].
    + destruct Hs as (before & after & Hsplit & Hid' & _).
      assert (n' ∈ Tree.nodes t) as Hn'.
      { rewrite Hsplit. apply elem_of_app. right. by left. }
      pose proof (Hid n (proj1 (Hin n) Hn)) as Hidn. rewrite Hndn in Hidn.
      rewrite (Hid n' (proj1 (Hin n') Hn')) in Hid'.
      apply Hin in Hn, Hn'. cbn in Hidn.
      assert (n' = n) as -> by (injection Hidn as Hidn; injection Hid' as Hid'; lia).
      cbn. by rewrite Hndn.
    + exfalso. apply (Hs n Hn). rewrite Hndn. cbn. by rewrite Hi.
  - destruct (search t i (objs s1)) as [[n'|]|]; [|done|done].
    exfalso. destruct Hs as (before & after & Hsplit & Hid' & _).
    assert (n' ∈ Tree.nodes t) as Hn'.
    { rewrite Hsplit. apply elem_of_app. right. by left. }
    destruct (objs s1 !! n') as [nd'|] eqn:Hnd'; [|done]. injection Hid' as Hid'.
    assert (is_Some (dict_get i (dict_of items))) as [? ?]; [|congruence].
    apply dict_get_is_Some, dict_of_keys, list_elem_of_fmap.
    exists (i, name (Tree.value nd')). split; [done|].
    apply (id_items_elem _ _ _ _ _ Hitems). by exists n', nd'.
Qed.

End Inventory.

Section InventoryExamples.
Import Tree Monitor Created Struct.

Lemma build_struct_needs_one_datacenter_witness :
  closed (objs (mkState ([] : heap ManagedObject) 1)) ∧
  length (datacenter_view (Inventory_init [Samples.datacenter; Samples.datacenter])) ≠ 1%nat ∧
  ∃ ts s',
    build_struct (Inventory_init [Samples.datacenter; Samples.datacenter]) (mkState [] 1) =
      Some ((mkInventory [Samples.datacenter; Samples.datacenter] ts [] [] [],
             Raise (TypeError "list.extend() takes exactly one argument (2 given)")), s') ∧
    length ts = 2%nat ∧ global_id s' = 15.
Proof.
  split; [constructor|]. split; [done|].
  destruct (build_struct_needs_one_datacenter
              (Inventory_init [Samples.datacenter; Samples.datacenter]) (mkState [] 1))
    as (ts & s' & Hrun & Hlen & Hgid); [constructor|done|].
  exists ts, s'. split; [exact Hrun|]. split; [exact Hlen|exact Hgid].
Defined.

Lemma build_struct_one_datacenter_witness :
  closed (objs (mkState ([] : heap ManagedObject) 1)) ∧
  Forall (λ n, (n < length (objs (mkState ([] : heap ManagedObject) 1)))%nat)
         (nodes (Inventory_init [Samples.datacenter])) ∧
  ∃ self' s',
    build_struct (Inventory_init [Samples.datacenter]) (mkState [] 1) = Some ((self', Ok tt), s') ∧
    nodes self' = [0; 1; 6; 2; 4; 3; 5]%nat ∧
    id_map self' = [(1, "dc"); (2, "cluster"); (7, "host-3"); (3, "host-1");
                    (5, "host-2"); (4, "vm-a"); (6, "vm-b")].
Proof.
  split; [constructor|]. split; [constructor|].
  destruct (build_struct_one_datacenter (Inventory_init [Samples.datacenter]) (mkState [] 1)
              Samples.datacenter)
    as (t & self' & s' & _ & Hrun & _); [constructor|done|constructor|].
  exists self', s'. split; [exact Hrun|].
  vm_compute in Hrun. by injection Hrun as <- <-.
Defined.

Lemma build_struct_maps_round_trip_witness :
  ∃ self' s',
    build_struct (Inventory_init [Twins.twins]) (mkState [] 1) = Some ((self', Ok tt), s') ∧
    id_map self' = [(1, "dc"); (2, "host"); (3, "vm-a"); (4, "vm-a")] ∧
    dict_get "vm-a" (name_map self') = Some 4 ∧
    dict_get 4 (id_map self') = Some "vm-a".
Proof.
  destruct (build_struct (Inventory_init [Twins.twins]) (mkState [] 1))
    as [[[self' [[]|e]] s']|] eqn:Hrun; [|vm_compute in Hrun; discriminate..].
  destruct (build_struct_maps_round_trip _ _ _ _ Hrun) as (Hback & _ & Hlast).
  assert (id_map self' = [(1, "dc"); (2, "host"); (3, "vm-a"); (4, "vm-a")]) as Hids.
  { vm_compute in Hrun. by injection Hrun as <- <-. }
  assert (dict_get "vm-a" (name_map self') = Some 4) as Hname.
  { apply (Hlast [(1, "dc"); (2, "host"); (3, "vm-a")] 4 "vm-a" []); [exact Hids|].
    apply not_elem_of_nil. }
  exists self', s'. split; [reflexivity|]. split; [exact Hids|]. split; [exact Hname|].
  exact (Hback _ _ Hname).
Defined.

Lemma query_id_status_after_build_witness :
  closed (objs (mkState ([] : heap ManagedObject) 1)) ∧
  ∃ self' s',
    build_struct (Inventory_init [Samples.datacenter]) (mkState [] 1) = Some ((self', Ok tt), s') ∧
    dict_get 4 (id_map self') = Some "vm-a" ∧
    query_id_status (λ _, [mkMetricId 6 "a"]) Samples.realtime_monitor self' 4 (objs s') =
      Some (Some (Stats.latest_stats_all (λ _, [mkMetricId 6 "a"]) Samples.realtime_monitor
                    (OVirtualMachine Samples.vm_a))) ∧
    query_id_status (λ _, [mkMetricId 6 "a"]) Samples.realtime_monitor self' 8 (objs s') =
      Some None.
Proof.
  split; [constructor|].
  destruct (build_struct (Inventory_init [Samples.datacenter]) (mkState [] 1))
    as [[[self' [[]|e]] s']|] eqn:Hrun; [|vm_compute in Hrun; discriminate..].
  pose proof (query_id_status_after_build (λ _, [mkMetricId 6 "a"]) Samples.realtime_monitor
                (Inventory_init [Samples.datacenter]) (mkState [] 1) Samples.datacenter
                self' s' ltac:(constructor) eq_refl eq_refl Hrun) as Hq.
  assert (id_map self' = [(1, "dc"); (2, "cluster"); (7, "host-3"); (3, "host-1");
                          (5, "host-2"); (4, "vm-a"); (6, "vm-b")] ∧
          Tree.value <$> objs s' !! 3%nat = Some (OVirtualMachine Samples.vm_a) ∧
          id <$> objs s' = [1; 2; 3; 4; 5; 6; 7]) as (Hids & Hval & Hobj).
  { vm_compute in Hrun. by injection Hrun as <- <-. }
  exists self', s'. split; [reflexivity|].
  assert (dict_get 4 (id_map self') = Some "vm-a") as Hget4 by (by rewrite Hids).
  assert (dict_get 8 (id_map self') = None) as Hget8 by (by rewrite Hids).
  pose proof (Hq 4) as H4. pose proof (Hq 8) as H8. rewrite Hget4 in H4. rewrite Hget8 in H8.
  split; [exact Hget4|]. split; [|exact H8].
  destruct H4 as (n & nd & _ & Hnd & Hid & _ & ->).
  assert (n = 3%nat) as ->.
  { apply (f_equal (λ l, l !! n)) in Hobj. rewrite list_lookup_fmap, Hnd in Hobj.
    cbn in Hobj. rewrite Hid in Hobj.
    by destruct n as [|[|[|[|[|[|[|n]]]]]]]. }
  rewrite Hnd in Hval. cbn in Hval. by injection Hval as ->.
Defined.

End InventoryExamples.
